(** * JSCarousel: the focusability classifier and the carousel controller

    A shallow embedding of [src/JSCarousel.js].  The script drives a page
    through the DOM, so the embedding has three layers:

    - the JavaScript values the script computes with ([number], with the
      [NaN] that [parseFloat] produces);
    - the part of the DOM the script reads and writes: a store of elements
      addressed by reference, with parent links, attributes, class lists,
      inline and computed styles, and selector queries over it;
    - the two classes themselves, [FocusableElement] and [JSCarousel], the
      latter written in a state-and-exception monad because its methods
      mutate both the page and [this], and throw. *)

From Stdlib Require Import ZArith QArith String Ascii Bool Lia.
From stdpp Require Import base option list gmap strings.

Local Open Scope string_scope.
Local Open Scope Z_scope.

(** ** JavaScript numbers *)

(** Pixel quantities are JavaScript numbers.  A finite value is kept exactly,
    as a rational; [NaN] is what [parseFloat] returns on a text that does not
    start with a number (["auto"], the empty string) and it propagates through
    arithmetic.  The code computes in binary64: [add] and [mul] below are the
    code's [+] and [*] where binary64 is exact, as on whole numbers of a few
    digits, and differ from them by the rounding elsewhere.  A statement that
    gives the value of a sum or a product in closed form is therefore made
    for whole numbers in such a range; a statement written with [add] and
    [mul] themselves, or about zero, non-zero and [NaN], does not depend on
    the rounding. *)
Inductive number :=
  | Num (q : Q)
  | NaN.

Module Number.

Definition of_int (z : Z) : number := Num (inject_Z z).

Definition mul (a b : number) : number :=
  match a, b with
  | Num x, Num y => Num (Qmult x y)
  | _, _ => NaN
  end.

Definition add (a b : number) : number :=
  match a, b with
  | Num x, Num y => Num (Qplus x y)
  | _, _ => NaN
  end.

(** [a !== 0] on numbers: [NaN] is different from everything. *)
Definition strict_neq_zero (a : number) : bool :=
  match a with
  | Num x => negb (Qeq_bool x 0)
  | NaN => true
  end.

Definition is_finite (a : number) : bool :=
  match a with
  | Num _ => true
  | NaN => false
  end.

End Number.

(** ** The DOM *)

(** A style value is a keyword (["none"], ["hidden"], ["auto"], ...) or a
    length in pixels.  [Px n] stands for the text [n + "px"] that the script
    writes into [style.left]; [parseFloat] reads the number back. *)
Inductive CSSValue :=
  | Keyword (s : string)
  | Px (n : number).

Definition parseFloat (v : option CSSValue) : number :=
  match v with
  | Some (Px n) => n
  | Some (Keyword _) | None => NaN
  end.

(** Elements live in a store and are referred to by their position in it;
    two references denote the same element exactly when they are equal.  The
    store lists the elements in document order. *)
Abbreviation Ref := nat (only parsing).

Record Element := mkElement {
  parentNode : option Ref;
  (** [true] for an element of an HTML document (a [text/html] page), [false]
      for one of an XML document (XHTML). *)
  inHTMLDocument : bool;
  localName : string;
  (** the content attributes other than [style] and [class]: those two are
      the fields [style] and [classList], and a write to one of the fields
      is, in the browser, a write to the attribute of that name *)
  attributes : gmap string string;
  classList : list string;
  style : gmap string CSSValue;
  (** what [window.getComputedStyle(el)] answers; supplied by the layout
      engine and taken as given *)
  computedStyle : gmap string CSSValue;
}.

Abbreviation Document := (list Element) (only parsing).

Definition with_attributes (a : gmap string string) (e : Element) : Element :=
  {| parentNode := parentNode e; inHTMLDocument := inHTMLDocument e;
     localName := localName e; attributes := a; classList := classList e;
     style := style e; computedStyle := computedStyle e |}.

Definition with_classList (c : list string) (e : Element) : Element :=
  {| parentNode := parentNode e; inHTMLDocument := inHTMLDocument e;
     localName := localName e; attributes := attributes e; classList := c;
     style := style e; computedStyle := computedStyle e |}.

Definition with_style (s : gmap string CSSValue) (e : Element) : Element :=
  {| parentNode := parentNode e; inHTMLDocument := inHTMLDocument e;
     localName := localName e; attributes := attributes e;
     classList := classList e; style := s; computedStyle := computedStyle e |}.

(** *** Properties of one element *)

Definition ascii_upper (c : ascii) : ascii :=
  let n := nat_of_ascii c in
  if ((97 <=? n) && (n <=? 122))%nat then ascii_of_nat (n - 32) else c.

Definition ascii_lower (c : ascii) : ascii :=
  let n := nat_of_ascii c in
  if ((65 <=? n) && (n <=? 90))%nat then ascii_of_nat (n + 32) else c.

Fixpoint string_map (f : ascii -> ascii) (s : string) : string :=
  match s with
  | EmptyString => EmptyString
  | String c r => String (f c) (string_map f r)
  end.

(** [el.tagName]: the qualified name, in upper case for an element of an HTML
    document and as written for an element of an XML document. *)
Definition tagName (e : Element) : string :=
  if inHTMLDocument e then string_map ascii_upper (localName e)
  else localName e.

Definition input_types : list string :=
  [ "hidden"; "text"; "search"; "tel"; "url"; "email"; "password"; "date";
    "month"; "week"; "time"; "datetime-local"; "number"; "range"; "color";
    "checkbox"; "radio"; "file"; "submit"; "image"; "reset"; "button" ].

(** [el.type] of an input element: the [type] attribute, lower-cased, when it
    is one of the known keywords, and ["text"] otherwise. *)
Definition type_ (e : Element) : string :=
  match attributes e !! "type" with
  | Some v =>
      let k := string_map ascii_lower v in
      if bool_decide (k ∈ input_types) then k else "text"
  | None => "text"
  end.

Definition hasAttribute (e : Element) (name : string) : bool :=
  bool_decide (is_Some (attributes e !! name)).

Definition getAttribute (e : Element) (name : string) : option string :=
  attributes e !! name.

(** The text a style declaration holds for a property, compared with [==] to a
    keyword.  An unset property reads as the empty string; a pixel length is
    never a keyword. *)
Definition css_is (v : option CSSValue) (value : string) : bool :=
  match v with
  | Some (Keyword s) => String.eqb s value
  | Some (Px _) => false
  | None => String.eqb "" value
  end.

(** *** Selectors *)

Inductive SimpleSelector :=
  | TypeSel (name : string)            (* [li] *)
  | ClassSel (c : string)              (* [.pos] *)
  | AttrSel (name value : string).     (* [[tabindex='0']] *)

Inductive ComplexSelector :=
  | Simple (s : SimpleSelector)
  | Descendant (a s : SimpleSelector). (* [.carousel-tablist li] *)

(** A selector list: the alternatives separated by commas. *)
Abbreviation Selector := (list ComplexSelector) (only parsing).

Definition matches_simple (e : Element) (s : SimpleSelector) : bool :=
  match s with
  | TypeSel n => String.eqb (localName e) n
  | ClassSel c => bool_decide (c ∈ classList e)
  | AttrSel n v => bool_decide (attributes e !! n = Some v)
  end.

(** The proper ancestors of an element, nearest first.  The fuel bounds the
    walk up by the size of the store. *)
Fixpoint ancestors_upto (fuel : nat) (d : Document) (i : Ref) : list Ref :=
  match fuel with
  | O => []
  | S f =>
      match d !! i ≫= parentNode with
      | Some p => p :: ancestors_upto f d p
      | None => []
      end
  end.

Definition ancestors (d : Document) (i : Ref) : list Ref :=
  ancestors_upto (length d) d i.

(** [root.contains(i)] for [i] other than [root]. *)
Definition is_descendant (d : Document) (root i : Ref) : bool :=
  bool_decide (root ∈ ancestors d i).

Definition matches_at (d : Document) (i : Ref) (s : SimpleSelector) : bool :=
  match d !! i with
  | Some e => matches_simple e s
  | None => false
  end.

Definition matches (d : Document) (i : Ref) (c : ComplexSelector) : bool :=
  match c with
  | Simple s => matches_at d i s
  | Descendant a s =>
      matches_at d i s && existsb (fun j => matches_at d j a) (ancestors d i)
  end.

(** [root.querySelectorAll(sel)]: the descendants of [root] that match one of
    the alternatives, in document order.  The result is a list, possibly
    empty, and never [null]. *)
Definition querySelectorAll (d : Document) (root : Ref) (sel : Selector)
  : list Ref :=
  filter (fun i => is_descendant d root i && existsb (matches d i) sel)
         (seq 0 (length d)).

(** [root.querySelector(sel)]: the first match, or [null]. *)
Definition querySelector (d : Document) (root : Ref) (sel : Selector)
  : option Ref :=
  head (querySelectorAll d root sel).

(** *** Mutation *)

Definition setAttribute (i : Ref) (name value : string) (d : Document)
  : Document :=
  alter (fun e => with_attributes (<[name := value]> (attributes e)) e) i d.

(** Whether the text of a value is one the browser accepts for a property:
    [NaN + "px"] is the text ["NaNpx"], which is no length. *)
Definition valid_value (v : CSSValue) : bool :=
  match v with
  | Px NaN => false
  | Px (Num _) | Keyword _ => true
  end.

(** [el.style[property] = text]: the browser parses the text, and an
    assignment of a text that is no value leaves the declaration as it
    was. *)
Definition setStyle (i : Ref) (property : string) (v : CSSValue) (d : Document)
  : Document :=
  if valid_value v
  then alter (fun e => with_style (<[property := v]> (style e)) e) i d
  else d.

(** [classList.add(c)] and [classList.remove(c)]: the class list is a set of
    tokens. *)
Definition classList_add (i : Ref) (c : string) (d : Document) : Document :=
  alter (fun e =>
           if bool_decide (c ∈ classList e) then e
           else with_classList (classList e ++ [c]) e) i d.

Definition classList_remove (i : Ref) (c : string) (d : Document) : Document :=
  alter (fun e => with_classList (filter (fun x => x ≠ c) (classList e)) e) i d.

Definition classList_contains (d : Document) (i : Ref) (c : string) : bool :=
  matches_at d i (ClassSel c).

(** ** [class FocusableElement] *)

Module FocusableElement.

Record t := mk {
  defaultFocusableHTMLElements : list string;
  focusableQuerySelector : Selector;
}.

(** [defaultFocusableHTMLElements.join(",") + "," + extra] *)
Definition join_with (tags : list string) (extra : SimpleSelector) : Selector :=
  map (fun n => Simple (TypeSel n)) tags ++ [Simple extra].

Definition new : t :=
  let tags := [ "a"; "button"; "input"; "textarea"; "select"; "summary" ] in
  {| defaultFocusableHTMLElements := tags;
     focusableQuerySelector := join_with tags (AttrSel "tabindex" "0") |}.

Definition set_focusableQuerySelector (sel : Selector) (h : t) : t :=
  {| defaultFocusableHTMLElements := defaultFocusableHTMLElements h;
     focusableQuerySelector := sel |}.

Definition hasStyle (el : Element) (property value : string) : bool :=
  css_is (style el !! property) value
  || css_is (computedStyle el !! property) value.

Definition RULES : list (Element -> bool) :=
  [ fun el => negb (hasStyle el "display" "none");
    fun el => negb (hasStyle el "visibility" "hidden");
    fun el => negb (hasAttribute el "disabled");
    fun el => negb (hasAttribute el "hidden");
    fun el => if String.eqb (tagName el) "input"
              then negb (String.eqb (type_ el) "hidden") else true ].

(** The loop of [isFocusable]: the first rule that answers [false] ends it. *)
Fixpoint every_rule (rules : list (Element -> bool)) (el : Element) : bool :=
  match rules with
  | [] => true
  | rule :: rest => if negb (rule el) then false else every_rule rest el
  end.

Definition isFocusable (el : Element) : bool := every_rule RULES el.

Definition isFocusable_at (d : Document) (i : Ref) : bool :=
  match d !! i with
  | Some el => isFocusable el
  | None => false
  end.

Definition getKeyboardFocusableElements (h : t) (d : Document) (parent : Ref)
  : list Ref :=
  let children := querySelectorAll d parent (focusableQuerySelector h) in
  filter (fun el => isFocusable_at d el) children.

End FocusableElement.

(** ** The page, and the monad of the controller's methods *)

(** The callbacks the constructor hands to the browser.  Each closes over
    [this].  Their bodies are [on_click_next], [on_click_previous],
    [on_click_tab] and [on_interval] below; the keydown listener calls
    [previous] and [next] and moves the focus, which is not part of this
    development: its registration is recorded and its body is left out. *)
Inductive Handler :=
  | ClickNext
  | ClickPrevious
  | ClickTab (i : nat)
  | KeyDown
  | AutoNav.

Inductive EventTarget :=
  | OnElement (r : Ref)
  | OnWindow.

Record Page := mkPage {
  document : Document;
  (** [addEventListener(type, handler)] calls, latest first *)
  listeners : list (EventTarget * string * Handler);
  (** [window.setInterval(handler, ms)] calls, latest first *)
  intervals : list (Handler * Z);
}.

Module Options.

Record t := mk {
  tabs : option bool;
  autonav : option bool;
  navigations_buttons : option bool;
  autonav_delay : option Z;
  disable_keyboard_navigation : option bool;
}.

End Options.

(** The fields of a [JSCarousel] object. *)
Record Carousel := mkCarousel {
  width : number;
  max_index : Z;
  current_index : Z;
  current_delay : Z;
  container : Ref;
  tabs : list Ref;
  buttons : option Ref * option Ref;
  allow_tabs : bool;
  allow_autonav : bool;
  allow_navbuttons : bool;
  autonav_delay : Z;
  disable_keyboard_navigation : bool;
}.

Definition with_width (v : number) (c : Carousel) : Carousel :=
  mkCarousel v (max_index c) (current_index c) (current_delay c) (container c)
    (tabs c) (buttons c) (allow_tabs c) (allow_autonav c) (allow_navbuttons c)
    (autonav_delay c) (disable_keyboard_navigation c).

Definition with_max_index (v : Z) (c : Carousel) : Carousel :=
  mkCarousel (width c) v (current_index c) (current_delay c) (container c)
    (tabs c) (buttons c) (allow_tabs c) (allow_autonav c) (allow_navbuttons c)
    (autonav_delay c) (disable_keyboard_navigation c).

Definition with_current_index (v : Z) (c : Carousel) : Carousel :=
  mkCarousel (width c) (max_index c) v (current_delay c) (container c)
    (tabs c) (buttons c) (allow_tabs c) (allow_autonav c) (allow_navbuttons c)
    (autonav_delay c) (disable_keyboard_navigation c).

Definition with_current_delay (v : Z) (c : Carousel) : Carousel :=
  mkCarousel (width c) (max_index c) (current_index c) v (container c)
    (tabs c) (buttons c) (allow_tabs c) (allow_autonav c) (allow_navbuttons c)
    (autonav_delay c) (disable_keyboard_navigation c).

Record State := mkState {
  this : Carousel;
  page : Page;
}.

(** How a method call ends: it returns, or it throws an [Error]. *)
Inductive Completion (A : Type) :=
  | Normal (a : A)
  | Throw (message : string).
Arguments Normal {A} a.
Arguments Throw {A} message.

(** A method body: it transforms the state and completes.  What it wrote
    before a [throw] stays written. *)
Definition M (A : Type) : Type := State -> Completion A * State.

#[export] Instance M_ret : MRet M := fun A a s => (Normal a, s).

#[export] Instance M_bind : MBind M := fun A B f m s =>
  match m s with
  | (Normal a, s') => f a s'
  | (Throw msg, s') => (Throw msg, s')
  end.

Definition throw {A} (msg : string) : M A := fun s => (Throw msg, s).

Definition get_this : M Carousel := fun s => (Normal (this s), s).

Definition modify_this (f : Carousel -> Carousel) : M unit :=
  fun s => (Normal tt, mkState (f (this s)) (page s)).

Definition get_document : M Document :=
  fun s => (Normal (document (page s)), s).

Definition modify_document (f : Document -> Document) : M unit :=
  fun s =>
    let p := page s in
    (Normal tt,
     mkState (this s) (mkPage (f (document p)) (listeners p) (intervals p))).

Definition addEventListener (target : EventTarget) (type : string) (h : Handler)
  : M unit :=
  fun s =>
    let p := page s in
    (Normal tt,
     mkState (this s)
       (mkPage (document p) ((target, type, h) :: listeners p) (intervals p))).

Definition setInterval (h : Handler) (ms : Z) : M unit :=
  fun s =>
    let p := page s in
    (Normal tt,
     mkState (this s)
       (mkPage (document p) (listeners p) ((h, ms) :: intervals p))).

(** [for (let x of l) body(x)] *)
Fixpoint for_of {A} (l : list A) (body : A -> M unit) : M unit :=
  match l with
  | [] => mret tt
  | x :: rest => body x ;; for_of rest body
  end.

(** [l[index]] for an integer index: [undefined] outside the list. *)
Definition item {A} (l : list A) (index : Z) : option A :=
  if index <? 0 then None else l !! Z.to_nat index.

(** A [NodeList] or an array is an object: it is not [null], and it is truthy
    even when it is empty. *)
Definition not_null {A} (l : list A) : bool := true.
Definition truthy {A} (l : list A) : bool := true.

(** ** [class JSCarousel] *)

Module JSCarousel.

Definition carousel_content : Selector := [Simple (ClassSel "carousel-content")].
Definition carousel_tablist_li : Selector :=
  [Descendant (ClassSel "carousel-tablist") (TypeSel "li")].
Definition carousel_prev : Selector := [Simple (ClassSel "carousel-prev")].
Definition carousel_next : Selector := [Simple (ClassSel "carousel-next")].
Definition pos : Selector := [Simple (ClassSel "pos")].

Definition hide_window (window_content : Ref) (d : Document) : Document :=
  let d := setAttribute window_content "aria-hidden" "true" d in
  let focusHandler := FocusableElement.new in
  let focusable_elements :=
    FocusableElement.getKeyboardFocusableElements focusHandler d window_content in
  if truthy focusable_elements then
    foldl (fun d element => setAttribute element "tabindex" "-1" d)
          d focusable_elements
  else d.

Definition show_window (window_content : Ref) (d : Document) : Document :=
  let d := setAttribute window_content "aria-hidden" "false" d in
  let focusHandler := FocusableElement.new in
  let focusHandler :=
    FocusableElement.set_focusableQuerySelector
      (FocusableElement.join_with
         (FocusableElement.defaultFocusableHTMLElements focusHandler)
         (AttrSel "tabindex" "-1"))
      focusHandler in
  let focusable_elements :=
    FocusableElement.getKeyboardFocusableElements focusHandler d window_content in
  if truthy focusable_elements then
    foldl (fun d element => setAttribute element "tabindex" "0" d)
          d focusable_elements
  else d.

(** [this.width * (this.current_index - index)] *)
Definition distance (c : Carousel) (index : Z) : number :=
  Number.mul (width c) (Number.of_int (current_index c - index)).

(** The body of the loop of [move], for one window. *)
Definition move_window (distance : number) (targeted_window : option Ref)
    (window_content : Ref) (d : Document) : Document :=
  let left_property := d !! window_content ≫= fun e => style e !! "left" in
  let current_left_pos := parseFloat left_property in
  let d := setStyle window_content "left"
             (Px (Number.add current_left_pos distance)) d in
  if negb (bool_decide (Some window_content = targeted_window))
  then hide_window window_content d
  else show_window window_content d.

Definition move (index : Z) : M unit :=
  c ← get_this;
  d ← get_document;
  let all_windows := querySelectorAll d (container c) carousel_content in
  let distance := distance c index in
  let targeted_window := item all_windows index in
  if Number.strict_neq_zero distance then
    for_of all_windows (fun window_content =>
      modify_document (move_window distance targeted_window window_content))
  else mret tt.

Definition empty_tab_message : string :=
  "A tab is empty. It needs to contain a div with class `pos`.".

(** The body of the loop of [active_panel] over the tabs, for the tab [t];
    [tab] is the one being selected. *)
Definition deselect_tab (tab t : Ref) : M unit :=
  if bool_decide (t = tab) then mret tt
  else
    modify_document (setAttribute t "aria-selected" "false");;
    modify_document (setAttribute t "tabindex" "-1");;
    d ← get_document;
    match querySelector d t pos with
    | Some t_pos => modify_document (classList_remove t_pos "pos-active")
    | None => throw empty_tab_message
    end.

(** The block of [active_panel] under [if (this.tabs)]. *)
Definition select_tab (c : Carousel) (index : Z) : M unit :=
  if truthy (tabs c) then
    match item (tabs c) index with
    | Some tab =>
        modify_document (setAttribute tab "aria-selected" "true");;
        modify_document (setAttribute tab "tabindex" "0");;
        d ← get_document;
        match querySelector d tab pos with
        | Some pos_ =>
            (if negb (classList_contains d pos_ "pos-active")
             then modify_document (classList_add pos_ "pos-active")
             else mret tt);;
            for_of (tabs c) (deselect_tab tab)
        | None => throw empty_tab_message
        end
    | None => mret tt
    end
  else mret tt.

Definition active_panel (index : Z) : M unit :=
  c ← get_this;
  select_tab c index;;
  move index.

Definition next : M unit :=
  c ← get_this;
  if current_index c <? max_index c then
    active_panel (current_index c + 1);;
    modify_this (fun c => with_current_index (current_index c + 1) c)
  else
    active_panel 0;;
    modify_this (with_current_index 0).

Definition previous : M unit :=
  c ← get_this;
  if current_index c >? 0 then
    active_panel (current_index c - 1);;
    modify_this (fun c => with_current_index (current_index c - 1) c)
  else
    active_panel (max_index c);;
    modify_this (fun c => with_current_index (max_index c) c).

(** *** The callbacks *)

(** The click listener of the next button. *)
Definition on_click_next : M unit :=
  next;;
  modify_this (with_current_delay 0).

(** The click listener of the previous button. *)
Definition on_click_previous : M unit :=
  previous;;
  modify_this (with_current_delay 0).

(** The click listener of the tab at position [i]. *)
Definition on_click_tab (i : nat) : M unit :=
  active_panel (Z.of_nat i);;
  modify_this (with_current_index (Z.of_nat i));;
  modify_this (with_current_delay 0).

(** The callback of the one-second interval. *)
Definition on_interval : M unit :=
  c ← get_this;
  if current_delay c >=? autonav_delay c then
    next;;
    modify_this (with_current_delay 0)
  else
    modify_this (fun c => with_current_delay (current_delay c + 1000) c).

(** *** The constructor *)

Definition _enable_navigation_buttons : M unit :=
  c ← get_this;
  if allow_navbuttons c then
    let prev_button := fst (buttons c) in
    let next_button := snd (buttons c) in
    match next_button with
    | Some b => addEventListener (OnElement b) "click" ClickNext
    | None => throw "There is no next button."
    end;;
    match prev_button with
    | Some b => addEventListener (OnElement b) "click" ClickPrevious
    | None => throw "There is no previous button."
    end
  else mret tt.

Definition _enable_tabs_buttons : M unit :=
  c ← get_this;
  if allow_tabs c && truthy (tabs c) then
    for_of (seq 0 (length (tabs c))) (fun i =>
      match tabs c !! i with
      | Some tab => addEventListener (OnElement tab) "click" (ClickTab i)
      | None => throw "TypeError"
      end)
  else mret tt.

Definition _enable_keyboard_navigation : M unit :=
  addEventListener OnWindow "keydown" KeyDown.

(** The field initialisers: [width], [max_index], [current_index] and
    [current_delay] start at 0; the other fields are still [undefined]. *)
Definition initial (container : Ref) : Carousel :=
  mkCarousel (Num 0) 0 0 0 container [] (None, None) false false false 0 false.

(** The assignments of lines 88 to 95: the tab items, the two buttons and the
    five options, each resolved against the caller's [options]. *)
Definition configure (options : option Options.t) (d : Document) (c : Carousel)
  : Carousel :=
  let tabs := querySelectorAll d (container c) carousel_tablist_li in
  let buttons := (querySelector d (container c) carousel_prev,
                  querySelector d (container c) carousel_next) in
  let allow_tabs :=
    match options with
    | Some o =>
        match Options.tabs o with
        | Some v => v
        | None => not_null tabs
        end
    | None => not_null tabs
    end in
  let allow_autonav :=
    match options with
    | Some o => match Options.autonav o with Some v => v | None => true end
    | None => true
    end in
  let presence_of_buttons :=
    bool_decide (fst buttons ≠ None) && bool_decide (snd buttons ≠ None) in
  let allow_navbuttons :=
    match options with
    | Some o =>
        match Options.navigations_buttons o with
        | Some v => v
        | None => presence_of_buttons
        end
    | None => presence_of_buttons
    end in
  let autonav_delay :=
    match options with
    | Some o =>
        match Options.autonav_delay o with
        | Some v => if v =? 0 then 5000 else v
        | None => 5000
        end
    | None => 5000
    end in
  let disable_keyboard_navigation :=
    match options with
    | Some o =>
        match Options.disable_keyboard_navigation o with
        | Some v => v || false
        | None => false
        end
    | None => false
    end in
  mkCarousel (width c) (max_index c) (current_index c) (current_delay c)
    (container c) tabs buttons allow_tabs allow_autonav allow_navbuttons
    autonav_delay disable_keyboard_navigation.

Definition no_window_message : string := "There is no window in the carousel.".

(** The constructor body after the check of the container. *)
Definition constructor (options : option Options.t) : M unit :=
  d ← get_document;
  modify_this (configure options d);;
  c ← get_this;
  let first_window := querySelector d (container c) carousel_content in
  match first_window with
  | Some w =>
      modify_this
        (with_width (parseFloat (d !! w ≫= fun e => computedStyle e !! "width")))
  | None => throw no_window_message
  end;;
  c ← get_this;
  let windows := querySelectorAll d (container c) carousel_content in
  (if truthy windows then
     for_of (seq 0 (length windows)) (fun i =>
       match windows !! i with
       | Some w =>
           modify_document
             (setStyle w "left"
                (Px (Number.mul (width c) (Number.of_int (Z.of_nat i)))))
       | None => throw "TypeError"
       end)
   else throw no_window_message);;
  (if allow_tabs c && truthy (tabs c) then
     modify_this (with_max_index (Z.of_nat (length (tabs c)) - 1))
   else if truthy windows then
     modify_this (with_max_index (Z.of_nat (length windows) - 1))
   else mret tt);;
  (if allow_navbuttons c then _enable_navigation_buttons else mret tt);;
  (if allow_tabs c && truthy (tabs c) then _enable_tabs_buttons else mret tt);;
  (if negb (disable_keyboard_navigation c)
   then _enable_keyboard_navigation else mret tt);;
  (if allow_autonav c then setInterval AutoNav 1000 else mret tt).

(** [new JSCarousel(container, options)] on a page: the new object, or the
    error thrown; in both cases the page as the constructor left it. *)
Definition new (container : option Ref) (options : option Options.t) (p : Page)
  : Completion Carousel * Page :=
  match container with
  | None => (Throw "The container of the carousel is undefined.", p)
  | Some c =>
      match constructor options (mkState (initial c) p) with
      | (Normal _, s) => (Normal (this s), page s)
      | (Throw msg, s) => (Throw msg, page s)
      end
  end.

(** *** The keyboard *)

(** What the keydown listener reads of the event. *)
Record KeyboardEvent := mkKeyboardEvent {
  key : string;
  keyCode : Z;
  ctrlKey : bool;
}.

(** What the listener asks of the browser: [el.focus()] on an element, and
    [e.preventDefault()].  The listener returns the calls it made, in
    order. *)
Inductive Call :=
  | Focus (el : Ref)
  | PreventDefault.

(** The loop [for (let x of l) if (x == activeElement) return true]. *)
Fixpoint holds_focus (l : list Ref) (activeElement : option Ref) : bool :=
  match l with
  | [] => false
  | x :: rest =>
      if bool_decide (Some x = activeElement) then true
      else holds_focus rest activeElement
  end.

(** [document.activeElement] is read by the two methods; it is their
    argument here. *)
Definition has_tabs_focus (activeElement : option Ref) : M bool :=
  c ← get_this;
  if allow_tabs c && truthy (tabs c) then
    if holds_focus (tabs c) activeElement then mret true else mret false
  else mret false.

(** [w.children]: the elements whose parent is [w], in document order. *)
Definition children (d : Document) (w : Ref) : list Ref :=
  filter (fun i => d !! i ≫= parentNode = Some w) (seq 0 (length d)).

(** The two nested loops of [has_window_focus]. *)
Fixpoint windows_hold_focus (d : Document) (windows : list Ref)
    (activeElement : option Ref) : bool :=
  match windows with
  | [] => false
  | w :: rest =>
      if holds_focus (children d w) activeElement then true
      else windows_hold_focus d rest activeElement
  end.

Definition has_window_focus (activeElement : option Ref) : M bool :=
  c ← get_this;
  d ← get_document;
  let windows := querySelectorAll d (container c) carousel_content in
  if truthy windows then
    if windows_hold_focus d windows activeElement then mret true
    else mret false
  else mret false.

(** [this.tabs[this.current_index].focus()]: a [TypeError] when the tab list
    has no item at the index. *)
Definition focus_current_tab : M Call :=
  c ← get_this;
  match item (tabs c) (current_index c) with
  | Some tab => mret (Focus tab)
  | None => throw "TypeError"
  end.

(** The keydown listener of the window. *)
Definition on_keydown (e : KeyboardEvent) (activeElement : option Ref)
  : M (list Call) :=
  focus_on_tabs ← has_tabs_focus activeElement;
  focus_in_window ← has_window_focus activeElement;
  let cltr_up_in_window :=
    (focus_in_window : bool) && ctrlKey e
    && (String.eqb (key e) "ArrowUp" || (keyCode e =? 38)) in
  calls ← (if cltr_up_in_window then
             c ← get_this;
             if truthy (tabs c) then
               call ← focus_current_tab;
               mret [call]
             else mret []
           else mret [] : M (list Call));
  if (focus_on_tabs : bool) then
    let is_left := String.eqb (key e) "ArrowLeft" || (keyCode e =? 37) in
    let is_right := String.eqb (key e) "ArrowRight" || (keyCode e =? 39) in
    (if is_left then
       previous;;
       modify_this (with_current_delay 0)
     else if is_right then
       next;;
       modify_this (with_current_delay 0)
     else mret tt);;
    if is_left || is_right then
      call ← focus_current_tab;
      mret (calls ++ [call; PreventDefault])%list
    else mret calls
  else mret calls.

(** *** The callbacks as the browser fires them *)

(** The body of a registered callback.  A keydown comes with its event and
    with the element that has the focus. *)
Definition fire (h : Handler) (e : KeyboardEvent) (activeElement : option Ref)
  : M unit :=
  match h with
  | ClickNext => on_click_next
  | ClickPrevious => on_click_previous
  | ClickTab i => on_click_tab i
  | AutoNav => on_interval
  | KeyDown => on_keydown e activeElement;; mret tt
  end.

End JSCarousel.
(** * Notions for the statements and the proofs *)

(** ** Reading the store and the outcome *)

(** Reading an attribute or an inline style of the element at a reference. *)
Definition attribute_at (d : Document) (i : Ref) (name : string)
  : option string :=
  d !! i ≫= fun e => getAttribute e name.

Definition style_at (d : Document) (i : Ref) (property : string)
  : option CSSValue :=
  d !! i ≫= fun e => style e !! property.

(** The call ended with an error. *)
Definition is_throw {A} (r : Completion A) : bool :=
  match r with
  | Throw _ => true
  | Normal _ => false
  end.

(** What an assignment of [v] to a property of the inline style leaves in
    the declaration that held [old]. *)
Definition assigned (v : CSSValue) (old : option CSSValue) : option CSSValue :=
  if valid_value v then Some v else old.

(** The [tabindex] attribute read as an integer, by the rules of HTML for
    parsing integers: leading white space is skipped, a sign may follow, then
    at least one digit; the digits are read up to the first character that is
    none. *)
Definition digit_of (c : ascii) : option Z :=
  let n := nat_of_ascii c in
  if ((48 <=? n) && (n <=? 57))%nat then Some (Z.of_nat n - 48) else None.

Definition is_ascii_whitespace (c : ascii) : bool :=
  let n := nat_of_ascii c in
  ((n =? 9) || (n =? 10) || (n =? 12) || (n =? 13) || (n =? 32))%nat.

Fixpoint skip_whitespace (s : string) : string :=
  match s with
  | String c r => if is_ascii_whitespace c then skip_whitespace r else s
  | EmptyString => EmptyString
  end.

Fixpoint parse_digits (acc : Z) (s : string) : Z :=
  match s with
  | EmptyString => acc
  | String c r =>
      match digit_of c with
      | Some v => parse_digits (10 * acc + v) r
      | None => acc
      end
  end.

(** The digits of [s], when it starts with one. *)
Definition parse_unsigned (s : string) : option Z :=
  match s with
  | String c _ =>
      match digit_of c with
      | Some _ => Some (parse_digits 0 s)
      | None => None
      end
  | EmptyString => None
  end.

Definition parse_integer (s : string) : option Z :=
  match skip_whitespace s with
  | EmptyString => None
  | String "-" r => Z.opp <$> parse_unsigned r
  | String "+" r => parse_unsigned r
  | String c r => parse_unsigned (String c r)
  end.

Definition has_positive_tabindex (e : Element) : bool :=
  match attributes e !! "tabindex" ≫= parse_integer with
  | Some z => 0 <? z
  | None => false
  end.


(** The panel at position 0 is shown and every other panel is hidden. *)
Definition only_first_shown (d : Document) (panels : list Ref) : Prop :=
  ∀ (k : nat) (w : Ref),
    panels !! k = Some w →
    attribute_at d w "aria-hidden"
    = Some (if (k =? 0)%nat then "false" else "true").

(** No element of the page carries the class of the tab list. *)
Definition no_tablist (d : Document) : bool :=
  forallb (fun e => negb (bool_decide ("carousel-tablist" ∈ classList e))) d.

(** Every tab item of the controller has a descendant of class [pos]. *)
Definition tabs_well_formed (c : Carousel) (d : Document) : bool :=
  forallb (fun t => bool_decide (is_Some (querySelector d t JSCarousel.pos)))
          (tabs c).

(** No element is inside two of the panels. *)
Definition panels_disjoint (d : Document) (panels : list Ref) : bool :=
  forallb (fun i =>
    forallb (fun p =>
      forallb (fun q =>
        bool_decide (p = q)
        || negb (is_descendant d p i && is_descendant d q i)) panels) panels)
    (seq 0 (length d)).

(** ** The code in other words *)

(** The index that [next] and [previous] activate. *)
Definition next_index (c : Carousel) : Z :=
  if current_index c <? max_index c then current_index c + 1 else 0.

Definition previous_index (c : Carousel) : Z :=
  if current_index c >? 0 then current_index c - 1 else max_index c.

(** [n] calls of a method, one after the other. *)
Fixpoint times (n : nat) (m : M unit) : M unit :=
  match n with
  | O => mret tt
  | S k => m ;; times k m
  end.

(** The fields that the constructor resolves from the page and the options. *)
Definition config_of (c : Carousel) :=
  (container c, tabs c, buttons c, allow_tabs c, allow_autonav c,
   allow_navbuttons c, autonav_delay c, disable_keyboard_navigation c).

(** The error that [new JSCarousel(container, options)] throws on a page, if
    any: for a missing container, for a page without a panel, and for a
    missing button when the resolved options ask for the buttons. *)
Definition construction_error (container : option Ref)
    (options : option Options.t) (d : Document) : option string :=
  match container with
  | None => Some "The container of the carousel is undefined."
  | Some c =>
      let c0 := JSCarousel.configure options d (JSCarousel.initial c) in
      match querySelector d c JSCarousel.carousel_content with
      | None => Some JSCarousel.no_window_message
      | Some _ =>
          if allow_navbuttons c0 then
            match (buttons c0).2, (buttons c0).1 with
            | None, _ => Some "There is no next button."
            | Some _, None => Some "There is no previous button."
            | Some _, Some _ => None
            end
          else None
      end
  end.

(** The classifier as [show_window] sets it up: the allowlist and
    [tabindex="-1"]. *)
Definition revealable : FocusableElement.t :=
  FocusableElement.set_focusableQuerySelector
    (FocusableElement.join_with
       (FocusableElement.defaultFocusableHTMLElements FocusableElement.new)
       (AttrSel "tabindex" "-1"))
    FocusableElement.new.

(** What [hide_window] and [show_window] have in common. *)
Definition mark_window (hidden tabindex : string) (h : FocusableElement.t)
    (w : Ref) (d : Document) : Document :=
  let d := setAttribute w "aria-hidden" hidden d in
  foldl (fun d element => setAttribute element "tabindex" tabindex d) d
        (FocusableElement.getKeyboardFocusableElements h d w).

(** What [move] writes on the window [w] when the targeted window is [t]. *)
Definition hidden_of (t : option Ref) (w : Ref) : string :=
  if bool_decide (Some w = t) then "false" else "true".

Definition tabindex_of (t : option Ref) (w : Ref) : string :=
  if bool_decide (Some w = t) then "0" else "-1".

Definition classifier_of (t : option Ref) (w : Ref) : FocusableElement.t :=
  if bool_decide (Some w = t) then revealable else FocusableElement.new.

(** The loop of [move] over a list of windows. *)
Definition move_windows (dist : number) (t : option Ref) (ws : list Ref)
    (d : Document) : Document :=
  foldl (fun d w => JSCarousel.move_window dist t w d) d ws.

(** The store after [move(index)], as a function of the store before. *)
Definition move_document (c : Carousel) (index : Z) (d : Document) : Document :=
  let all_windows := querySelectorAll d (container c) JSCarousel.carousel_content in
  if Number.strict_neq_zero (JSCarousel.distance c index) then
    foldl (fun d w =>
             JSCarousel.move_window (JSCarousel.distance c index)
               (item all_windows index) w d)
          d all_windows
  else d.

(** ** Views of an element and relations between states *)

(** A computation never leaves a relation [R] between the state it is given
    and the state it ends in, whether it returns or throws. *)
Definition stable (R : State -> State -> Prop) {A} (m : M A) : Prop :=
  ∀ s, R s (m s).2.

(** What the queries on tags and classes see of an element.  The class
    [pos-active] is left out: it is the one class the controller toggles. *)
Definition skeleton (e : Element) : option Ref * string * list string :=
  (parentNode e, localName e, filter (fun x => x ≠ "pos-active") (classList e)).

(** The selectors on tags and on classes other than [pos-active]. *)
Definition structural (s : SimpleSelector) : bool :=
  match s with
  | TypeSel _ => true
  | ClassSel c => negb (String.eqb c "pos-active")
  | AttrSel _ _ => false
  end.

Definition structural_selector (sel : Selector) : bool :=
  forallb (fun c => match c with
                    | Simple s => structural s
                    | Descendant a s => structural a && structural s
                    end) sel.

(** What the classifier sees of an element: everything but its classes, its
    [aria-hidden] and its left offset. *)
Definition focus_view (e : Element) :=
  (parentNode e, inHTMLDocument e, localName e,
   delete "aria-hidden" (attributes e), delete "left" (style e),
   computedStyle e).

(** A selector of the classifier: tags and attributes other than
    [aria-hidden]. *)
Definition focus_selector (sel : Selector) : bool :=
  forallb (fun c => match c with
                    | Simple (TypeSel _) => true
                    | Simple (AttrSel n _) => negb (String.eqb n "aria-hidden")
                    | _ => false
                    end) sel.

(** What [active_panel] and [move] keep: the fields of [this]. *)
Definition same_this (s s' : State) : Prop := this s' = this s.

(** What the constructor keeps: the attributes of every element, [style] and
    [class] apart. *)
Definition same_attributes (s s' : State) : Prop :=
  attributes <$> document (page s') = attributes <$> document (page s).

(** What every method keeps: the tree, the tags and the classes. *)
Definition same_structure (s s' : State) : Prop :=
  skeleton <$> document (page s') = skeleton <$> document (page s).

(** What navigation keeps of the controller and the page: the bound of the
    index, the tab items, and the tags, classes and tree of the store. *)
Definition same_ring (s s' : State) : Prop :=
  max_index (this s') = max_index (this s)
  ∧ tabs (this s') = tabs (this s)
  ∧ skeleton <$> document (page s') = skeleton <$> document (page s).

(** What the block of [active_panel] on the tabs may write: the
    [aria-selected] and [tabindex] attributes of the tab items [T], and class
    lists; no inline style and, [class] and [style] apart, no other
    attribute. *)
Definition tab_writes (T : list Ref) (s s' : State) : Prop :=
  style <$> document (page s') = style <$> document (page s)
  ∧ ∀ (i : Ref) (n : string),
      n ≠ "class" → n ≠ "style" →
      i ∉ T ∨ (n ≠ "aria-selected" ∧ n ≠ "tabindex") →
      attribute_at (document (page s')) i n
      = attribute_at (document (page s)) i n.

(** ** Sample pages *)

(** A small page builder: an element of an HTML page with no inline style. *)
Definition elem (parent : option Ref) (name : string) (classes : list string)
    (attrs : list (string * string)) (computed : list (string * CSSValue))
  : Element :=
  mkElement parent true name (list_to_map attrs) classes ∅ (list_to_map computed).

(** The computed style of a panel 300 pixels wide. *)
Definition width_300 : list (string * CSSValue) := [("width", Px (Num 300))].


(** [<div><button tabindex="3">ok</button></div>] *)
Definition page_positive_tabindex : Document :=
  [ elem None "div" [] [] [];
    elem (Some 0%nat) "button" [] [("tabindex", "3")] [] ].

(** The markup of the README: a section with two buttons, three panels and a
    tab list of three items. *)
Definition readme : Document :=
  [ elem None "section" ["carousel"] [("id", "my-carousel")] [];
    elem (Some 0%nat) "button" ["carousel-prev"] [("type", "button")] [];
    elem (Some 0%nat) "div" ["carousel-windows"] [] [];
    elem (Some 2%nat) "div" ["carousel-content"]
      [("role", "tabpanel"); ("aria-hidden", "false")] width_300;
    elem (Some 3%nat) "img" [] [] [];
    elem (Some 3%nat) "h3" [] [] [];
    elem (Some 3%nat) "a" [] [("href", "#")] [];
    elem (Some 2%nat) "div" ["carousel-content"]
      [("role", "tabpanel"); ("aria-hidden", "true")] width_300;
    elem (Some 7%nat) "img" [] [] [];
    elem (Some 7%nat) "h3" [] [] [];
    elem (Some 7%nat) "a" [] [("href", "#"); ("tabindex", "-1")] [];
    elem (Some 2%nat) "div" ["carousel-content"]
      [("role", "tabpanel"); ("aria-hidden", "true")] width_300;
    elem (Some 11%nat) "img" [] [] [];
    elem (Some 11%nat) "h3" [] [] [];
    elem (Some 11%nat) "a" [] [("href", "#"); ("tabindex", "-1")] [];
    elem (Some 0%nat) "button" ["carousel-next"] [("type", "button")] [];
    elem (Some 0%nat) "ul" ["carousel-tablist"] [("role", "tablist")] [];
    elem (Some 16%nat) "li" []
      [("role", "tab"); ("tabindex", "0"); ("aria-selected", "true")] [];
    elem (Some 17%nat) "div" ["pos"; "pos-active"] [] [];
    elem (Some 16%nat) "li" []
      [("role", "tab"); ("tabindex", "-1"); ("aria-selected", "false")] [];
    elem (Some 19%nat) "div" ["pos"] [] [];
    elem (Some 16%nat) "li" []
      [("role", "tab"); ("tabindex", "-1"); ("aria-selected", "false")] [];
    elem (Some 21%nat) "div" ["pos"] [] [] ].

(** The state after [new JSCarousel(section)] on a page; when the constructor
    throws, the object as it was left. *)
Definition constructed (container : Ref) (options : option Options.t)
    (d : Document) : State :=
  (JSCarousel.constructor options
     (mkState (JSCarousel.initial container) (mkPage d [] []))).2.

Definition readme_state : State := constructed 0%nat None readme.

(** The markup of the README with the [aria-hidden] attributes left out. *)
Definition readme_without_aria_hidden : Document :=
  (fun e => with_attributes (delete "aria-hidden" (attributes e)) e) <$> readme.

(** Two panels, and neither buttons nor a tab list. *)
Definition page_without_tablist : Document :=
  [ elem None "section" [] [] [];
    elem (Some 0%nat) "div" ["carousel-content"] [] width_300;
    elem (Some 0%nat) "div" ["carousel-content"] [] width_300 ].

(** Two panels and a tab list of two items, the second without its [pos]. *)
Definition page_empty_tab : Document :=
  [ elem None "section" [] [] [];
    elem (Some 0%nat) "div" ["carousel-content"] [("aria-hidden", "false")]
      width_300;
    elem (Some 0%nat) "div" ["carousel-content"] [("aria-hidden", "true")]
      width_300;
    elem (Some 0%nat) "ul" ["carousel-tablist"] [] [];
    elem (Some 3%nat) "li" [] [] [];
    elem (Some 4%nat) "div" ["pos"; "pos-active"] [] [];
    elem (Some 3%nat) "li" [] [] [] ].

(** A page as it is while it is not rendered, inside a [display: none]
    ancestor say: the computed width of every element is [auto]. *)
Definition not_rendered (d : Document) : Document :=
  (fun e => mkElement (parentNode e) (inHTMLDocument e) (localName e)
              (attributes e) (classList e) (style e)
              (<["width" := Keyword "auto"]> (computedStyle e))) <$> d.

(** A panel inside a panel, the inner one holding a link. *)
Definition page_nested_panels : Document :=
  [ elem None "section" [] [] [];
    elem (Some 0%nat) "div" ["carousel-content"] [] width_300;
    elem (Some 1%nat) "div" ["carousel-content"] [] width_300;
    elem (Some 2%nat) "a" [] [("href", "#")] [] ].

Definition options_without_tabs : option Options.t :=
  Some (Options.mk (Some false) None None None None).


(** * Notions for the rest of the controller *)

(** The store after the loop of the constructor over the windows: the window
    at position [i] gets the left offset [width × i]. *)
Definition laid_out (width : number) (windows : list Ref) (d : Document)
  : Document :=
  foldl (fun d i =>
           match windows !! i with
           | Some w =>
               setStyle w "left"
                 (Px (Number.mul width (Number.of_int (Z.of_nat i)))) d
           | None => d
           end)
        d (seq 0 (length windows)).

(** The callbacks that the constructor registers for a controller, latest
    first, in front of the ones the page already had. *)
Definition registered (c : Carousel) (ls : list (EventTarget * string * Handler))
  : list (EventTarget * string * Handler) :=
  ((if negb (disable_keyboard_navigation c)
    then [(OnWindow, "keydown", KeyDown)] else [])
   ++ (if allow_tabs c
       then rev (imap (fun i tab => (OnElement tab, "click", ClickTab i)) (tabs c))
       else [])
   ++ (if allow_navbuttons c
       then match (buttons c).1, (buttons c).2 with
            | Some p, Some n =>
                [(OnElement p, "click", ClickPrevious);
                 (OnElement n, "click", ClickNext)]
            | _, _ => []
            end
       else [])
   ++ ls)%list.

(** The fields that the constructor computes: what it resolves from the
    options, the width of the first window, and the bound of the index. *)
Definition constructed_object (c : Ref) (options : option Options.t)
    (d : Document) : Carousel :=
  let c0 := JSCarousel.configure options d (JSCarousel.initial c) in
  let windows := querySelectorAll d c JSCarousel.carousel_content in
  let c1 :=
    with_width
      (parseFloat (head windows ≫= fun w =>
                   d !! w ≫= fun e => computedStyle e !! "width")) c0 in
  with_max_index
    ((if allow_tabs c0 then Z.of_nat (length (tabs c0))
      else Z.of_nat (length windows)) - 1) c1.

(** The callbacks part of the constructor, lines 125 to 142. *)
Definition constructor_events (c : Carousel) : M unit :=
  (if allow_navbuttons c then JSCarousel._enable_navigation_buttons
   else mret tt);;
  (if allow_tabs c && truthy (tabs c) then JSCarousel._enable_tabs_buttons
   else mret tt);;
  (if negb (disable_keyboard_navigation c)
   then JSCarousel._enable_keyboard_navigation else mret tt);;
  (if allow_autonav c then setInterval AutoNav 1000 else mret tt).


(** ** More sample pages *)

(** One panel and a next button, without a previous button. *)
Definition page_next_only : Document :=
  [ elem None "section" [] [] [];
    elem (Some 0%nat) "div" ["carousel-content"] [] width_300;
    elem (Some 0%nat) "button" ["carousel-next"] [] [] ].

(** [{ navigations_buttons: true }] *)
Definition options_with_buttons : Options.t :=
  Options.mk None None (Some true) None None.

(** ** What a callback does to the state *)

(** The store [d1] differs from [d] by writes of the block of [active_panel]
    on the tabs [T] only: same inline styles; same tree, tags and classes,
    the class [pos-active] apart; and, of the attributes other than [class]
    and [style], the same but for [aria-selected] and [tabindex] on the tab
    items. *)
Definition tab_written (T : list Ref) (d d1 : Document) : Prop :=
  style <$> d1 = style <$> d
  ∧ skeleton <$> d1 = skeleton <$> d
  ∧ ∀ (i : Ref) (n : string),
      n ≠ "class" → n ≠ "style" →
      i ∉ T ∨ (n ≠ "aria-selected" ∧ n ≠ "tabindex") →
      attribute_at d1 i n = attribute_at d i n.

(** The fields of the controller other than the index and the delay. *)
Definition settings_of (c : Carousel) :=
  (width c, max_index c, config_of c).

(** The callbacks registered on the page are the same. *)
Definition same_callbacks (s s' : State) : Prop :=
  listeners (page s') = listeners (page s)
  ∧ intervals (page s') = intervals (page s).

(** The callback left the index where it was: it did not run, or it only
    counted the delay, or [active_panel] threw on the tabs. *)
Definition stays (s s' : State) : Prop :=
  settings_of (this s') = settings_of (this s)
  ∧ current_index (this s') = current_index (this s)
  ∧ same_callbacks s s'
  ∧ tab_written (tabs (this s)) (document (page s)) (document (page s')).

(** The callback navigated to [index]: [active_panel(index)] returned, the
    index was updated and the delay reset. *)
Definition moves_to (index : Z) (s s' : State) : Prop :=
  settings_of (this s') = settings_of (this s)
  ∧ current_index (this s') = index
  ∧ current_delay (this s') = 0
  ∧ same_callbacks s s'
  ∧ ∃ d1, tab_written (tabs (this s)) (document (page s)) d1
          ∧ document (page s')
            = move_document (this s) index d1.

(** The index that a callback may navigate to. *)
Definition target_of (c : Carousel) (h : Handler) (index : Z) : Prop :=
  match h with
  | ClickNext | AutoNav => index = next_index c
  | ClickPrevious => index = previous_index c
  | ClickTab i => index = Z.of_nat i
  | KeyDown => index = next_index c ∨ index = previous_index c
  end.

(** ** Sequences of callbacks *)

(** The browser fires the callbacks one after the other; each runs to its
    end, and one that throws does not stop the ones that follow. *)
Definition run_events
    (events : list (Handler * JSCarousel.KeyboardEvent * option Ref))
    (s : State) : State :=
  foldl (fun s ev => (JSCarousel.fire ev.1.1 ev.1.2 ev.2 s).2) s events.

(** The index is one of [0], ..., [max_index]. *)
Definition in_ring (c : Carousel) : Prop :=
  0 ≤ current_index c ≤ max_index c.

(** The panels of the controller, as [move] finds them. *)
Definition panels_of (s : State) : list Ref :=
  querySelectorAll (document (page s)) (container (this s))
    JSCarousel.carousel_content.

(** The strip is aligned on the index, for panels [z] pixels wide: the panel
    at position [k] has the left offset [z × (k − current_index)]. *)
Definition aligned (z : Z) (s : State) : Prop :=
  ∀ (k : nat) (w : Ref),
    panels_of s !! k = Some w →
    ∃ x, style_at (document (page s)) w "left" = Some (Px (Num x))
         ∧ Qeq x (inject_Z (z * (Z.of_nat k - current_index (this s)))).

(** The panel at the index is shown and every other panel is hidden. *)
Definition shown (s : State) : Prop :=
  ∀ (k : nat) (w : Ref),
    panels_of s !! k = Some w →
    attribute_at (document (page s)) w "aria-hidden"
    = Some (if Z.of_nat k =? current_index (this s) then "false" else "true").

(** A keydown of the left arrow, and some callbacks of the README page. *)
Definition arrow_left : JSCarousel.KeyboardEvent :=
  JSCarousel.mkKeyboardEvent "ArrowLeft" 37 false.

Definition readme_events
  : list (Handler * JSCarousel.KeyboardEvent * option Ref) :=
  [ (ClickNext, arrow_left, None);
    (ClickTab 2, arrow_left, None);
    (AutoNav, arrow_left, None);
    (KeyDown, arrow_left, Some 21%nat);
    (ClickPrevious, arrow_left, None) ].

(** The state [s] with the delay counter at [delay]. *)
Definition waiting (delay : Z) (s : State) : State :=
  mkState (with_current_delay delay (this s)) (page s).

(** The number of ticks of the timer that only count: ⌈autonav_delay / 1000⌉,
    and none for a delay below 0. *)
Definition counting_ticks (c : Carousel) : nat :=
  Z.to_nat ((autonav_delay c + 999) / 1000).

(** The two tests of the keydown listener on the key of the event. *)
Definition is_left (e : JSCarousel.KeyboardEvent) : bool :=
  String.eqb (JSCarousel.key e) "ArrowLeft" || (JSCarousel.keyCode e =? 37).

Definition is_right (e : JSCarousel.KeyboardEvent) : bool :=
  String.eqb (JSCarousel.key e) "ArrowRight" || (JSCarousel.keyCode e =? 39).

Definition is_up (e : JSCarousel.KeyboardEvent) : bool :=
  String.eqb (JSCarousel.key e) "ArrowUp" || (JSCarousel.keyCode e =? 38).

(** The index that an arrow key navigates to; the left arrow is tested
    first. *)
Definition arrow_target (e : JSCarousel.KeyboardEvent) (c : Carousel) : Z :=
  if is_left e then previous_index c else next_index c.

(** The focus is on a tab item of an object whose tabs are enabled. *)
Definition on_a_tab (c : Carousel) (activeElement : option Ref) : Prop :=
  allow_tabs c = true ∧ ∃ x, activeElement = Some x ∧ x ∈ tabs c.

(** The focus is on a child of a panel. *)
Definition on_a_panel_child (s : State) (activeElement : option Ref) : Prop :=
  ∃ x w, activeElement = Some x ∧ w ∈ panels_of s
         ∧ document (page s) !! x ≫= parentNode = Some w.

Definition arrow_right : JSCarousel.KeyboardEvent :=
  JSCarousel.mkKeyboardEvent "ArrowRight" 39 false.

Definition ctrl_arrow_up : JSCarousel.KeyboardEvent :=
  JSCarousel.mkKeyboardEvent "ArrowUp" 38 true.

(** One panel holding a link, and neither buttons nor a tab list. *)
Definition page_panel_link : Document :=
  [ elem None "section" [] [] [];
    elem (Some 0%nat) "div" ["carousel-content"] [] width_300;
    elem (Some 1%nat) "a" [] [("href", "#")] [] ].

(** The [aria-selected] of the element [tab] is the same in the two
    states. *)
Definition keeps_selected (tab : Ref) (s s' : State) : Prop :=
  attribute_at (document (page s')) tab "aria-selected"
  = attribute_at (document (page s)) tab "aria-selected".

(** The panels are as in [s]: the width, every inline style and every
    [aria-hidden] attribute. *)
Definition panels_frozen (s s' : State) : Prop :=
  width (this s') = width (this s)
  ∧ style <$> document (page s') = style <$> document (page s)
  ∧ ∀ i, attribute_at (document (page s')) i "aria-hidden"
         = attribute_at (document (page s)) i "aria-hidden".
(** * Properties *)

(** ** The focusability classifier *)

Module Import FocusFacts.
Import FocusableElement.







End FocusFacts.



Lemma positive_tabindex_not_0 (e : Element) :
  has_positive_tabindex e = true → attributes e !! "tabindex" ≠ Some "0".
Proof.
  unfold has_positive_tabindex. intros H Ha. rewrite Ha in H.
  cbn in H. discriminate.
Qed.

Lemma matches_join_with (d : Document) (i : Ref) (tags : list string)
    (extra : SimpleSelector) :
  existsb (matches d i) (FocusableElement.join_with tags extra) = true ↔
  ∃ e, d !! i = Some e ∧ (localName e ∈ tags ∨ matches_simple e extra = true).
Proof.
  unfold FocusableElement.join_with. rewrite existsb_app, orb_true_iff. split.
  - intros [H|H].
    + apply existsb_exists in H as (c & Hc & Hm).
      apply in_map_iff in Hc as (n & <- & Hn). cbn in Hm.
      unfold matches_at in Hm.
      destruct (d !! i) as [e|]; [|done]. exists e. split; [done|]. left.
      cbn in Hm. apply String.eqb_eq in Hm as ->. by apply list_elem_of_In.
    + cbn in H. rewrite orb_false_r in H. unfold matches_at in H.
      destruct (d !! i) as [e|]; [|done]. exists e. split; [done|]. by right.
  - intros (e & He & [Ht|Hx]).
    + left. apply existsb_exists. exists (Simple (TypeSel (localName e))).
      split.
      * apply in_map_iff. exists (localName e). split; [done|].
        by apply list_elem_of_In.
      * cbn. unfold matches_at. rewrite He. cbn. apply String.eqb_refl.
    + right. cbn. rewrite orb_false_r. unfold matches_at. by rewrite He.
Qed.

(** The elements the classifier returns: the descendants of the parent that
    one of the alternatives of the selector matches and that pass the
    rules. *)
Lemma getKeyboardFocusableElements_elem_of (h : FocusableElement.t)
    (d : Document) (w i : Ref) :
  i ∈ FocusableElement.getKeyboardFocusableElements h d w
  ↔ is_descendant d w i = true
    ∧ existsb (matches d i) (FocusableElement.focusableQuerySelector h) = true
    ∧ FocusableElement.isFocusable_at d i = true.
Proof.
  unfold FocusableElement.getKeyboardFocusableElements, querySelectorAll.
  rewrite !list_elem_of_filter, elem_of_seq, !Is_true_true, andb_true_iff.
  split; [tauto|]. intros (Hd & Hm & Hf). repeat split; try done; [lia|].
  unfold FocusableElement.isFocusable_at in Hf.
  destruct (d !! i) eqn:Hi; [|done]. apply lookup_lt_Some in Hi. lia.
Qed.

(** Every element the classifier returns was selected by its tag or by
    [tabindex="0"], and passes the rules. *)
Lemma getKeyboardFocusableElements_selected (d : Document) (parent i : Ref) :
  i ∈ FocusableElement.getKeyboardFocusableElements FocusableElement.new d parent ↔
  ∃ e, d !! i = Some e
       ∧ is_descendant d parent i = true
       ∧ FocusableElement.isFocusable e = true
       ∧ (localName e ∈ FocusableElement.defaultFocusableHTMLElements
                          FocusableElement.new
          ∨ attributes e !! "tabindex" = Some "0").
Proof.
  rewrite getKeyboardFocusableElements_elem_of.
  change (FocusableElement.focusableQuerySelector FocusableElement.new)
    with (FocusableElement.join_with
            (FocusableElement.defaultFocusableHTMLElements FocusableElement.new)
            (AttrSel "tabindex" "0")).
  rewrite matches_join_with. unfold FocusableElement.isFocusable_at. split.
  - intros (Hd & (e & He & Hsel) & Hf). exists e. rewrite He in Hf.
    repeat split; try done. destruct Hsel as [?|Ha]; [by left|right].
    cbn in Ha. by apply bool_decide_eq_true in Ha.
  - intros (e & He & Hd & Hf & Hsel). rewrite He. repeat split; try done.
    exists e. split; [done|]. destruct Hsel as [?|Ha]; [by left|right].
    cbn. by apply bool_decide_eq_true.
Qed.

(** C9, as the code has it: a positive [tabindex] neither selects an element
    nor excludes one.  An element whose [tabindex] is a positive number is
    returned exactly when it is a descendant of the parent, its tag is in the
    allowlist and it passes the rules. *)
Theorem positive_tabindex_only_by_tag (d : Document) (parent i : Ref)
    (e : Element) :
  d !! i = Some e →
  has_positive_tabindex e = true →
  i ∈ FocusableElement.getKeyboardFocusableElements FocusableElement.new d parent
  ↔ is_descendant d parent i = true
    ∧ localName e ∈ [ "a"; "button"; "input"; "textarea"; "select"; "summary" ]
    ∧ FocusableElement.isFocusable e = true.
Proof.
  intros He Hp. apply positive_tabindex_not_0 in Hp.
  rewrite getKeyboardFocusableElements_selected. split.
  - intros (e' & He' & Hd & Hf & Hs). rewrite He in He'. injection He' as <-.
    destruct Hs as [Hs|Hs]; [done|by destruct Hp].
  - intros (Hd & Ht & Hf). exists e. repeat split; try done. by left.
Qed.

Lemma positive_tabindex_only_by_tag_witness :
  1%nat ∈ FocusableElement.getKeyboardFocusableElements FocusableElement.new
            page_positive_tabindex 0%nat
  ↔ is_descendant page_positive_tabindex 0%nat 1%nat = true
    ∧ localName (elem (Some 0%nat) "button" [] [("tabindex", "3")] [])
        ∈ [ "a"; "button"; "input"; "textarea"; "select"; "summary" ]
    ∧ FocusableElement.isFocusable
        (elem (Some 0%nat) "button" [] [("tabindex", "3")] []) = true.
Proof.
  apply (positive_tabindex_only_by_tag page_positive_tabindex 0%nat 1%nat);
    [reflexivity | vm_compute; reflexivity].
Defined.

(** C9, as stated, fails: a button with [tabindex="3"] that passes the rules
    is returned. *)
Lemma positive_tabindex_returned :
  ¬ (∀ (d : Document) (parent i : Ref) (e : Element),
       i ∈ FocusableElement.getKeyboardFocusableElements
             FocusableElement.new d parent →
       d !! i = Some e →
       has_positive_tabindex e = false).
Proof.
  intros H.
  specialize (H page_positive_tabindex 0%nat 1%nat
                (elem (Some 0%nat) "button" [] [("tabindex", "3")] [])).
  assert (Hin : 1%nat ∈ FocusableElement.getKeyboardFocusableElements
                  FocusableElement.new page_positive_tabindex 0%nat)
    by (vm_compute; apply list_elem_of_here).
  specialize (H Hin eq_refl). vm_compute in H. discriminate.
Qed.

(** ** Reasoning on method bodies *)

Lemma bind_run {A B} (m : M A) (f : A -> M B) (s : State) :
  (m ≫= f) s =
    match m s with
    | (Normal a, s') => f a s'
    | (Throw msg, s') => (Throw msg, s')
    end.
Proof. reflexivity. Qed.

Lemma for_of_cons {A} (x : A) (l : list A) (body : A -> M unit) :
  for_of (x :: l) body = (body x ;; for_of l body).
Proof. reflexivity. Qed.

Section Stable.

Variable R : State -> State -> Prop.
Hypothesis R_refl : ∀ s, R s s.
Hypothesis R_trans : ∀ s1 s2 s3, R s1 s2 → R s2 s3 → R s1 s3.

Lemma stable_ret {A} (a : A) : stable R (mret a).
Proof. intros s. apply R_refl. Qed.

Lemma stable_throw {A} (msg : string) : stable R (@throw A msg).
Proof. intros s. apply R_refl. Qed.

Lemma stable_get_this : stable R get_this.
Proof. intros s. apply R_refl. Qed.

Lemma stable_get_document : stable R get_document.
Proof. intros s. apply R_refl. Qed.

Lemma stable_bind {A B} (m : M A) (f : A -> M B) :
  stable R m → (∀ a, stable R (f a)) → stable R (m ≫= f).
Proof.
  intros Hm Hf s. rewrite bind_run. specialize (Hm s).
  destruct (m s) as [[a|msg] s']; cbn in *; [|done].
  eapply R_trans; [exact Hm | apply Hf].
Qed.

Lemma stable_for_of {A} (l : list A) (body : A -> M unit) :
  (∀ x, stable R (body x)) → stable R (for_of l body).
Proof.
  intros Hb. induction l as [|x l IH]; [apply stable_ret|].
  rewrite for_of_cons. apply stable_bind; [apply Hb | intros _; apply IH].
Qed.

End Stable.

(** One step through a method body, for a goal [stable R m].  The argument
    closes the goals left at the writes. *)
Ltac stable_with refl trans prim :=
  repeat first
    [ prim
    | apply (stable_ret _ refl)
    | apply (stable_throw _ refl)
    | apply (stable_get_this _ refl)
    | apply (stable_get_document _ refl)
    | apply (stable_bind _ trans); [|intros ?]
    | apply (stable_for_of _ refl trans); intros ?
    | match goal with
      | |- stable _ (if ?b then _ else _) => destruct b
      | |- stable _ (match ?x with _ => _ end) => destruct x
      | |- stable _ (let _ := _ in _) => cbv zeta
      end ].

(** *** What [active_panel] and [move] leave alone: [this] *)

Lemma same_this_refl s : same_this s s.
Proof. reflexivity. Qed.

Lemma same_this_trans s1 s2 s3 :
  same_this s1 s2 → same_this s2 s3 → same_this s1 s3.
Proof. unfold same_this. congruence. Qed.

Lemma same_this_modify_document f : stable same_this (modify_document f).
Proof. by intros s. Qed.

Ltac same_this_tac :=
  stable_with same_this_refl same_this_trans
    ltac:(apply same_this_modify_document).

Lemma move_same_this (index : Z) : stable same_this (JSCarousel.move index).
Proof. unfold JSCarousel.move. same_this_tac. Qed.

Lemma active_panel_same_this (index : Z) :
  stable same_this (JSCarousel.active_panel index).
Proof.
  unfold JSCarousel.active_panel, JSCarousel.select_tab,
    JSCarousel.deselect_tab.
  same_this_tac.
Qed.

Lemma modify_after_active_panel (index : Z) (f : Carousel -> Carousel)
    (s : State) :
  (JSCarousel.active_panel index ;; modify_this f) s =
    match JSCarousel.active_panel index s with
    | (Normal _, s') => (Normal tt, mkState (f (this s)) (page s'))
    | (Throw msg, s') => (Throw msg, s')
    end.
Proof.
  rewrite bind_run. pose proof (active_panel_same_this index s) as H.
  destruct (JSCarousel.active_panel index s) as [[[]|msg] s']; [|done].
  cbn in H. unfold same_this in H. unfold modify_this. by rewrite H.
Qed.

Lemma next_run (s : State) :
  JSCarousel.next s =
    match JSCarousel.active_panel (next_index (this s)) s with
    | (Normal _, s') =>
        (Normal tt,
         mkState (with_current_index (next_index (this s)) (this s)) (page s'))
    | (Throw msg, s') => (Throw msg, s')
    end.
Proof.
  unfold JSCarousel.next, next_index. rewrite bind_run. cbn [get_this].
  destruct (current_index (this s) <? max_index (this s));
    by rewrite modify_after_active_panel.
Qed.

Lemma previous_run (s : State) :
  JSCarousel.previous s =
    match JSCarousel.active_panel (previous_index (this s)) s with
    | (Normal _, s') =>
        (Normal tt,
         mkState (with_current_index (previous_index (this s)) (this s))
                 (page s'))
    | (Throw msg, s') => (Throw msg, s')
    end.
Proof.
  unfold JSCarousel.previous, previous_index. rewrite bind_run. cbn [get_this].
  destruct (current_index (this s) >? 0);
    by rewrite modify_after_active_panel.
Qed.

Lemma on_click_tab_run (i : nat) (s : State) :
  JSCarousel.on_click_tab i s =
    match JSCarousel.active_panel (Z.of_nat i) s with
    | (Normal _, s') =>
        (Normal tt,
         mkState (with_current_delay 0 (with_current_index (Z.of_nat i) (this s')))
                 (page s'))
    | (Throw msg, s') => (Throw msg, s')
    end.
Proof.
  unfold JSCarousel.on_click_tab. rewrite bind_run.
  by destruct (JSCarousel.active_panel _ s) as [[[]|msg] s'].
Qed.

(** C10: [active_panel] does not write [current_index] (nor any other field
    of [this]), whether it returns or throws; after a direct call with another
    index the field still holds the old value.  The three callers write the
    field themselves, after the call has returned. *)
Theorem active_panel_keeps_current_index (index : Z) (s : State) :
  this (JSCarousel.active_panel index s).2 = this s
  ∧ current_index (this (JSCarousel.active_panel index s).2)
    = current_index (this s)
  ∧ (index ≠ current_index (this s) →
     current_index (this (JSCarousel.active_panel index s).2) ≠ index)
  ∧ (∀ s', JSCarousel.next s = (Normal tt, s') →
           current_index (this s') = next_index (this s))
  ∧ (∀ s', JSCarousel.previous s = (Normal tt, s') →
           current_index (this s') = previous_index (this s))
  ∧ (∀ i s', JSCarousel.on_click_tab i s = (Normal tt, s') →
             current_index (this s') = Z.of_nat i).
Proof.
  pose proof (active_panel_same_this index s) as H. unfold same_this in H.
  split; [exact H|]. split; [by rewrite H|]. split; [rewrite H; congruence|].
  clear H. split; [|split].
  - intros s'. rewrite next_run.
    destruct (JSCarousel.active_panel _ s) as [[[]|msg] s1];
      [by intros [= <-] | by intros [=]].
  - intros s'. rewrite previous_run.
    destruct (JSCarousel.active_panel _ s) as [[[]|msg] s1];
      [by intros [= <-] | by intros [=]].
  - intros i s'. rewrite on_click_tab_run.
    destruct (JSCarousel.active_panel _ s) as [[[]|msg] s1];
      [by intros [= <-] | by intros [=]].
Qed.

Lemma active_panel_keeps_current_index_witness :
  current_index (this (JSCarousel.active_panel 2 readme_state).2) = 0
  ∧ current_index (this (JSCarousel.active_panel 2 readme_state).2) ≠ 2.
Proof.
  destruct (active_panel_keeps_current_index 2 readme_state)
    as (_ & Hc & Hne & _).
  split; [rewrite Hc; vm_compute; reflexivity
         | apply Hne; vm_compute; discriminate].
Defined.

(** ** Writes to the store *)

Lemma fmap_alter_same {B} (g : Element -> B) (f : Element -> Element)
    (i : Ref) (d : Document) :
  (∀ e, g (f e) = g e) → g <$> alter f i d = g <$> d.
Proof.
  intros Hg. apply list_eq. intros j. rewrite !list_lookup_fmap.
  destruct (decide (i = j)) as [->|Hne].
  - rewrite list_lookup_alter_eq. destruct (d !! j); cbn; [by rewrite Hg|done].
  - by rewrite list_lookup_alter_ne.
Qed.

Lemma setStyle_attributes (i : Ref) (p : string) (v : CSSValue) (d : Document) :
  attributes <$> setStyle i p v d = attributes <$> d.
Proof.
  unfold setStyle. destruct (valid_value v); [|done]. by apply fmap_alter_same.
Qed.

(** ** The constructor *)

Lemma same_attributes_refl s : same_attributes s s.
Proof. reflexivity. Qed.

Lemma same_attributes_trans s1 s2 s3 :
  same_attributes s1 s2 → same_attributes s2 s3 → same_attributes s1 s3.
Proof. unfold same_attributes. congruence. Qed.

Lemma same_attributes_modify_this f : stable same_attributes (modify_this f).
Proof. by intros s. Qed.

Lemma same_attributes_addEventListener t ty h :
  stable same_attributes (addEventListener t ty h).
Proof. by intros s. Qed.

Lemma same_attributes_setInterval h ms :
  stable same_attributes (setInterval h ms).
Proof. by intros s. Qed.

Lemma same_attributes_setStyle i p v :
  stable same_attributes (modify_document (setStyle i p v)).
Proof. intros s. unfold same_attributes. cbn. apply setStyle_attributes. Qed.

(** The constructor writes none of the attributes that the field
    [attributes] holds. *)
Lemma constructor_same_attributes (options : option Options.t) :
  stable same_attributes (JSCarousel.constructor options).
Proof.
  unfold JSCarousel.constructor.
  stable_with same_attributes_refl same_attributes_trans
    ltac:(first [ apply same_attributes_modify_this
                | apply same_attributes_addEventListener
                | apply same_attributes_setInterval
                | apply same_attributes_setStyle ]).
Qed.

Lemma new_attributes (container : option Ref) (options : option Options.t)
    (p : Page) :
  attributes <$> document (JSCarousel.new container options p).2
  = attributes <$> document p.
Proof.
  unfold JSCarousel.new. destruct container as [c|]; [|done].
  pose proof (constructor_same_attributes options
                (mkState (JSCarousel.initial c) p)) as H.
  unfold same_attributes in H.
  by destruct (JSCarousel.constructor options _) as [[[]|msg] s'].
Qed.

Lemma aria_hidden_attributes (d d' : Document) (w : Ref) :
  attributes <$> d' = attributes <$> d →
  attribute_at d' w "aria-hidden" = attribute_at d w "aria-hidden".
Proof.
  intros H. apply (f_equal (fun l => l !! w)) in H.
  rewrite !list_lookup_fmap in H. unfold attribute_at, getAttribute.
  destruct (d' !! w), (d !! w); cbn in *; congruence.
Qed.

Lemma only_first_shown_attributes (d d' : Document) (panels : list Ref) :
  attributes <$> d' = attributes <$> d →
  only_first_shown d' panels ↔ only_first_shown d panels.
Proof.
  intros H.
  assert (Hg : ∀ w, attribute_at d' w "aria-hidden"
                    = attribute_at d w "aria-hidden").
  { intros w. by apply aria_hidden_attributes. }
  unfold only_first_shown. split; intros Ho k w Hk.
  - rewrite <- Hg. by apply Ho.
  - rewrite Hg. by apply Ho.
Qed.

(** C2, as the code has it: the constructor writes no [aria-hidden].  Every
    element has after construction the [aria-hidden] that the markup gave it,
    so the first panel is the only one shown after construction exactly when
    the markup says so. *)
Theorem constructor_keeps_aria_hidden (container : option Ref)
    (options : option Options.t) (p : Page) :
  (∀ i : Ref,
     attribute_at (document (JSCarousel.new container options p).2) i
       "aria-hidden"
     = attribute_at (document p) i "aria-hidden")
  ∧ ∀ panels : list Ref,
      only_first_shown (document (JSCarousel.new container options p).2) panels
      ↔ only_first_shown (document p) panels.
Proof.
  split.
  - intros i. by apply aria_hidden_attributes, new_attributes.
  - intros panels. apply only_first_shown_attributes, new_attributes.
Qed.

(** C2, as stated, fails: on the page of the README written without the
    [aria-hidden] attributes the constructor returns, and the first panel has
    no [aria-hidden="false"]. *)
Lemma constructor_leaves_panels_unmarked :
  ¬ (∀ (container : Ref) (options : option Options.t) (p : Page)
       (c : Carousel) (p' : Page),
       JSCarousel.new (Some container) options p = (Normal c, p') →
       only_first_shown (document p')
         (querySelectorAll (document p') container JSCarousel.carousel_content)).
Proof.
  intros H.
  pose proof (H 0%nat None (mkPage readme_without_aria_hidden [] [])) as H'.
  clear H.
  destruct (JSCarousel.new (Some 0%nat) None
              (mkPage readme_without_aria_hidden [] [])) as [r p'] eqn:E.
  vm_compute in E. injection E as <- <-.
  specialize (H' _ _ eq_refl 0%nat 3%nat).
  vm_compute in H'. specialize (H' eq_refl). discriminate.
Qed.

(** ** Queries on tags and classes *)

Lemma filter_not_pos_active_add (l : list string) :
  filter (fun x => x ≠ "pos-active") (l ++ ["pos-active"])%list
  = filter (fun x => x ≠ "pos-active") l.
Proof. rewrite filter_app. cbn. apply app_nil_r. Qed.

Lemma filter_not_pos_active_remove (l : list string) :
  filter (fun x => x ≠ "pos-active") (filter (fun x => x ≠ "pos-active") l)
  = filter (fun x => x ≠ "pos-active") l.
Proof. rewrite list_filter_filter. apply list_filter_iff. tauto. Qed.

Lemma setAttribute_skeleton (i : Ref) (n v : string) (d : Document) :
  skeleton <$> setAttribute i n v d = skeleton <$> d.
Proof. by apply fmap_alter_same. Qed.

Lemma setStyle_skeleton (i : Ref) (p : string) (v : CSSValue) (d : Document) :
  skeleton <$> setStyle i p v d = skeleton <$> d.
Proof.
  unfold setStyle. destruct (valid_value v); [|done]. by apply fmap_alter_same.
Qed.

Lemma classList_add_skeleton (i : Ref) (d : Document) :
  skeleton <$> classList_add i "pos-active" d = skeleton <$> d.
Proof.
  apply fmap_alter_same. intros e. case_bool_decide; [done|].
  unfold skeleton. cbn. by rewrite filter_not_pos_active_add.
Qed.

Lemma classList_remove_skeleton (i : Ref) (d : Document) :
  skeleton <$> classList_remove i "pos-active" d = skeleton <$> d.
Proof.
  apply fmap_alter_same. intros e.
  unfold skeleton. cbn. by rewrite filter_not_pos_active_remove.
Qed.

Section SameSkeleton.

Variables d d' : Document.
Hypothesis same : skeleton <$> d' = skeleton <$> d.

Lemma same_skeleton_length : length d' = length d.
Proof. by rewrite <- (length_fmap skeleton d'), same, length_fmap. Qed.

Lemma same_skeleton_lookup (i : Ref) :
  skeleton <$> d' !! i = skeleton <$> d !! i.
Proof. by rewrite <- !list_lookup_fmap, same. Qed.

Lemma same_skeleton_parent (i : Ref) :
  d' !! i ≫= parentNode = d !! i ≫= parentNode.
Proof.
  pose proof (same_skeleton_lookup i) as H.
  destruct (d' !! i) as [e'|], (d !! i) as [e|]; cbn in *; try done.
  by injection H as H _ _.
Qed.

Lemma same_skeleton_ancestors_upto (fuel : nat) (i : Ref) :
  ancestors_upto fuel d' i = ancestors_upto fuel d i.
Proof.
  revert i. induction fuel as [|f IH]; intros i; [done|].
  cbn [ancestors_upto]. rewrite same_skeleton_parent.
  destruct (d !! i ≫= parentNode); [by rewrite IH | done].
Qed.

Lemma same_skeleton_ancestors (i : Ref) : ancestors d' i = ancestors d i.
Proof.
  unfold ancestors. by rewrite same_skeleton_length, same_skeleton_ancestors_upto.
Qed.

Lemma same_skeleton_is_descendant (root i : Ref) :
  is_descendant d' root i = is_descendant d root i.
Proof. unfold is_descendant. by rewrite same_skeleton_ancestors. Qed.

Lemma same_skeleton_matches_at (i : Ref) (s : SimpleSelector) :
  structural s = true → matches_at d' i s = matches_at d i s.
Proof.
  intros Hs. unfold matches_at. pose proof (same_skeleton_lookup i) as H.
  destruct (d' !! i) as [e'|], (d !! i) as [e|]; cbn in H; try done.
  injection H as _ Hn Hc. destruct s as [n|c|n v]; cbn in *; [by rewrite Hn| |done].
  apply negb_true_iff, String.eqb_neq in Hs.
  apply bool_decide_ext.
  assert (Hf : ∀ l : list string,
             c ∈ l ↔ c ∈ filter (fun x => x ≠ "pos-active") l).
  { intros l. rewrite list_elem_of_filter. tauto. }
  by rewrite (Hf (classList e')), (Hf (classList e)), Hc.
Qed.

Lemma same_skeleton_matches (i : Ref) (c : ComplexSelector) :
  structural_selector [c] = true → matches d' i c = matches d i c.
Proof.
  cbn. rewrite andb_true_r. destruct c as [s|a s]; cbn [matches].
  - apply same_skeleton_matches_at.
  - intros [Ha Hs]%andb_true_iff.
    rewrite same_skeleton_matches_at, same_skeleton_ancestors by done.
    f_equal. induction (ancestors d i) as [|j l IH]; [done|].
    cbn. by rewrite IH, same_skeleton_matches_at.
Qed.

Lemma same_skeleton_querySelectorAll (root : Ref) (sel : Selector) :
  structural_selector sel = true →
  querySelectorAll d' root sel = querySelectorAll d root sel.
Proof.
  intros Hs. unfold querySelectorAll. rewrite same_skeleton_length.
  apply list_filter_iff. intros i. rewrite same_skeleton_is_descendant.
  assert (existsb (matches d' i) sel = existsb (matches d i) sel) as ->; [|done].
  induction sel as [|c sel IH]; [done|]. cbn in Hs.
  apply andb_true_iff in Hs as [Hc Hs]. cbn. rewrite IH by done.
  f_equal. apply same_skeleton_matches. cbn. by rewrite Hc.
Qed.

Lemma same_skeleton_querySelector (root : Ref) (sel : Selector) :
  structural_selector sel = true →
  querySelector d' root sel = querySelector d root sel.
Proof.
  intros Hs. unfold querySelector. by rewrite same_skeleton_querySelectorAll.
Qed.

End SameSkeleton.

(** ** The run of the constructor *)

(** A loop over the positions of a list, writing the store at each item,
    returns; it leaves [this] and the registered callbacks as they were. *)
Lemma for_of_positions_run {A} (l : list A) (f : nat -> A -> Document -> Document)
    (ks : list nat) (s : State) :
  (∀ k, k ∈ ks → is_Some (l !! k)) →
  ∃ d', for_of ks (fun i =>
          match l !! i with
          | Some w => modify_document (f i w)
          | None => throw "TypeError"
          end) s
        = (Normal tt,
           mkState (this s)
             (mkPage d' (listeners (page s)) (intervals (page s)))).
Proof.
  revert s. induction ks as [|k ks IH]; intros s Hk.
  - exists (document (page s)). by destruct s as [c []].
  - rewrite for_of_cons, bind_run.
    destruct (Hk k) as [w Hw]; [apply list_elem_of_here|]. rewrite Hw.
    cbn [modify_document].
    edestruct (IH (mkState (this s)
                 (mkPage (f k w (document (page s))) (listeners (page s))
                         (intervals (page s))))) as [d' ->].
    + intros j Hj. apply Hk. by apply list_elem_of_further.
    + by exists d'.
Qed.

Lemma positions_in_range {A} (l : list A) (k : nat) :
  k ∈ seq 0 (length l) → is_Some (l !! k).
Proof. rewrite elem_of_seq. intros [_ H]. apply lookup_lt_is_Some. lia. Qed.

Lemma for_of_listeners_run {A} (l : list A) (f : nat -> A -> EventTarget * string * Handler)
    (ks : list nat) (s : State) :
  (∀ k, k ∈ ks → is_Some (l !! k)) →
  ∃ ls, for_of ks (fun i =>
          match l !! i with
          | Some w => addEventListener (f i w).1.1 (f i w).1.2 (f i w).2
          | None => throw "TypeError"
          end) s
        = (Normal tt,
           mkState (this s)
             (mkPage (document (page s)) ls (intervals (page s)))).
Proof.
  revert s. induction ks as [|k ks IH]; intros s Hk.
  - exists (listeners (page s)). by destruct s as [c []].
  - rewrite for_of_cons, bind_run.
    destruct (Hk k) as [w Hw]; [apply list_elem_of_here|]. rewrite Hw.
    cbn [addEventListener].
    edestruct (IH (mkState (this s)
                 (mkPage (document (page s))
                    (((f k w).1.1, (f k w).1.2, (f k w).2) :: listeners (page s))
                    (intervals (page s))))) as [ls ->].
    + intros j Hj. apply Hk. by apply list_elem_of_further.
    + by exists ls.
Qed.

Lemma _enable_tabs_buttons_run (s : State) :
  ∃ ls, JSCarousel._enable_tabs_buttons s
        = (Normal tt,
           mkState (this s) (mkPage (document (page s)) ls (intervals (page s)))).
Proof.
  unfold JSCarousel._enable_tabs_buttons. rewrite bind_run. cbn [get_this].
  destruct (allow_tabs (this s) && truthy (tabs (this s))).
  - apply (for_of_listeners_run (tabs (this s))
             (fun i tab => (OnElement tab, "click", ClickTab i))).
    apply positions_in_range.
  - exists (listeners (page s)). by destruct s as [c []].
Qed.

Lemma _enable_navigation_buttons_run (s : State) :
  allow_navbuttons (this s) = true →
  ∃ ls, JSCarousel._enable_navigation_buttons s
        = (match (buttons (this s)).2, (buttons (this s)).1 with
           | None, _ => Throw "There is no next button."
           | Some _, None => Throw "There is no previous button."
           | Some _, Some _ => Normal tt
           end,
           mkState (this s) (mkPage (document (page s)) ls (intervals (page s)))).
Proof.
  intros Ha. unfold JSCarousel._enable_navigation_buttons.
  rewrite bind_run. cbn [get_this]. rewrite Ha.
  destruct s as [c [d ls its]]. cbn [this page document listeners intervals].
  destruct (buttons c) as [[p|] [n|]]; cbn; eexists; reflexivity.
Qed.

Lemma constructor_tail_run (c1 : Carousel) (s : State) :
  config_of (this s) = config_of c1 →
  ∃ s', ((if allow_tabs c1 && truthy (tabs c1)
          then JSCarousel._enable_tabs_buttons else mret tt);;
         (if negb (disable_keyboard_navigation c1)
          then JSCarousel._enable_keyboard_navigation else mret tt);;
         (if allow_autonav c1 then setInterval AutoNav 1000 else mret tt)) s
        = (Normal tt, s')
        ∧ this s' = this s.
Proof.
  intros Hc. rewrite bind_run.
  assert (∃ s1, (if allow_tabs c1 && truthy (tabs c1)
                 then JSCarousel._enable_tabs_buttons else mret tt) s
                = (Normal tt, s1) ∧ this s1 = this s) as (s1 & -> & H1).
  { destruct (allow_tabs c1 && truthy (tabs c1)); [|by eexists].
    destruct (_enable_tabs_buttons_run s) as [ls ->]. by eexists. }
  rewrite bind_run.
  destruct (negb (disable_keyboard_navigation c1)), (allow_autonav c1);
    cbn; eexists; split; try reflexivity; done.
Qed.

Lemma constructor_result (c : Ref) (options : option Options.t) (p : Page) :
  ∃ s', JSCarousel.constructor options (mkState (JSCarousel.initial c) p)
        = (match construction_error (Some c) options (document p) with
           | Some msg => Throw msg
           | None => Normal tt
           end, s')
        ∧ config_of (this s')
          = config_of (JSCarousel.configure options (document p)
                         (JSCarousel.initial c)).
Proof.
  unfold JSCarousel.constructor, construction_error.
  rewrite bind_run. cbn [get_document]. rewrite bind_run.
  cbn [modify_this this page]. rewrite bind_run. cbn [get_this this].
  set (d := document p).
  set (c0 := JSCarousel.configure options d (JSCarousel.initial c)).
  change (container c0) with c.
  rewrite bind_run.
  destruct (querySelector d c JSCarousel.carousel_content) as [w|];
    [|by eexists].
  cbn [modify_this this page]. rewrite bind_run. cbn [get_this this].
  set (c1 := with_width _ c0). change (container c1) with c.
  set (windows := querySelectorAll d c JSCarousel.carousel_content).
  rewrite bind_run. cbn [truthy].
  destruct (for_of_positions_run windows
              (fun i w0 => setStyle w0 "left"
                 (Px (Number.mul (width c1) (Number.of_int (Z.of_nat i)))))
              (seq 0 (length windows)) (mkState c1 p)
              (positions_in_range windows)) as [d' ->].
  cbn [this page listeners intervals].
  rewrite bind_run.
  match goal with
  | |- context [(if ?b then modify_this (with_max_index ?a1)
                 else modify_this (with_max_index ?a2)) ?s] =>
      replace ((if b then modify_this (with_max_index a1)
                else modify_this (with_max_index a2)) s)
        with (modify_this (with_max_index (if b then a1 else a2)) s)
        by (by destruct b);
      set (m := if b then a1 else a2)
  end.
  cbn [modify_this this page].
  change (allow_navbuttons c1) with (allow_navbuttons c0).
  rewrite bind_run.
  destruct (allow_navbuttons c0) eqn:Hn.
  - edestruct (_enable_navigation_buttons_run
                 (mkState (with_max_index m c1)
                    (mkPage d' (listeners p) (intervals p)))) as [ls ->];
      [exact Hn|].
    cbn [this buttons with_max_index].
    change (buttons c1) with (buttons c0).
    destruct (buttons c0).2; [|by eexists].
    destruct (buttons c0).1; [|by eexists].
    edestruct (constructor_tail_run c1) as (s' & -> & Hs');
      [|by eexists; split; [reflexivity|rewrite Hs']].
    done.
  - cbn [mret M_ret].
    edestruct (constructor_tail_run c1) as (s' & -> & Hs');
      [|by eexists; split; [reflexivity|rewrite Hs']].
    done.
Qed.

(** ** The panel transition *)

Lemma for_of_modify_document {A} (l : list A) (f : A -> Document -> Document)
    (s : State) :
  for_of l (fun x => modify_document (f x)) s
  = (Normal tt,
     mkState (this s)
       (mkPage (foldl (fun d x => f x d) (document (page s)) l)
               (listeners (page s)) (intervals (page s)))).
Proof.
  revert s. induction l as [|x l IH]; intros s.
  - by destruct s as [c []].
  - rewrite for_of_cons, bind_run. cbn [modify_document]. by rewrite IH.
Qed.

(** [move] always returns; it writes the store and nothing else. *)
Lemma move_run (index : Z) (s : State) :
  JSCarousel.move index s
  = (Normal tt,
     mkState (this s)
       (mkPage (move_document (this s) index (document (page s)))
               (listeners (page s)) (intervals (page s)))).
Proof.
  unfold JSCarousel.move, move_document. rewrite bind_run. cbn [get_this].
  rewrite bind_run. cbn [get_document].
  destruct (Number.strict_neq_zero _).
  - by rewrite for_of_modify_document.
  - by destruct s as [c []].
Qed.

Lemma foldl_setAttribute_skeleton (n v : string) (l : list Ref) (d : Document) :
  skeleton <$> foldl (fun d x => setAttribute x n v d) d l = skeleton <$> d.
Proof.
  revert d. induction l as [|x l IH]; intros d; [done|].
  cbn. by rewrite IH, setAttribute_skeleton.
Qed.

Lemma hide_window_skeleton (w : Ref) (d : Document) :
  skeleton <$> JSCarousel.hide_window w d = skeleton <$> d.
Proof.
  unfold JSCarousel.hide_window. cbn [truthy].
  by rewrite foldl_setAttribute_skeleton, setAttribute_skeleton.
Qed.

Lemma show_window_skeleton (w : Ref) (d : Document) :
  skeleton <$> JSCarousel.show_window w d = skeleton <$> d.
Proof.
  unfold JSCarousel.show_window. cbn [truthy].
  by rewrite foldl_setAttribute_skeleton, setAttribute_skeleton.
Qed.

Lemma move_window_skeleton (dist : number) (t : option Ref) (w : Ref)
    (d : Document) :
  skeleton <$> JSCarousel.move_window dist t w d = skeleton <$> d.
Proof.
  unfold JSCarousel.move_window.
  destruct (negb _);
    by rewrite ?hide_window_skeleton, ?show_window_skeleton, setStyle_skeleton.
Qed.

Lemma foldl_move_window_skeleton (dist : number) (t : option Ref)
    (l : list Ref) (d : Document) :
  skeleton <$> foldl (fun d w => JSCarousel.move_window dist t w d) d l
  = skeleton <$> d.
Proof.
  revert d. induction l as [|x l IH]; intros d; [done|].
  cbn. by rewrite IH, move_window_skeleton.
Qed.

Lemma move_document_skeleton (c : Carousel) (index : Z) (d : Document) :
  skeleton <$> move_document c index d = skeleton <$> d.
Proof.
  unfold move_document. destruct (Number.strict_neq_zero _); [|done].
  apply foldl_move_window_skeleton.
Qed.

(** *** What navigation leaves alone: tags, classes and the tree *)

Lemma same_structure_refl s : same_structure s s.
Proof. reflexivity. Qed.

Lemma same_structure_trans s1 s2 s3 :
  same_structure s1 s2 → same_structure s2 s3 → same_structure s1 s3.
Proof. unfold same_structure. congruence. Qed.

Lemma same_structure_modify_this f : stable same_structure (modify_this f).
Proof. by intros s. Qed.

Lemma same_structure_modify_document f :
  (∀ d, skeleton <$> f d = skeleton <$> d) →
  stable same_structure (modify_document f).
Proof. intros H s. unfold same_structure. cbn. apply H. Qed.

Lemma same_structure_move (index : Z) :
  stable same_structure (JSCarousel.move index).
Proof.
  intros s. rewrite move_run. unfold same_structure. cbn.
  apply move_document_skeleton.
Qed.

Ltac same_structure_tac :=
  stable_with same_structure_refl same_structure_trans
    ltac:(first
      [ apply same_structure_move
      | apply same_structure_modify_this
      | apply same_structure_modify_document; intros ?;
        first [ apply setAttribute_skeleton | apply classList_add_skeleton
              | apply classList_remove_skeleton ] ]).

Lemma same_structure_active_panel (index : Z) :
  stable same_structure (JSCarousel.active_panel index).
Proof.
  unfold JSCarousel.active_panel, JSCarousel.select_tab,
    JSCarousel.deselect_tab.
  same_structure_tac.
Qed.

(** ** When [active_panel] throws *)

Ltac run_binds :=
  repeat (rewrite bind_run;
          cbn [modify_document get_document get_this this page document
               listeners intervals]).

Lemma forallb_pointwise {A} (f g : A -> bool) (l : list A) :
  (∀ x, f x = g x) → forallb f l = forallb g l.
Proof. intros H. induction l as [|x l IH]; [done|]. cbn. by rewrite H, IH. Qed.

Lemma item_elem_of {A} (l : list A) (index : Z) (x : A) :
  item l index = Some x → x ∈ l.
Proof.
  unfold item. destruct (index <? 0); [done|].
  intros H. apply list_elem_of_lookup. eauto.
Qed.

(** The loop of [active_panel] over the other tabs: it returns when each of
    them holds a [pos], and throws at the first that does not. *)
Lemma tabs_loop_run (tab : Ref) (d0 : Document) (l : list Ref) (s : State) :
  skeleton <$> document (page s) = skeleton <$> d0 →
  ∃ s',
    for_of l (JSCarousel.deselect_tab tab) s
    = (if forallb (fun t => bool_decide (t = tab)
                           || bool_decide (is_Some (querySelector d0 t JSCarousel.pos))) l
       then Normal tt else Throw JSCarousel.empty_tab_message, s')
    ∧ skeleton <$> document (page s') = skeleton <$> d0.
Proof.
  revert s. induction l as [|t l IH]; intros s Hs.
  - exists s. by split.
  - rewrite for_of_cons, bind_run. cbn [forallb].
    unfold JSCarousel.deselect_tab at 1.
    case_bool_decide as Ht.
    + cbn [mret M_ret orb andb]. by apply IH.
    + cbn [orb]. run_binds.
      match goal with
      | |- context [querySelector ?x t JSCarousel.pos] =>
          lazymatch x with d0 => fail | _ => set (d2 := x) end
      end.
      assert (Hd2 : skeleton <$> d2 = skeleton <$> d0).
      { subst d2. by rewrite !setAttribute_skeleton. }
      rewrite (same_skeleton_querySelector d0 d2 Hd2) by done.
      destruct (querySelector d0 t JSCarousel.pos) as [t_pos|].
      * cbn [modify_document this page document listeners intervals].
        rewrite bool_decide_eq_true_2 by done. cbn [andb].
        apply IH. cbn. by rewrite classList_remove_skeleton.
      * rewrite bool_decide_eq_false_2 by (by intros [? ?]). cbn [andb].
        eexists. split; [reflexivity|]. done.
Qed.

Lemma active_panel_result (index : Z) (s : State) :
  (JSCarousel.active_panel index s).1 =
    match item (tabs (this s)) index with
    | Some _ =>
        if tabs_well_formed (this s) (document (page s))
        then Normal tt else Throw JSCarousel.empty_tab_message
    | None => Normal tt
    end.
Proof.
  unfold JSCarousel.active_panel, JSCarousel.select_tab.
  rewrite bind_run. cbn [get_this truthy]. rewrite bind_run.
  destruct (item (tabs (this s)) index) as [tab|] eqn:Hi.
  2:{ cbn [mret M_ret]. by rewrite move_run. }
  run_binds.
  set (d := document (page s)).
  match goal with
  | |- context [querySelector ?x tab JSCarousel.pos] => set (d2 := x)
  end.
  assert (Hd2 : skeleton <$> d2 = skeleton <$> d).
  { subst d2. by rewrite !setAttribute_skeleton. }
  rewrite (same_skeleton_querySelector d d2 Hd2) by done.
  unfold tabs_well_formed.
  destruct (querySelector d tab JSCarousel.pos) as [pos_|] eqn:Hp.
  - rewrite bind_run.
    match goal with
    | |- context [(if negb ?b then ?x else ?y) ?st] =>
        set (s3 := (if negb b then x else y) st)
    end.
    assert (∃ s3', s3 = (Normal tt, s3')
                   ∧ skeleton <$> document (page s3') = skeleton <$> d)
      as (s3' & -> & H3).
    { subst s3. destruct (negb _); eexists; (split; [reflexivity|]); [|done].
      cbn. by rewrite classList_add_skeleton. }
    destruct (tabs_loop_run tab d (tabs (this s)) s3' H3) as (s4 & -> & H4).
    assert (forallb (fun t => bool_decide (t = tab)
                       || bool_decide (is_Some (querySelector d t JSCarousel.pos)))
              (tabs (this s))
            = forallb (fun t =>
                bool_decide (is_Some (querySelector d t JSCarousel.pos)))
              (tabs (this s))) as ->.
    { apply forallb_pointwise. intros t. case_bool_decide as Ht; [|done].
      subst t. rewrite Hp. by rewrite bool_decide_eq_true_2. }
    destruct (forallb _ _); [|done]. by rewrite move_run.
  - assert (forallb (fun t =>
                bool_decide (is_Some (querySelector d t JSCarousel.pos)))
              (tabs (this s)) = false) as ->; [|done].
    apply not_true_is_false. rewrite forallb_forall. intros H.
    apply item_elem_of, list_elem_of_In, H in Hi. rewrite Hp in Hi.
    apply bool_decide_eq_true in Hi. by destruct Hi.
Qed.

(** ** The resolved options and the construction errors *)

Lemma configure_allow_tabs (options : option Options.t) (d : Document)
    (c : Carousel) :
  allow_tabs (JSCarousel.configure options d c)
  = match options ≫= Options.tabs with
    | Some v => v
    | None => true
    end.
Proof. by destruct options as [[[] ? ? ? ?]|]. Qed.

Lemma configure_allow_navbuttons (options : option Options.t) (d : Document)
    (c : Carousel) :
  allow_navbuttons (JSCarousel.configure options d c)
  = match options ≫= Options.navigations_buttons with
    | Some v => v
    | None =>
        bool_decide (querySelector d (container c) JSCarousel.carousel_prev ≠ None)
        && bool_decide (querySelector d (container c) JSCarousel.carousel_next ≠ None)
    end.
Proof. by destruct options as [[? ? [] ? ?]|]. Qed.

Lemma configure_buttons (options : option Options.t) (d : Document)
    (c : Carousel) :
  buttons (JSCarousel.configure options d c)
  = (querySelector d (container c) JSCarousel.carousel_prev,
     querySelector d (container c) JSCarousel.carousel_next).
Proof. done. Qed.

Lemma configure_tabs (options : option Options.t) (d : Document)
    (c : Carousel) :
  tabs (JSCarousel.configure options d c)
  = querySelectorAll d (container c) JSCarousel.carousel_tablist_li.
Proof. done. Qed.

Lemma new_throws (container : option Ref) (options : option Options.t)
    (p : Page) (msg : string) :
  construction_error container options (document p) = Some msg →
  (JSCarousel.new container options p).1 = Throw msg.
Proof.
  unfold JSCarousel.new. destruct container as [c|].
  - destruct (constructor_result c options p) as (s' & -> & _).
    by intros ->.
  - cbn. by intros [= <-].
Qed.

Lemma new_returns (c : Ref) (options : option Options.t) (p : Page) :
  construction_error (Some c) options (document p) = None →
  ∃ car p',
    JSCarousel.new (Some c) options p = (Normal car, p')
    ∧ config_of car
      = config_of (JSCarousel.configure options (document p)
                     (JSCarousel.initial c)).
Proof.
  unfold JSCarousel.new.
  destruct (constructor_result c options p) as (s' & -> & Hc).
  intros ->. by eexists _, _.
Qed.

Lemma querySelector_None (d : Document) (root : Ref) (sel : Selector) :
  querySelector d root sel = None ↔ querySelectorAll d root sel = [].
Proof. unfold querySelector. by destruct (querySelectorAll d root sel). Qed.

Lemma construction_error_Some (container : option Ref)
    (options : option Options.t) (d : Document) :
  is_Some (construction_error container options d) ↔
    container = None
    ∨ ∃ c, container = Some c
           ∧ (querySelectorAll d c JSCarousel.carousel_content = []
              ∨ (options ≫= Options.navigations_buttons = Some true
                 ∧ (querySelector d c JSCarousel.carousel_prev = None
                    ∨ querySelector d c JSCarousel.carousel_next = None))).
Proof.
  unfold construction_error. destruct container as [c|].
  2:{ split; [by left | by eexists]. }
  rewrite configure_allow_navbuttons, configure_buttons.
  change (container (JSCarousel.initial c)) with c. cbn [fst snd].
  setoid_rewrite <- querySelector_None.
  destruct (querySelector d c JSCarousel.carousel_content) as [w|] eqn:Hw;
    destruct (querySelector d c JSCarousel.carousel_prev) as [pr|] eqn:Hp;
    destruct (querySelector d c JSCarousel.carousel_next) as [nx|] eqn:Hn;
    destruct (options ≫= Options.navigations_buttons) as [[]|]; cbn;
    (split;
     [ intros H;
       first [ by destruct H
             | right; exists c; split; [done|];
               rewrite ?Hw, ?Hp, ?Hn; intuition congruence ]
     | intros [?|(c' & [= <-] & H)]; [done|];
       rewrite ?Hw, ?Hp, ?Hn in H; first [by eexists | intuition congruence] ]).
Qed.

Lemma same_structure_addEventListener t ty h :
  stable same_structure (addEventListener t ty h).
Proof. by intros s. Qed.

Lemma same_structure_setInterval h ms :
  stable same_structure (setInterval h ms).
Proof. by intros s. Qed.

(** The constructor writes left offsets only: tags, classes and the tree are
    as the markup has them. *)
Lemma constructor_same_structure (options : option Options.t) :
  stable same_structure (JSCarousel.constructor options).
Proof.
  unfold JSCarousel.constructor.
  stable_with same_structure_refl same_structure_trans
    ltac:(first [ apply same_structure_modify_this
                | apply same_structure_addEventListener
                | apply same_structure_setInterval
                | apply same_structure_modify_document; intros ?;
                  apply setStyle_skeleton ]).
Qed.

Lemma new_skeleton (container : option Ref) (options : option Options.t)
    (p : Page) :
  skeleton <$> document (JSCarousel.new container options p).2
  = skeleton <$> document p.
Proof.
  unfold JSCarousel.new. destruct container as [c|]; [|done].
  pose proof (constructor_same_structure options
                (mkState (JSCarousel.initial c) p)) as H.
  unfold same_structure in H.
  by destruct (JSCarousel.constructor options _) as [[[]|msg] s'].
Qed.

Lemma tabs_well_formed_skeleton (c : Carousel) (d d' : Document) :
  skeleton <$> d' = skeleton <$> d →
  tabs_well_formed c d' = tabs_well_formed c d.
Proof.
  intros H. unfold tabs_well_formed. apply forallb_pointwise. intros t.
  by rewrite (same_skeleton_querySelector d d' H).
Qed.

Lemma tabs_well_formed_false (c : Carousel) (d : Document) (t : Ref) :
  t ∈ tabs c → querySelector d t JSCarousel.pos = None →
  tabs_well_formed c d = false.
Proof.
  intros Ht Hq. apply not_true_is_false. unfold tabs_well_formed.
  rewrite forallb_forall. intros H. apply list_elem_of_In, H in Ht.
  rewrite Hq in Ht. apply bool_decide_eq_true in Ht. by destruct Ht.
Qed.

Lemma item_in_range {A} (l : list A) (index : Z) :
  0 ≤ index < Z.of_nat (length l) → is_Some (item l index).
Proof.
  intros H. unfold item. destruct (Z.ltb_spec index 0); [lia|].
  apply lookup_lt_is_Some. lia.
Qed.

(** C8, as the code has it: the constructor throws exactly for a missing
    container, for a page without a panel, and for a missing next or previous
    button when the options ask for the buttons.  A tab item without its
    [pos] is not looked at by the constructor; the error comes from
    [active_panel], on every call with an index inside the tab list. *)
Theorem construction_errors (container : option Ref)
    (options : option Options.t) (p : Page) :
  (is_throw (JSCarousel.new container options p).1 = true ↔
     container = None
     ∨ ∃ c, container = Some c
            ∧ (querySelectorAll (document p) c JSCarousel.carousel_content = []
               ∨ (options ≫= Options.navigations_buttons = Some true
                  ∧ (querySelector (document p) c JSCarousel.carousel_prev = None
                     ∨ querySelector (document p) c JSCarousel.carousel_next
                       = None))))
  ∧ (∀ (c : Ref) (car : Carousel) (p' : Page) (t : Ref) (index : Z),
       container = Some c →
       JSCarousel.new container options p = (Normal car, p') →
       t ∈ querySelectorAll (document p) c JSCarousel.carousel_tablist_li →
       querySelector (document p) t JSCarousel.pos = None →
       0 ≤ index < Z.of_nat (length (tabs car)) →
       (JSCarousel.active_panel index (mkState car p')).1
       = Throw JSCarousel.empty_tab_message).
Proof.
  split.
  - rewrite <- construction_error_Some.
    destruct (construction_error container options (document p)) as [msg|] eqn:E.
    + rewrite (new_throws _ _ _ _ E). split; [by eexists | done].
    + split; [|by intros [? ?]].
      destruct container as [c|]; [|done].
      destruct (new_returns c options p E) as (car & p' & -> & _). done.
  - intros c car p' t index -> Hnew Ht Hq Hi.
    destruct (construction_error (Some c) options (document p)) as [msg|] eqn:E.
    { apply new_throws in E. by rewrite Hnew in E. }
    destruct (new_returns c options p E) as (car' & p'' & Hnew' & Hc).
    rewrite Hnew in Hnew'. injection Hnew' as <- <-.
    assert (Htabs : tabs car
                    = querySelectorAll (document p) c
                        JSCarousel.carousel_tablist_li).
    { unfold config_of in Hc. by injection Hc as _ -> _ _ _ _ _ _. }
    rewrite active_panel_result. cbn [this page].
    destruct (item_in_range (tabs car) index Hi) as [tab ->].
    pose proof (new_skeleton (Some c) options p) as Hs. rewrite Hnew in Hs.
    cbn in Hs. rewrite (tabs_well_formed_skeleton car _ _ Hs).
    rewrite (tabs_well_formed_false car (document p) t); [done| |done].
    by rewrite Htabs.
Qed.

Lemma construction_errors_witness :
  (JSCarousel.active_panel 0
     (mkState (this (constructed 0%nat None page_empty_tab))
              (page (constructed 0%nat None page_empty_tab)))).1
  = Throw JSCarousel.empty_tab_message.
Proof.
  destruct (construction_errors (Some 0%nat) None (mkPage page_empty_tab [] []))
    as [_ H].
  apply (H 0%nat _ _ 6%nat 0).
  - reflexivity.
  - vm_compute. reflexivity.
  - vm_compute. apply list_elem_of_further, list_elem_of_here.
  - vm_compute. reflexivity.
  - vm_compute. split; [discriminate | reflexivity].
Defined.

(** C8, as stated, fails for the tab markup: a page whose second tab item has
    no [pos] is constructed without an error. *)
Lemma constructor_accepts_empty_tab :
  ¬ (∀ (c : Ref) (options : option Options.t) (p : Page) (t : Ref),
       t ∈ querySelectorAll (document p) c JSCarousel.carousel_tablist_li →
       querySelector (document p) t JSCarousel.pos = None →
       is_throw (JSCarousel.new (Some c) options p).1 = true).
Proof.
  intros H.
  specialize (H 0%nat None (mkPage page_empty_tab [] []) 6%nat).
  assert (H1 : 6%nat ∈ querySelectorAll page_empty_tab 0%nat
                          JSCarousel.carousel_tablist_li)
    by (vm_compute; apply list_elem_of_further, list_elem_of_here).
  specialize (H H1 eq_refl). vm_compute in H. discriminate.
Qed.

(** The defaults of the two options as the code resolves them: the tabs are
    enabled whatever the page holds; the buttons are enabled when both are in
    the container; a value given by the caller is taken as it is. *)
Lemma resolved_defaults (c : Ref) (options : option Options.t) (p : Page)
    (car : Carousel) (p' : Page) :
  JSCarousel.new (Some c) options p = (Normal car, p') →
  allow_tabs car
  = match options ≫= Options.tabs with
    | Some v => v
    | None => true
    end
  ∧ allow_navbuttons car
    = match options ≫= Options.navigations_buttons with
      | Some v => v
      | None =>
          bool_decide (querySelector (document p) c JSCarousel.carousel_prev ≠ None)
          && bool_decide (querySelector (document p) c JSCarousel.carousel_next
                          ≠ None)
      end.
Proof.
  intros Hnew.
  destruct (construction_error (Some c) options (document p)) as [msg|] eqn:E.
  { apply new_throws in E. by rewrite Hnew in E. }
  destruct (new_returns c options p E) as (car' & p'' & Hnew' & Hc).
  rewrite Hnew in Hnew'. injection Hnew' as <- <-.
  unfold config_of in Hc. injection Hc as _ _ _ Ht _ Hn _ _.
  rewrite Ht, Hn.
  split;
    [ apply (configure_allow_tabs options (document p) (JSCarousel.initial c))
    | apply (configure_allow_navbuttons options (document p)
               (JSCarousel.initial c)) ].
Qed.

(** C4: on a page without a tab list, and with no option given, the
    constructor returns a controller whose tabs are enabled.  Its tab list is
    empty, so [max_index] is -1, and [next] stays on the first panel. *)
Theorem tabs_enabled_without_tablist :
  no_tablist page_without_tablist = true
  ∧ ∃ (car : Carousel) (p' : Page),
      JSCarousel.new (Some 0%nat) None (mkPage page_without_tablist [] [])
      = (Normal car, p')
      ∧ allow_tabs car = true
      ∧ tabs car = []
      ∧ max_index car = -1
      ∧ current_index (this (JSCarousel.next (mkState car p')).2) = 0
      ∧ document (page (JSCarousel.next (mkState car p')).2) = document p'.
Proof.
  split; [reflexivity|]. eexists _, _. split; [vm_compute; reflexivity|].
  repeat split; vm_compute; reflexivity.
Qed.

(** ** The index ring *)

Lemma active_panel_returns (index : Z) (s : State) :
  tabs_well_formed (this s) (document (page s)) = true →
  ∃ p', JSCarousel.active_panel index s = (Normal tt, mkState (this s) p')
        ∧ skeleton <$> document p' = skeleton <$> document (page s).
Proof.
  intros Hw. pose proof (active_panel_result index s) as Hr.
  pose proof (active_panel_same_this index s) as Ht.
  pose proof (same_structure_active_panel index s) as Hs.
  rewrite Hw in Hr. unfold same_this, same_structure in *.
  destruct (JSCarousel.active_panel index s) as [r [c p']]. cbn in *. subst c.
  exists p'. split; [|done].
  destruct (item (tabs (this s)) index); by subst r.
Qed.

Lemma tabs_well_formed_same_ring (s s' : State) :
  same_ring s s' →
  tabs_well_formed (this s') (document (page s'))
  = tabs_well_formed (this s) (document (page s)).
Proof.
  intros (_ & Ht & Hs). rewrite (tabs_well_formed_skeleton _ _ _ Hs).
  unfold tabs_well_formed. by rewrite Ht.
Qed.

Lemma next_returns (s : State) :
  tabs_well_formed (this s) (document (page s)) = true →
  ∃ s', JSCarousel.next s = (Normal tt, s')
        ∧ current_index (this s') = next_index (this s)
        ∧ same_ring s s'.
Proof.
  intros Hw. rewrite next_run.
  destruct (active_panel_returns (next_index (this s)) s Hw) as (p' & -> & Hs).
  eexists. split; [reflexivity|]. by repeat split.
Qed.

Lemma previous_returns (s : State) :
  tabs_well_formed (this s) (document (page s)) = true →
  ∃ s', JSCarousel.previous s = (Normal tt, s')
        ∧ current_index (this s') = previous_index (this s)
        ∧ same_ring s s'.
Proof.
  intros Hw. rewrite previous_run.
  destruct (active_panel_returns (previous_index (this s)) s Hw)
    as (p' & -> & Hs).
  eexists. split; [reflexivity|]. by repeat split.
Qed.

Lemma same_ring_refl s : same_ring s s.
Proof. by repeat split. Qed.

Lemma same_ring_trans s1 s2 s3 :
  same_ring s1 s2 → same_ring s2 s3 → same_ring s1 s3.
Proof. unfold same_ring. intros (?&?&?) (?&?&?). repeat split; congruence. Qed.

(** [k] calls of [next] from an index that stays below the bound add [k]. *)
Lemma times_next_below (k : nat) (s : State) :
  tabs_well_formed (this s) (document (page s)) = true →
  current_index (this s) + Z.of_nat k ≤ max_index (this s) →
  ∃ s', times k JSCarousel.next s = (Normal tt, s')
        ∧ current_index (this s') = current_index (this s) + Z.of_nat k
        ∧ same_ring s s'.
Proof.
  revert s. induction k as [|k IH]; intros s Hw Hk.
  - exists s. split; [done|]. split; [lia | apply same_ring_refl].
  - cbn [times]. rewrite bind_run.
    destruct (next_returns s Hw) as (s1 & -> & Hc & Hr).
    assert (Hn : next_index (this s) = current_index (this s) + 1).
    { unfold next_index. destruct (Z.ltb_spec (current_index (this s))
                                     (max_index (this s))); lia. }
    destruct (IH s1) as (s' & -> & Hc' & Hr').
    + by rewrite (tabs_well_formed_same_ring s s1).
    + destruct Hr as (-> & _). lia.
    + exists s'. split; [done|]. split; [lia | by eapply same_ring_trans].
Qed.

Lemma times_add (a b : nat) (m : M unit) (s s1 : State) :
  times a m s = (Normal tt, s1) →
  times (a + b) m s = times b m s1.
Proof.
  revert s. induction a as [|a IH]; intros s.
  - by intros [= ->].
  - cbn [times Nat.add]. rewrite !bind_run.
    destruct (m s) as [[[]|msg] s0]; [apply IH | done].
Qed.

(** C5: on a page whose tab items are well formed, and from an index of the
    ring, [max_index + 1] calls of [next] all return and bring
    [current_index] back to where it started. *)
Theorem next_wraps_around (s : State) :
  tabs_well_formed (this s) (document (page s)) = true →
  0 ≤ current_index (this s) ≤ max_index (this s) →
  ∃ s', times (Z.to_nat (max_index (this s) + 1)) JSCarousel.next s
        = (Normal tt, s')
        ∧ current_index (this s') = current_index (this s).
Proof.
  intros Hw Hi.
  set (i := current_index (this s)). set (m := max_index (this s)).
  replace (Z.to_nat (m + 1))
    with (Z.to_nat (m - i) + (1 + Z.to_nat i))%nat by lia.
  destruct (times_next_below (Z.to_nat (m - i)) s Hw) as (s1 & E1 & C1 & R1);
    [fold i m; lia|].
  rewrite (times_add _ _ _ _ _ E1).
  assert (W1 : tabs_well_formed (this s1) (document (page s1)) = true)
    by (by rewrite (tabs_well_formed_same_ring s s1)).
  destruct (next_returns s1 W1) as (s2 & E2 & C2 & R2).
  assert (E2' : times 1 JSCarousel.next s1 = (Normal tt, s2)).
  { cbn [times]. rewrite bind_run, E2. done. }
  rewrite (times_add _ _ _ _ _ E2').
  assert (W2 : tabs_well_formed (this s2) (document (page s2)) = true)
    by (by rewrite (tabs_well_formed_same_ring s1 s2)).
  assert (Z2 : current_index (this s2) = 0).
  { rewrite C2. unfold next_index. destruct R1 as (M1 & _).
    destruct (Z.ltb_spec (current_index (this s1)) (max_index (this s1)));
      [|done]. fold i m in C1. lia. }
  destruct (times_next_below (Z.to_nat i) s2 W2) as (s3 & E3 & C3 & R3).
  { destruct R1 as (M1 & _), R2 as (M2 & _). fold m in M1. lia. }
  exists s3. split; [done|]. lia.
Qed.

Lemma next_wraps_around_witness :
  ∃ s', times (Z.to_nat (max_index (this readme_state) + 1)) JSCarousel.next
          readme_state
        = (Normal tt, s')
        ∧ current_index (this s') = current_index (this readme_state).
Proof.
  apply (next_wraps_around readme_state).
  - vm_compute. reflexivity.
  - vm_compute. split; discriminate.
Defined.

(** C6: on a page whose tab items are well formed, and from an index of the
    ring, [next] then [previous] both return and restore [current_index], and
    so do [previous] then [next]; this covers the two ends of the ring. *)
Theorem previous_inverts_next (s : State) :
  tabs_well_formed (this s) (document (page s)) = true →
  0 ≤ current_index (this s) ≤ max_index (this s) →
  (∃ s1 s2, JSCarousel.next s = (Normal tt, s1)
            ∧ JSCarousel.previous s1 = (Normal tt, s2)
            ∧ current_index (this s2) = current_index (this s))
  ∧ (∃ s1 s2, JSCarousel.previous s = (Normal tt, s1)
              ∧ JSCarousel.next s1 = (Normal tt, s2)
              ∧ current_index (this s2) = current_index (this s)).
Proof.
  intros Hw Hi. split.
  - destruct (next_returns s Hw) as (s1 & E1 & C1 & R1).
    assert (W1 : tabs_well_formed (this s1) (document (page s1)) = true)
      by (by rewrite (tabs_well_formed_same_ring s s1)).
    destruct (previous_returns s1 W1) as (s2 & E2 & C2 & R2).
    exists s1, s2. repeat split; try done.
    rewrite C2. unfold previous_index. destruct R1 as (M1 & _).
    rewrite C1, M1. unfold next_index.
    destruct (Z.ltb_spec (current_index (this s)) (max_index (this s)));
      [destruct (Z.gtb_spec (current_index (this s) + 1) 0)
      |destruct (Z.gtb_spec 0 0)]; lia.
  - destruct (previous_returns s Hw) as (s1 & E1 & C1 & R1).
    assert (W1 : tabs_well_formed (this s1) (document (page s1)) = true)
      by (by rewrite (tabs_well_formed_same_ring s s1)).
    destruct (next_returns s1 W1) as (s2 & E2 & C2 & R2).
    exists s1, s2. repeat split; try done.
    rewrite C2. unfold next_index. destruct R1 as (M1 & _).
    rewrite C1, M1. unfold previous_index.
    destruct (Z.gtb_spec (current_index (this s)) 0);
      [destruct (Z.ltb_spec (current_index (this s) - 1) (max_index (this s)))
      |destruct (Z.ltb_spec (max_index (this s)) (max_index (this s)))]; lia.
Qed.

Lemma previous_inverts_next_witness :
  (∃ s1 s2, JSCarousel.next readme_state = (Normal tt, s1)
            ∧ JSCarousel.previous s1 = (Normal tt, s2)
            ∧ current_index (this s2) = current_index (this readme_state))
  ∧ (∃ s1 s2, JSCarousel.previous readme_state = (Normal tt, s1)
              ∧ JSCarousel.next s1 = (Normal tt, s2)
              ∧ current_index (this s2) = current_index (this readme_state)).
Proof.
  apply (previous_inverts_next readme_state).
  - vm_compute. reflexivity.
  - vm_compute. split; discriminate.
Defined.

(** ** Reading the store after a write *)

Lemma setAttribute_attribute_eq (i : Ref) (n v : string) (d : Document) :
  is_Some (d !! i) → attribute_at (setAttribute i n v d) i n = Some v.
Proof.
  intros [e He]. unfold attribute_at, setAttribute.
  rewrite list_lookup_alter_eq, He. cbn. unfold getAttribute. cbn.
  apply lookup_insert_eq.
Qed.

Lemma setAttribute_attribute_ne (i j : Ref) (n m v : string) (d : Document) :
  i ≠ j ∨ n ≠ m →
  attribute_at (setAttribute i n v d) j m = attribute_at d j m.
Proof.
  intros H. unfold attribute_at, setAttribute.
  destruct (decide (i = j)) as [->|Hne].
  - destruct H as [?|H]; [done|]. rewrite list_lookup_alter_eq.
    destruct (d !! j) as [e|]; [|done]. cbn. unfold getAttribute. cbn.
    by apply lookup_insert_ne.
  - by rewrite list_lookup_alter_ne.
Qed.

Lemma setAttribute_style (i : Ref) (n v : string) (d : Document) :
  style <$> setAttribute i n v d = style <$> d.
Proof. by apply fmap_alter_same. Qed.

Lemma setAttribute_lookup_is_Some (i j : Ref) (n v : string) (d : Document) :
  is_Some (setAttribute i n v d !! j) ↔ is_Some (d !! j).
Proof.
  rewrite !lookup_lt_is_Some. unfold setAttribute. by rewrite length_alter.
Qed.

Lemma style_at_fmap (d d' : Document) (i : Ref) (p : string) :
  style <$> d' = style <$> d → style_at d' i p = style_at d i p.
Proof.
  intros H. apply (f_equal (fun l => l !! i)) in H.
  rewrite !list_lookup_fmap in H. unfold style_at.
  destruct (d' !! i), (d !! i); cbn in *; congruence.
Qed.

Lemma setStyle_style_eq (i : Ref) (p : string) (v : CSSValue) (d : Document) :
  is_Some (d !! i) →
  style_at (setStyle i p v d) i p = assigned v (style_at d i p).
Proof.
  intros [e He]. unfold style_at, setStyle, assigned.
  destruct (valid_value v); [|done].
  rewrite list_lookup_alter_eq, He. cbn. apply lookup_insert_eq.
Qed.

Lemma setStyle_style_ne (i j : Ref) (p q : string) (v : CSSValue)
    (d : Document) :
  i ≠ j ∨ p ≠ q → style_at (setStyle i p v d) j q = style_at d j q.
Proof.
  intros H. unfold style_at, setStyle. destruct (valid_value v); [|done].
  destruct (decide (i = j)) as [->|Hne].
  - destruct H as [?|H]; [done|]. rewrite list_lookup_alter_eq.
    destruct (d !! j) as [e|]; [|done]. cbn. by apply lookup_insert_ne.
  - by rewrite list_lookup_alter_ne.
Qed.

Lemma setStyle_attribute (i j : Ref) (p m : string) (v : CSSValue)
    (d : Document) :
  attribute_at (setStyle i p v d) j m = attribute_at d j m.
Proof.
  unfold attribute_at, setStyle. destruct (valid_value v); [|done].
  destruct (decide (i = j)) as [->|Hne].
  - rewrite list_lookup_alter_eq. by destruct (d !! j).
  - by rewrite list_lookup_alter_ne.
Qed.

(** Writing one attribute on each element of a list. *)
Lemma foldl_setAttribute_style (n v : string) (l : list Ref) (d : Document) :
  style <$> foldl (fun d x => setAttribute x n v d) d l = style <$> d.
Proof.
  revert d. induction l as [|x l IH]; intros d; [done|].
  cbn. by rewrite IH, setAttribute_style.
Qed.

Lemma foldl_setAttribute_out (n m v : string) (l : list Ref) (j : Ref)
    (d : Document) :
  j ∉ l ∨ n ≠ m →
  attribute_at (foldl (fun d x => setAttribute x n v d) d l) j m
  = attribute_at d j m.
Proof.
  revert d. induction l as [|x l IH]; intros d H; [done|].
  cbn. rewrite IH.
  - apply setAttribute_attribute_ne. destruct H as [H|H]; [left|by right].
    intros ->. apply H, list_elem_of_here.
  - destruct H as [H|H]; [left|by right].
    intros Hj. apply H. by apply list_elem_of_further.
Qed.

Lemma foldl_setAttribute_in (n v : string) (l : list Ref) (j : Ref)
    (d : Document) :
  j ∈ l → is_Some (d !! j) →
  attribute_at (foldl (fun d x => setAttribute x n v d) d l) j n = Some v.
Proof.
  revert d. induction l as [|x l IH]; intros d Hj Hd.
  - by apply not_elem_of_nil in Hj.
  - cbn. destruct (decide (j ∈ l)) as [Hl|Hl].
    + apply IH; [done|]. by apply setAttribute_lookup_is_Some.
    + rewrite foldl_setAttribute_out by (by left).
      apply elem_of_cons in Hj as [->|?]; [|done].
      by apply setAttribute_attribute_eq.
Qed.

(** ** Activating the current panel *)

Section StableIn.

Variable R : State -> State -> Prop.
Hypothesis R_refl : ∀ s, R s s.
Hypothesis R_trans : ∀ s1 s2 s3, R s1 s2 → R s2 s3 → R s1 s3.

Lemma stable_for_of_in {A} (l : list A) (body : A -> M unit) :
  (∀ x, x ∈ l → stable R (body x)) → stable R (for_of l body).
Proof.
  induction l as [|x l IH]; intros Hb; [by apply stable_ret|].
  rewrite for_of_cons. apply stable_bind; [done| |].
  - apply Hb, list_elem_of_here.
  - intros ?. apply IH. intros y Hy. by apply Hb, list_elem_of_further.
Qed.

End StableIn.

Section TabWrites.

Variable T : list Ref.

Lemma tab_writes_refl s : tab_writes T s s.
Proof. by split. Qed.

Lemma tab_writes_trans s1 s2 s3 :
  tab_writes T s1 s2 → tab_writes T s2 s3 → tab_writes T s1 s3.
Proof.
  intros [Hs1 Ha1] [Hs2 Ha2]. split; [congruence|].
  intros i n Hc Hy H. by rewrite Ha2, Ha1.
Qed.

Lemma tab_writes_setAttribute (t : Ref) (n v : string) :
  t ∈ T → n = "aria-selected" ∨ n = "tabindex" →
  stable (tab_writes T) (modify_document (setAttribute t n v)).
Proof.
  intros Ht Hn s. split; cbn; [apply setAttribute_style|].
  intros i m _ _ H. apply setAttribute_attribute_ne.
  destruct H as [H|[H1 H2]]; [left; by intros ->|right].
  destruct Hn as [->| ->]; congruence.
Qed.

Lemma classList_attribute (i j : Ref) (f : Element -> list string)
    (m : string) (d : Document) :
  attribute_at (alter (fun e => with_classList (f e) e) i d) j m
  = attribute_at d j m.
Proof.
  unfold attribute_at. destruct (decide (i = j)) as [->|Hne].
  - rewrite list_lookup_alter_eq. by destruct (d !! j).
  - by rewrite list_lookup_alter_ne.
Qed.

Lemma tab_writes_classList_add (i : Ref) (c : string) :
  stable (tab_writes T) (modify_document (classList_add i c)).
Proof.
  intros s. split; cbn.
  - apply fmap_alter_same. intros e. by case_bool_decide.
  - intros j m _ _ _. unfold attribute_at, classList_add.
    destruct (decide (i = j)) as [->|Hne].
    + rewrite list_lookup_alter_eq. destruct (document (page s) !! j); [|done].
      cbn. by case_bool_decide.
    + by rewrite list_lookup_alter_ne.
Qed.

Lemma tab_writes_classList_remove (i : Ref) (c : string) :
  stable (tab_writes T) (modify_document (classList_remove i c)).
Proof.
  intros s. split; cbn.
  - by apply fmap_alter_same.
  - intros j m _ _ _. apply classList_attribute.
Qed.

End TabWrites.

Lemma select_tab_writes (c : Carousel) (index : Z) :
  stable (tab_writes (tabs c)) (JSCarousel.select_tab c index).
Proof.
  unfold JSCarousel.select_tab. cbn [truthy].
  destruct (item (tabs c) index) as [tab|] eqn:Hi;
    [|apply stable_ret, tab_writes_refl].
  apply item_elem_of in Hi.
  stable_with (tab_writes_refl (tabs c)) (tab_writes_trans (tabs c))
    ltac:(first
      [ apply tab_writes_setAttribute; [assumption | by (left + right)]
      | apply tab_writes_classList_add
      | apply tab_writes_classList_remove
      | apply (stable_for_of_in _ (tab_writes_refl (tabs c))
                 (tab_writes_trans (tabs c)));
        intros ? ?; unfold JSCarousel.deselect_tab ]).
Qed.

Lemma select_tab_same_this (c : Carousel) (index : Z) :
  stable same_this (JSCarousel.select_tab c index).
Proof.
  unfold JSCarousel.select_tab, JSCarousel.deselect_tab. same_this_tac.
Qed.

Lemma distance_to_current (c : Carousel) :
  Number.is_finite (width c) = true →
  Number.strict_neq_zero (JSCarousel.distance c (current_index c)) = false.
Proof.
  unfold JSCarousel.distance. destruct (width c) as [q|]; [|done].
  intros _. rewrite Z.sub_diag. cbn. apply negb_false_iff, Qeq_bool_iff.
  apply Qmult_0_r.
Qed.

(** With a zero distance [move] returns the state it was given. *)
Lemma move_zero_distance (index : Z) (s : State) :
  Number.strict_neq_zero (JSCarousel.distance (this s) index) = false →
  JSCarousel.move index s = (Normal tt, s).
Proof.
  intros H. rewrite move_run. unfold move_document. rewrite H.
  by destruct s as [c []].
Qed.

(** C7, as the code has it: with a panel width that is a number,
    [active_panel] on the current index computes a zero distance and [move]
    returns at once, leaving the state as it is.  The call as a whole writes
    no inline style, so no left offset; no [aria-hidden]; and no [tabindex]
    inside a panel that holds no tab item. *)
Theorem active_panel_current_index (s : State) (k : Z) :
  Number.is_finite (width (this s)) = true →
  k = current_index (this s) →
  Number.strict_neq_zero (JSCarousel.distance (this s) k) = false
  ∧ JSCarousel.move k s = (Normal tt, s)
  ∧ (∀ (i : Ref) (p : string),
       style_at (document (page (JSCarousel.active_panel k s).2)) i p
       = style_at (document (page s)) i p)
  ∧ (∀ i : Ref,
       attribute_at (document (page (JSCarousel.active_panel k s).2)) i
         "aria-hidden"
       = attribute_at (document (page s)) i "aria-hidden")
  ∧ (∀ w e : Ref,
       (∀ t, t ∈ tabs (this s) → is_descendant (document (page s)) w t = false) →
       is_descendant (document (page s)) w e = true →
       attribute_at (document (page (JSCarousel.active_panel k s).2)) e
         "tabindex"
       = attribute_at (document (page s)) e "tabindex").
Proof.
  intros Hw ->. pose proof (distance_to_current (this s) Hw) as Hd.
  split; [done|]. split; [by apply move_zero_distance|].
  assert (Ht : tab_writes (tabs (this s)) s
                 (JSCarousel.active_panel (current_index (this s)) s).2).
  { unfold JSCarousel.active_panel. rewrite bind_run. cbn [get_this].
    rewrite bind_run.
    pose proof (select_tab_writes (this s) (current_index (this s)) s) as H1.
    pose proof (select_tab_same_this (this s) (current_index (this s)) s) as H2.
    destruct (JSCarousel.select_tab _ _ s) as [[[]|msg] s1]; cbn in *; [|done].
    unfold same_this in H2. rewrite move_zero_distance; [done|].
    by rewrite H2. }
  destruct Ht as [Hs Ha]. split; [|split].
  - intros i p. by apply style_at_fmap.
  - intros i. apply Ha; [done..|]. right. by split.
  - intros w e Hout He. apply Ha; [done..|]. left. intros Hin.
    apply Hout in Hin. congruence.
Qed.

Lemma active_panel_current_index_witness :
  JSCarousel.move 0 readme_state = (Normal tt, readme_state)
  ∧ attribute_at
      (document (page (JSCarousel.active_panel 0 readme_state).2)) 3%nat
      "aria-hidden"
    = attribute_at (document (page readme_state)) 3%nat "aria-hidden".
Proof.
  destruct (active_panel_current_index readme_state 0)
    as (_ & Hm & _ & Ha & _).
  - vm_compute. reflexivity.
  - vm_compute. reflexivity.
  - split; [exact Hm | apply Ha].
Defined.

(** C7, as stated, fails: on the page of the README constructed while it is
    not rendered the width is [NaN], every distance is [NaN], which is
    different from zero, and [active_panel] on the current index runs the
    loop of [move]: the link of the first panel gets [tabindex="0"]. *)
Lemma active_panel_current_index_writes :
  ¬ (∀ (s : State) (k : Z) (w e : Ref),
       k = current_index (this s) →
       w ∈ querySelectorAll (document (page s)) (container (this s))
             JSCarousel.carousel_content →
       is_descendant (document (page s)) w e = true →
       attribute_at (document (page (JSCarousel.active_panel k s).2)) e
         "tabindex"
       = attribute_at (document (page s)) e "tabindex").
Proof.
  intros H.
  specialize (H (constructed 0%nat None (not_rendered readme)) 0 3%nat 6%nat).
  assert (H1 : 0 = current_index
                     (this (constructed 0%nat None (not_rendered readme))))
    by (vm_compute; reflexivity).
  assert (H2 : 3%nat ∈ querySelectorAll
                 (document (page (constructed 0%nat None (not_rendered readme))))
                 (container (this (constructed 0%nat None (not_rendered readme))))
                 JSCarousel.carousel_content)
    by (vm_compute; apply list_elem_of_here).
  assert (H3 : is_descendant
                 (document (page (constructed 0%nat None (not_rendered readme))))
                 3%nat 6%nat = true)
    by (vm_compute; reflexivity).
  specialize (H H1 H2 H3). clear H1 H2 H3. vm_compute in H. discriminate H.
Qed.

(** ** What the classifier depends on *)

Lemma focus_view_aria_hidden (v : string) (e : Element) :
  focus_view (with_attributes (<["aria-hidden" := v]> (attributes e)) e)
  = focus_view e.
Proof. unfold focus_view. cbn. by rewrite delete_insert_eq. Qed.

Lemma focus_view_left (v : CSSValue) (e : Element) :
  focus_view (with_style (<["left" := v]> (style e)) e) = focus_view e.
Proof. unfold focus_view. cbn. by rewrite delete_insert_eq. Qed.

Lemma focus_view_attribute (e e' : Element) (n : string) :
  focus_view e' = focus_view e → n ≠ "aria-hidden" →
  attributes e' !! n = attributes e !! n.
Proof.
  intros H Hn. injection H as _ _ _ Ha _ _.
  by rewrite <- (lookup_delete_ne (attributes e') "aria-hidden" n),
             <- (lookup_delete_ne (attributes e) "aria-hidden" n), Ha.
Qed.

Lemma focus_view_style (e e' : Element) (p : string) :
  focus_view e' = focus_view e → p ≠ "left" → style e' !! p = style e !! p.
Proof.
  intros H Hp. injection H as _ _ _ _ Hs _.
  by rewrite <- (lookup_delete_ne (style e') "left" p),
             <- (lookup_delete_ne (style e) "left" p), Hs.
Qed.

Lemma focus_view_isFocusable (e e' : Element) :
  focus_view e' = focus_view e →
  FocusableElement.isFocusable e' = FocusableElement.isFocusable e.
Proof.
  intros H.
  pose proof (focus_view_attribute e e' "disabled" H) as Hd.
  pose proof (focus_view_attribute e e' "hidden" H) as Hh.
  pose proof (focus_view_attribute e e' "type" H) as Ht.
  pose proof (focus_view_style e e' "display" H) as Hsd.
  pose proof (focus_view_style e e' "visibility" H) as Hsv.
  injection H as _ Hdoc Hn _ _ Hc.
  unfold FocusableElement.isFocusable, FocusableElement.RULES.
  cbn [FocusableElement.every_rule].
  unfold FocusableElement.hasStyle, hasAttribute, tagName, type_.
  by rewrite Hd, Hh, Ht, Hsd, Hsv, Hdoc, Hn, Hc.
Qed.

Lemma focus_view_matches (e e' : Element) (c : ComplexSelector) :
  focus_view e' = focus_view e → focus_selector [c] = true →
  match c with Simple s => matches_simple e' s | _ => false end
  = match c with Simple s => matches_simple e s | _ => false end.
Proof.
  intros H Hc. destruct c as [[n| |n v]|]; cbn in Hc; try done.
  - injection H as _ _ Hn _ _ _. cbn. by rewrite Hn.
  - rewrite andb_true_r in Hc. apply negb_true_iff, String.eqb_neq in Hc.
    cbn. by rewrite (focus_view_attribute e e' n H Hc).
Qed.

Lemma focus_view_lookup_attribute (d d' : Document) (i : Ref) (n : string) :
  focus_view <$> d' !! i = focus_view <$> d !! i → n ≠ "aria-hidden" →
  attribute_at d' i n = attribute_at d i n.
Proof.
  intros H Hn. unfold attribute_at, getAttribute.
  destruct (d' !! i) as [e'|], (d !! i) as [e|]; cbn in *; try done.
  apply focus_view_attribute; [congruence | done].
Qed.

(** The classifier answers the same on two stores with the same tree, tags
    and classes whose elements inside [w] look the same to it. *)
Lemma getKeyboardFocusableElements_congr (h : FocusableElement.t)
    (d d' : Document) (w : Ref) :
  focus_selector (FocusableElement.focusableQuerySelector h) = true →
  skeleton <$> d' = skeleton <$> d →
  (∀ i, is_descendant d w i = true →
        focus_view <$> d' !! i = focus_view <$> d !! i) →
  FocusableElement.getKeyboardFocusableElements h d' w
  = FocusableElement.getKeyboardFocusableElements h d w.
Proof.
  intros Hsel Hsk Hv.
  unfold FocusableElement.getKeyboardFocusableElements, querySelectorAll.
  rewrite (same_skeleton_length d d' Hsk), !list_filter_filter.
  apply list_filter_iff. intros i.
  rewrite (same_skeleton_is_descendant d d' Hsk).
  destruct (is_descendant d w i) eqn:Hi; [|by cbn; tauto].
  specialize (Hv i Hi). cbn [andb].
  assert (FocusableElement.isFocusable_at d' i
          = FocusableElement.isFocusable_at d i) as ->.
  { unfold FocusableElement.isFocusable_at.
    destruct (d' !! i) as [e'|], (d !! i) as [e|]; cbn in Hv; try done.
    apply focus_view_isFocusable. congruence. }
  assert (existsb (matches d' i) (FocusableElement.focusableQuerySelector h)
          = existsb (matches d i) (FocusableElement.focusableQuerySelector h))
    as ->; [|done].
  induction (FocusableElement.focusableQuerySelector h) as [|c sel IH];
    [done|].
  cbn in Hsel. apply andb_true_iff in Hsel as [Hc Hsel].
  cbn [existsb]. rewrite IH by done. f_equal.
  destruct c as [s|]; [|done]. cbn [matches]. unfold matches_at.
  destruct (d' !! i) as [e'|], (d !! i) as [e|]; cbn in Hv; try done.
  assert (Hv' : focus_view e' = focus_view e) by congruence.
  apply (focus_view_matches e e' (Simple s) Hv'). cbn. by rewrite Hc.
Qed.

Lemma getKeyboardFocusableElements_descendant (h : FocusableElement.t)
    (d : Document) (w i : Ref) :
  i ∈ FocusableElement.getKeyboardFocusableElements h d w →
  is_descendant d w i = true ∧ is_Some (d !! i).
Proof.
  unfold FocusableElement.getKeyboardFocusableElements, querySelectorAll.
  rewrite !list_elem_of_filter, elem_of_seq.
  intros (_ & Hq & Hi). apply Is_true_true, andb_true_iff in Hq as [Hd _].
  split; [done|]. apply lookup_lt_is_Some. lia.
Qed.

Lemma focus_selector_new :
  focus_selector (FocusableElement.focusableQuerySelector FocusableElement.new)
  = true.
Proof. reflexivity. Qed.

Lemma focus_selector_revealable :
  focus_selector (FocusableElement.focusableQuerySelector revealable) = true.
Proof. reflexivity. Qed.

(** ** Hiding and showing one panel *)

Lemma hide_window_mark (w : Ref) (d : Document) :
  JSCarousel.hide_window w d = mark_window "true" "-1" FocusableElement.new w d.
Proof. reflexivity. Qed.

Lemma show_window_mark (w : Ref) (d : Document) :
  JSCarousel.show_window w d = mark_window "false" "0" revealable w d.
Proof. reflexivity. Qed.

Lemma foldl_setAttribute_lookup_out (n v : string) (l : list Ref) (j : Ref)
    (d : Document) :
  j ∉ l → foldl (fun d x => setAttribute x n v d) d l !! j = d !! j.
Proof.
  revert d. induction l as [|x l IH]; intros d H; [done|].
  cbn. rewrite IH by (intros Hj; apply H; by apply list_elem_of_further).
  unfold setAttribute. apply list_lookup_alter_ne.
  intros ->. apply H, list_elem_of_here.
Qed.

Section MarkWindow.

Variables (hidden tabindex : string) (h : FocusableElement.t).
Hypothesis h_focus :
  focus_selector (FocusableElement.focusableQuerySelector h) = true.

Lemma mark_window_skeleton (w : Ref) (d : Document) :
  skeleton <$> mark_window hidden tabindex h w d = skeleton <$> d.
Proof.
  unfold mark_window.
  by rewrite foldl_setAttribute_skeleton, setAttribute_skeleton.
Qed.

Lemma mark_window_style (w : Ref) (d : Document) :
  style <$> mark_window hidden tabindex h w d = style <$> d.
Proof.
  unfold mark_window. by rewrite foldl_setAttribute_style, setAttribute_style.
Qed.

Lemma setAttribute_aria_hidden_focus_view (w : Ref) (v : string) (d : Document) :
  focus_view <$> setAttribute w "aria-hidden" v d = focus_view <$> d.
Proof. apply fmap_alter_same. intros e. apply focus_view_aria_hidden. Qed.

(** The elements found after [aria-hidden] is written are the elements found
    before. *)
Lemma mark_window_found (w : Ref) (d : Document) :
  FocusableElement.getKeyboardFocusableElements h
    (setAttribute w "aria-hidden" hidden d) w
  = FocusableElement.getKeyboardFocusableElements h d w.
Proof.
  apply getKeyboardFocusableElements_congr; [done| |].
  - apply setAttribute_skeleton.
  - intros i _. rewrite <- !list_lookup_fmap.
    by rewrite setAttribute_aria_hidden_focus_view.
Qed.

Lemma mark_window_aria_hidden (w : Ref) (d : Document) :
  is_Some (d !! w) →
  attribute_at (mark_window hidden tabindex h w d) w "aria-hidden"
  = Some hidden.
Proof.
  intros Hw. unfold mark_window.
  rewrite foldl_setAttribute_out by (by right).
  by apply setAttribute_attribute_eq.
Qed.

Lemma mark_window_aria_hidden_other (w j : Ref) (d : Document) :
  j ≠ w →
  attribute_at (mark_window hidden tabindex h w d) j "aria-hidden"
  = attribute_at d j "aria-hidden".
Proof.
  intros Hj. unfold mark_window.
  rewrite foldl_setAttribute_out by (by right).
  apply setAttribute_attribute_ne. by left.
Qed.

Lemma mark_window_tabindex (w e : Ref) (d : Document) :
  e ∈ FocusableElement.getKeyboardFocusableElements h d w →
  attribute_at (mark_window hidden tabindex h w d) e "tabindex"
  = Some tabindex.
Proof.
  intros He. unfold mark_window. rewrite mark_window_found.
  apply foldl_setAttribute_in; [done|].
  apply setAttribute_lookup_is_Some.
  by apply getKeyboardFocusableElements_descendant in He as [_ ?].
Qed.

(** Outside the panel nothing that the classifier sees is written. *)
Lemma mark_window_frame (w i : Ref) (d : Document) :
  is_descendant d w i = false →
  focus_view <$> mark_window hidden tabindex h w d !! i
  = focus_view <$> d !! i.
Proof.
  intros Hi. unfold mark_window. rewrite mark_window_found.
  rewrite foldl_setAttribute_lookup_out.
  - rewrite <- !list_lookup_fmap.
    by rewrite setAttribute_aria_hidden_focus_view.
  - intros He. apply getKeyboardFocusableElements_descendant in He as [He _].
    congruence.
Qed.

End MarkWindow.

(** ** The loop of [move] *)

Lemma focus_selector_classifier (t : option Ref) (w : Ref) :
  focus_selector (FocusableElement.focusableQuerySelector (classifier_of t w))
  = true.
Proof. unfold classifier_of. by case_bool_decide. Qed.

Lemma is_descendant_out_of_store (d : Document) (p i : Ref) :
  d !! i = None → is_descendant d p i = false.
Proof.
  intros Hi. unfold is_descendant, ancestors.
  destruct (length d); cbn; [done|]. by rewrite Hi.
Qed.

Lemma panels_disjoint_spec (d : Document) (panels : list Ref) (p q i : Ref) :
  panels_disjoint d panels = true →
  p ∈ panels → q ∈ panels → p ≠ q →
  is_descendant d p i = true → is_descendant d q i = false.
Proof.
  intros H Hp Hq Hne Hd.
  destruct (d !! i) eqn:Hi; [|by apply is_descendant_out_of_store].
  unfold panels_disjoint in H. rewrite forallb_forall in H.
  specialize (H i). rewrite forallb_forall in H.
  assert (Hin : In i (seq 0 (length d))).
  { apply in_seq. apply lookup_lt_Some in Hi. lia. }
  specialize (H Hin p (proj1 (list_elem_of_In _ _) Hp)).
  rewrite forallb_forall in H.
  specialize (H q (proj1 (list_elem_of_In _ _) Hq)).
  rewrite Hd in H. rewrite bool_decide_eq_false_2 in H by done.
  cbn in H. by apply negb_true_iff in H.
Qed.

Section MoveWindow.

Variables (dist : number) (t : option Ref).

Lemma move_window_mark (w : Ref) (d : Document) :
  JSCarousel.move_window dist t w d
  = mark_window (hidden_of t w) (tabindex_of t w) (classifier_of t w) w
      (setStyle w "left"
         (Px (Number.add (parseFloat (style_at d w "left")) dist)) d).
Proof.
  unfold JSCarousel.move_window, hidden_of, tabindex_of, classifier_of.
  by case_bool_decide.
Qed.

Lemma setStyle_left_focus_view (w : Ref) (v : CSSValue) (d : Document) :
  focus_view <$> setStyle w "left" v d = focus_view <$> d.
Proof.
  unfold setStyle. destruct (valid_value v); [|done].
  apply fmap_alter_same. intros e. apply focus_view_left.
Qed.

Lemma setStyle_lookup_is_Some (i j : Ref) (p : string) (v : CSSValue)
    (d : Document) :
  is_Some (setStyle i p v d !! j) ↔ is_Some (d !! j).
Proof.
  rewrite !lookup_lt_is_Some. unfold setStyle.
  destruct (valid_value v); [|done]. by rewrite length_alter.
Qed.

Lemma move_window_left (w : Ref) (d : Document) :
  is_Some (d !! w) →
  style_at (JSCarousel.move_window dist t w d) w "left"
  = assigned (Px (Number.add (parseFloat (style_at d w "left")) dist))
      (style_at d w "left").
Proof.
  intros Hw. rewrite move_window_mark.
  rewrite (style_at_fmap _ _ _ _ (mark_window_style _ _ _ _ _)).
  by apply setStyle_style_eq.
Qed.

Lemma move_window_style_other (w j : Ref) (p : string) (d : Document) :
  j ≠ w →
  style_at (JSCarousel.move_window dist t w d) j p = style_at d j p.
Proof.
  intros Hj. rewrite move_window_mark.
  rewrite (style_at_fmap _ _ _ _ (mark_window_style _ _ _ _ _)).
  apply setStyle_style_ne. by left.
Qed.

Lemma move_window_aria_hidden (w : Ref) (d : Document) :
  is_Some (d !! w) →
  attribute_at (JSCarousel.move_window dist t w d) w "aria-hidden"
  = Some (hidden_of t w).
Proof.
  intros Hw. rewrite move_window_mark. apply mark_window_aria_hidden.
  by apply setStyle_lookup_is_Some.
Qed.

Lemma move_window_aria_hidden_other (w j : Ref) (d : Document) :
  j ≠ w →
  attribute_at (JSCarousel.move_window dist t w d) j "aria-hidden"
  = attribute_at d j "aria-hidden".
Proof.
  intros Hj. rewrite move_window_mark.
  rewrite mark_window_aria_hidden_other by done. apply setStyle_attribute.
Qed.

Lemma move_window_found (w : Ref) (v : CSSValue) (d : Document) :
  FocusableElement.getKeyboardFocusableElements (classifier_of t w)
    (setStyle w "left" v d) w
  = FocusableElement.getKeyboardFocusableElements (classifier_of t w) d w.
Proof.
  apply getKeyboardFocusableElements_congr.
  - apply focus_selector_classifier.
  - apply setStyle_skeleton.
  - intros i _. rewrite <- !list_lookup_fmap.
    by rewrite setStyle_left_focus_view.
Qed.

Lemma move_window_tabindex (w e : Ref) (d : Document) :
  e ∈ FocusableElement.getKeyboardFocusableElements (classifier_of t w) d w →
  attribute_at (JSCarousel.move_window dist t w d) e "tabindex"
  = Some (tabindex_of t w).
Proof.
  intros He. rewrite move_window_mark. apply mark_window_tabindex.
  - apply focus_selector_classifier.
  - by rewrite move_window_found.
Qed.

Lemma move_window_frame (w i : Ref) (d : Document) :
  is_descendant d w i = false →
  focus_view <$> JSCarousel.move_window dist t w d !! i
  = focus_view <$> d !! i.
Proof.
  intros Hi. rewrite move_window_mark. rewrite mark_window_frame.
  - rewrite <- !list_lookup_fmap. by rewrite setStyle_left_focus_view.
  - apply focus_selector_classifier.
  - by rewrite (same_skeleton_is_descendant d _ (setStyle_skeleton _ _ _ _)).
Qed.

(** *** Over a list of windows *)

Lemma move_windows_skeleton (ws : list Ref) (d : Document) :
  skeleton <$> move_windows dist t ws d = skeleton <$> d.
Proof. apply foldl_move_window_skeleton. Qed.

Lemma move_windows_is_Some (ws : list Ref) (i : Ref) (d : Document) :
  is_Some (move_windows dist t ws d !! i) ↔ is_Some (d !! i).
Proof.
  by rewrite !lookup_lt_is_Some,
             (same_skeleton_length d _ (move_windows_skeleton ws d)).
Qed.

Lemma move_windows_cons (w : Ref) (ws : list Ref) (d : Document) :
  move_windows dist t (w :: ws) d
  = move_windows dist t ws (JSCarousel.move_window dist t w d).
Proof. reflexivity. Qed.

Lemma move_windows_app (ws1 ws2 : list Ref) (d : Document) :
  move_windows dist t (ws1 ++ ws2) d
  = move_windows dist t ws2 (move_windows dist t ws1 d).
Proof. apply foldl_app. Qed.

Lemma move_windows_style_out (ws : list Ref) (j : Ref) (p : string)
    (d : Document) :
  j ∉ ws → style_at (move_windows dist t ws d) j p = style_at d j p.
Proof.
  revert d. induction ws as [|w ws IH]; intros d Hj; [done|].
  rewrite move_windows_cons, IH by (intros H; apply Hj; by apply list_elem_of_further).
  apply move_window_style_other. intros ->. apply Hj, list_elem_of_here.
Qed.

Lemma move_windows_aria_hidden_out (ws : list Ref) (j : Ref) (d : Document) :
  j ∉ ws →
  attribute_at (move_windows dist t ws d) j "aria-hidden"
  = attribute_at d j "aria-hidden".
Proof.
  revert d. induction ws as [|w ws IH]; intros d Hj; [done|].
  rewrite move_windows_cons, IH by (intros H; apply Hj; by apply list_elem_of_further).
  apply move_window_aria_hidden_other. intros ->. apply Hj, list_elem_of_here.
Qed.

Lemma move_windows_frame (ws : list Ref) (i : Ref) (d : Document) :
  (∀ q, q ∈ ws → is_descendant d q i = false) →
  focus_view <$> move_windows dist t ws d !! i = focus_view <$> d !! i.
Proof.
  revert d. induction ws as [|w ws IH]; intros d Hq; [done|].
  rewrite move_windows_cons, IH.
  - apply move_window_frame, Hq, list_elem_of_here.
  - intros q Hin.
    rewrite (same_skeleton_is_descendant d _ (move_window_skeleton _ _ _ _)).
    by apply Hq, list_elem_of_further.
Qed.

End MoveWindow.

(** ** The state after [move] *)

Lemma NoDup_split_at {A} (l : list A) (x : A) :
  NoDup l → x ∈ l → ∃ l1 l2, l = (l1 ++ x :: l2)%list ∧ (x ∉ l1) ∧ (x ∉ l2).
Proof.
  intros Hn Hx. apply list_elem_of_split in Hx as (l1 & l2 & ->).
  exists l1, l2. split; [done|].
  apply NoDup_app in Hn as (_ & H1 & H2). apply NoDup_cons in H2 as [H2 _].
  split; [|done]. intros Hin. apply (H1 x Hin), list_elem_of_here.
Qed.

Lemma querySelectorAll_NoDup (d : Document) (root : Ref) (sel : Selector) :
  NoDup (querySelectorAll d root sel).
Proof. unfold querySelectorAll. apply NoDup_filter, NoDup_seq. Qed.

Lemma querySelectorAll_is_Some (d : Document) (root : Ref) (sel : Selector)
    (i : Ref) :
  i ∈ querySelectorAll d root sel → is_Some (d !! i).
Proof.
  unfold querySelectorAll. rewrite list_elem_of_filter, elem_of_seq.
  intros [_ ?]. apply lookup_lt_is_Some. lia.
Qed.

Section MoveWindows.

Variables (dist : number) (t : option Ref) (ws : list Ref) (d : Document).
Hypothesis ws_NoDup : NoDup ws.

Lemma move_windows_left (w : Ref) :
  w ∈ ws → is_Some (d !! w) →
  style_at (move_windows dist t ws d) w "left"
  = assigned (Px (Number.add (parseFloat (style_at d w "left")) dist))
      (style_at d w "left").
Proof.
  intros Hw Hd.
  destruct (NoDup_split_at ws w ws_NoDup Hw) as (pre & post & -> & H1 & H2).
  rewrite move_windows_app, move_windows_cons.
  rewrite move_windows_style_out by done.
  rewrite move_window_left by (by apply move_windows_is_Some).
  by rewrite move_windows_style_out.
Qed.

Lemma move_windows_aria_hidden (w : Ref) :
  w ∈ ws → is_Some (d !! w) →
  attribute_at (move_windows dist t ws d) w "aria-hidden"
  = Some (hidden_of t w).
Proof.
  intros Hw Hd.
  destruct (NoDup_split_at ws w ws_NoDup Hw) as (pre & post & -> & H1 & H2).
  rewrite move_windows_app, move_windows_cons.
  rewrite move_windows_aria_hidden_out by done.
  apply move_window_aria_hidden. by apply move_windows_is_Some.
Qed.

Hypothesis ws_disjoint :
  ∀ p q i, p ∈ ws → q ∈ ws → p ≠ q →
           is_descendant d p i = true → is_descendant d q i = false.

Lemma move_windows_tabindex (w e : Ref) :
  w ∈ ws →
  e ∈ FocusableElement.getKeyboardFocusableElements (classifier_of t w) d w →
  attribute_at (move_windows dist t ws d) e "tabindex"
  = Some (tabindex_of t w).
Proof.
  intros Hw He.
  destruct (NoDup_split_at ws w ws_NoDup Hw) as (pre & post & E & H1 & H2).
  assert (Hother : ∀ q i, q ∈ pre ∨ q ∈ post → is_descendant d w i = true →
                          is_descendant d q i = false).
  { intros q i Hq Hi. apply (ws_disjoint w q i); try done.
    - rewrite E, elem_of_app, elem_of_cons. tauto.
    - intros <-. tauto. }
  rewrite E, move_windows_app, move_windows_cons.
  set (d1 := move_windows dist t pre d).
  assert (Hsk1 : skeleton <$> d1 = skeleton <$> d)
    by apply move_windows_skeleton.
  assert (Hfound :
            FocusableElement.getKeyboardFocusableElements (classifier_of t w) d1 w
            = FocusableElement.getKeyboardFocusableElements (classifier_of t w)
                d w).
  { apply getKeyboardFocusableElements_congr;
      [apply focus_selector_classifier | done |].
    intros i Hi. apply move_windows_frame. intros q Hq. apply Hother; tauto. }
  set (d2 := JSCarousel.move_window dist t w d1).
  assert (Hsk2 : skeleton <$> d2 = skeleton <$> d)
    by (subst d2; by rewrite move_window_skeleton).
  assert (H2e : attribute_at d2 e "tabindex" = Some (tabindex_of t w))
    by (apply move_window_tabindex; by rewrite Hfound).
  rewrite <- H2e. apply focus_view_lookup_attribute; [|done].
  apply move_windows_frame. intros q Hq.
  rewrite (same_skeleton_is_descendant d d2 Hsk2).
  apply Hother; [tauto|].
  by apply getKeyboardFocusableElements_descendant in He as [? _].
Qed.

End MoveWindows.

(** C1, as the code has it: when the distance is not zero, [move] assigns to
    the left offset of every panel its sum with
    [width × (current_index − index)], which shifts the offset when the sum is
    a number and leaves it as it is when the sum is [NaN]; it sets
    [aria-hidden] to ["false"] on the targeted panel and to ["true"] on every
    other one; and, when no element lies inside two panels, the elements that
    the classifier finds in a panel that is not the target end with
    [tabindex="-1"], and those it finds in the targeted panel, with the
    selector on [tabindex="-1"], end with [tabindex="0"]. *)
Theorem move_transition (s : State) (index : Z) :
  let c := this s in
  let d := document (page s) in
  let panels := querySelectorAll d (container c) JSCarousel.carousel_content in
  let target := item panels index in
  let dist := Number.mul (width c) (Number.of_int (current_index c - index)) in
  let d' := document (page (JSCarousel.move index s).2) in
  Number.strict_neq_zero dist = true →
  (∀ w, w ∈ panels →
        style_at d' w "left"
        = assigned (Px (Number.add (parseFloat (style_at d w "left")) dist))
            (style_at d w "left")
        ∧ attribute_at d' w "aria-hidden"
          = Some (if bool_decide (Some w = target) then "false" else "true"))
  ∧ (panels_disjoint d panels = true →
     (∀ w e, w ∈ panels → Some w ≠ target →
             e ∈ FocusableElement.getKeyboardFocusableElements
                   FocusableElement.new d w →
             attribute_at d' e "tabindex" = Some "-1")
     ∧ (∀ w e, target = Some w →
               e ∈ FocusableElement.getKeyboardFocusableElements revealable d w →
               attribute_at d' e "tabindex" = Some "0")).
Proof.
  intros c d panels target dist d' Hdist.
  assert (Hd' : d' = move_windows dist target panels d).
  { subst d'. rewrite move_run. cbn. unfold move_document.
    fold c d panels target. change (JSCarousel.distance c index) with dist.
    by rewrite Hdist. }
  rewrite Hd'. pose proof (querySelectorAll_NoDup d (container c)
                             JSCarousel.carousel_content) as Hnd.
  fold panels in Hnd. split.
  - intros w Hw.
    pose proof (querySelectorAll_is_Some _ _ _ _ Hw) as Hs.
    split; [by apply move_windows_left | by apply move_windows_aria_hidden].
  - intros Hdj.
    assert (Hdisj : ∀ p q i, p ∈ panels → q ∈ panels → p ≠ q →
                             is_descendant d p i = true →
                             is_descendant d q i = false).
    { intros p q i. by apply panels_disjoint_spec. }
    split.
    + intros w e Hw Ht He.
      pose proof (move_windows_tabindex dist target panels d Hnd Hdisj w e Hw)
        as H. unfold classifier_of, tabindex_of in H.
      rewrite bool_decide_eq_false_2 in H by done. by apply H.
    + intros w e Ht He.
      assert (Hw : w ∈ panels) by (by apply (item_elem_of _ index)).
      pose proof (move_windows_tabindex dist target panels d Hnd Hdisj w e Hw)
        as H. unfold classifier_of, tabindex_of in H.
      rewrite bool_decide_eq_true_2 in H by done. by apply H.
Qed.

Lemma move_transition_witness :
  style_at (document (page (JSCarousel.move 1 readme_state).2)) 7%nat "left"
  = Some (Px (Number.add (Num 300) (Num (-300))))
  ∧ attribute_at (document (page (JSCarousel.move 1 readme_state).2)) 7%nat
      "aria-hidden" = Some "false"
  ∧ attribute_at (document (page (JSCarousel.move 1 readme_state).2)) 6%nat
      "tabindex" = Some "-1"
  ∧ attribute_at (document (page (JSCarousel.move 1 readme_state).2)) 10%nat
      "tabindex" = Some "0".
Proof.
  destruct (move_transition readme_state 1) as [H1 H2];
    [vm_compute; reflexivity|].
  destruct H2 as [Hh Hs]; [vm_compute; reflexivity|].
  assert (H7 : 7%nat ∈ querySelectorAll (document (page readme_state))
                         (container (this readme_state))
                         JSCarousel.carousel_content)
    by (vm_compute; apply list_elem_of_further, list_elem_of_here).
  assert (H3 : 3%nat ∈ querySelectorAll (document (page readme_state))
                         (container (this readme_state))
                         JSCarousel.carousel_content)
    by (vm_compute; apply list_elem_of_here).
  split; [|split; [|split]].
  - rewrite (proj1 (H1 7%nat H7)). vm_compute. reflexivity.
  - exact (proj2 (H1 7%nat H7)).
  - apply (Hh 3%nat 6%nat H3);
      [vm_compute; discriminate | vm_compute; apply list_elem_of_here].
  - apply (Hs 7%nat 10%nat);
      [vm_compute; reflexivity | vm_compute; apply list_elem_of_here].
Defined.

(** C1, as stated, fails in two places.  On the page of the README
    constructed while it is not rendered the distance is [NaN], which is
    different from zero, and the left offset of a panel is not the sum: it
    stays unset.  On a page with a panel inside a panel, and a distance of
    300, the link of the inner panel is found in the outer panel, which is
    not the target, and it ends with [tabindex="0"]: showing the inner panel
    comes after hiding the outer one. *)
Lemma move_transition_exceptions :
  ¬ (∀ (s : State) (index : Z) (w : Ref),
       Number.strict_neq_zero (JSCarousel.distance (this s) index) = true →
       w ∈ querySelectorAll (document (page s)) (container (this s))
             JSCarousel.carousel_content →
       style_at (document (page (JSCarousel.move index s).2)) w "left"
       = Some (Px (Number.add (parseFloat (style_at (document (page s)) w "left"))
                     (JSCarousel.distance (this s) index))))
  ∧ ¬ (∀ (s : State) (index : Z) (w e : Ref),
         Number.strict_neq_zero (JSCarousel.distance (this s) index) = true →
         w ∈ querySelectorAll (document (page s)) (container (this s))
               JSCarousel.carousel_content →
         Some w ≠ item (querySelectorAll (document (page s)) (container (this s))
                          JSCarousel.carousel_content) index →
         e ∈ FocusableElement.getKeyboardFocusableElements FocusableElement.new
               (document (page s)) w →
         attribute_at (document (page (JSCarousel.move index s).2)) e "tabindex"
         = Some "-1").
Proof.
  split.
  - intros H.
    specialize (H (constructed 0%nat None (not_rendered readme)) 1 3%nat).
    assert (H1 : Number.strict_neq_zero
                   (JSCarousel.distance
                      (this (constructed 0%nat None (not_rendered readme))) 1)
                 = true)
      by (vm_compute; reflexivity).
    assert (H2 : 3%nat ∈ querySelectorAll
                   (document (page (constructed 0%nat None (not_rendered readme))))
                   (container (this (constructed 0%nat None (not_rendered readme))))
                   JSCarousel.carousel_content)
      by (vm_compute; apply list_elem_of_here).
    specialize (H H1 H2). clear H1 H2. vm_compute in H. discriminate H.
  - intros H.
    specialize (H (constructed 0%nat options_without_tabs page_nested_panels)
                  1 1%nat 3%nat).
    assert (H1 : Number.strict_neq_zero
                   (JSCarousel.distance
                      (this (constructed 0%nat options_without_tabs
                               page_nested_panels)) 1)
                 = true)
      by (vm_compute; reflexivity).
    assert (H2 : 1%nat ∈ querySelectorAll
                   (document (page (constructed 0%nat options_without_tabs
                                      page_nested_panels)))
                   (container (this (constructed 0%nat options_without_tabs
                                       page_nested_panels)))
                   JSCarousel.carousel_content)
      by (vm_compute; apply list_elem_of_here).
    assert (H3 : Some 1%nat
                 ≠ item (querySelectorAll
                           (document (page (constructed 0%nat options_without_tabs
                                              page_nested_panels)))
                           (container (this (constructed 0%nat options_without_tabs
                                               page_nested_panels)))
                           JSCarousel.carousel_content) 1)
      by (vm_compute; discriminate).
    assert (H4 : 3%nat ∈ FocusableElement.getKeyboardFocusableElements
                   FocusableElement.new
                   (document (page (constructed 0%nat options_without_tabs
                                      page_nested_panels))) 1%nat)
      by (vm_compute; apply list_elem_of_here).
    specialize (H H1 H2 H3 H4). clear H1 H2 H3 H4. vm_compute in H.
    discriminate H.
Qed.

(** ** Outside the hypotheses *)

(** A width that is not a number makes every distance [NaN], which is
    different from zero: the loop of [move] then runs on every call. *)
Lemma distance_nan (c : Carousel) (index : Z) :
  width c = NaN →
  Number.strict_neq_zero (JSCarousel.distance c index) = true.
Proof. unfold JSCarousel.distance. by intros ->. Qed.

(** With a tab item that lacks its [pos], [next] throws as soon as the index
    it activates is inside the tab list, and [current_index] stays. *)
Lemma next_throws (s : State) :
  is_Some (item (tabs (this s)) (next_index (this s))) →
  tabs_well_formed (this s) (document (page s)) = false →
  ∃ s', JSCarousel.next s = (Throw JSCarousel.empty_tab_message, s')
        ∧ this s' = this s.
Proof.
  intros [tab Hi] Hw. rewrite next_run.
  pose proof (active_panel_result (next_index (this s)) s) as Hr.
  pose proof (active_panel_same_this (next_index (this s)) s) as Ht.
  rewrite Hi, Hw in Hr.
  destruct (JSCarousel.active_panel _ s) as [r s']. cbn in Hr, Ht. subst r.
  by exists s'.
Qed.

(** * The rest of the controller *)

(** ** What the constructor leaves *)

Lemma for_of_positions_document {A} (l : list A)
    (f : nat -> A -> Document -> Document) (ks : list nat) (s : State) :
  (∀ k, k ∈ ks → is_Some (l !! k)) →
  for_of ks (fun i =>
    match l !! i with
    | Some w => modify_document (f i w)
    | None => throw "TypeError"
    end) s
  = (Normal tt,
     mkState (this s)
       (mkPage (foldl (fun d i => match l !! i with
                                  | Some w => f i w d
                                  | None => d
                                  end) (document (page s)) ks)
               (listeners (page s)) (intervals (page s)))).
Proof.
  revert s. induction ks as [|k ks IH]; intros s Hk.
  - by destruct s as [c []].
  - rewrite for_of_cons, bind_run.
    destruct (Hk k) as [w Hw]; [apply list_elem_of_here|].
    rewrite Hw. cbn [modify_document]. rewrite IH.
    + cbn. by rewrite Hw.
    + intros j Hj. apply Hk. by apply list_elem_of_further.
Qed.

Lemma for_of_positions_listeners {A} (l : list A)
    (g : nat -> A -> EventTarget * string * Handler) (ks : list nat)
    (s : State) :
  (∀ k, k ∈ ks → is_Some (l !! k)) →
  for_of ks (fun i =>
    match l !! i with
    | Some w => addEventListener (g i w).1.1 (g i w).1.2 (g i w).2
    | None => throw "TypeError"
    end) s
  = (Normal tt,
     mkState (this s)
       (mkPage (document (page s))
               (foldl (fun ls i => match l !! i with
                                   | Some w => g i w :: ls
                                   | None => ls
                                   end) (listeners (page s)) ks)
               (intervals (page s)))).
Proof.
  revert s. induction ks as [|k ks IH]; intros s Hk.
  - by destruct s as [c []].
  - rewrite for_of_cons, bind_run.
    destruct (Hk k) as [w Hw]; [apply list_elem_of_here|].
    rewrite Hw. cbn [addEventListener]. rewrite IH.
    + cbn. rewrite Hw. by destruct (g k w) as [[? ?] ?].
    + intros j Hj. apply Hk. by apply list_elem_of_further.
Qed.

(** Pushing one entry per position of a list is pushing the indexed list,
    reversed. *)
Lemma foldl_push_positions {A B} (g : nat -> A -> B) (pre l : list A)
    (acc : list B) :
  foldl (fun ls i => match (pre ++ l)%list !! i with
                     | Some w => g i w :: ls
                     | None => ls
                     end) acc (seq (length pre) (length l))
  = (rev (imap (fun i => g (length pre + i)%nat) l) ++ acc)%list.
Proof.
  revert pre acc. induction l as [|x l IH]; intros pre acc; [done|].
  cbn [length seq foldl imap].
  rewrite lookup_app_r by lia. rewrite Nat.sub_diag. cbn [lookup list_lookup].
  replace (pre ++ x :: l)%list with ((pre ++ [x]) ++ l)%list
    by (by rewrite <- app_assoc).
  replace (S (length pre)) with (length (pre ++ [x])%list)
    by (rewrite length_app; cbn; lia).
  rewrite IH. cbn [rev]. rewrite <- app_assoc. cbn.
  rewrite Nat.add_0_r. f_equal. f_equal.
  apply imap_ext. intros i y _. cbn. rewrite length_app. cbn.
  f_equal. lia.
Qed.

Lemma _enable_tabs_buttons_explicit (s : State) :
  JSCarousel._enable_tabs_buttons s
  = (Normal tt,
     mkState (this s)
       (mkPage (document (page s))
          ((if allow_tabs (this s)
            then rev (imap (fun i tab => (OnElement tab, "click", ClickTab i))
                           (tabs (this s)))
            else []) ++ listeners (page s))%list
          (intervals (page s)))).
Proof.
  unfold JSCarousel._enable_tabs_buttons. rewrite bind_run. cbn [get_this truthy].
  rewrite andb_true_r. destruct (allow_tabs (this s)).
  - rewrite (for_of_positions_listeners (tabs (this s))
               (fun i tab => (OnElement tab, "click", ClickTab i)))
      by apply positions_in_range.
    pose proof (foldl_push_positions
                  (fun i tab => (OnElement tab, "click", ClickTab i))
                  [] (tabs (this s)) (listeners (page s))) as H.
    cbn [length app Nat.add] in H. by rewrite H.
  - by destruct s as [c []].
Qed.

Lemma _enable_navigation_buttons_explicit (s : State) (p n : Ref) :
  allow_navbuttons (this s) = true →
  buttons (this s) = (Some p, Some n) →
  JSCarousel._enable_navigation_buttons s
  = (Normal tt,
     mkState (this s)
       (mkPage (document (page s))
          ((OnElement p, "click", ClickPrevious)
           :: (OnElement n, "click", ClickNext) :: listeners (page s))
          (intervals (page s)))).
Proof.
  intros Ha Hb. unfold JSCarousel._enable_navigation_buttons.
  rewrite bind_run. cbn [get_this]. rewrite Ha, Hb. reflexivity.
Qed.

(** The constructor up to its callbacks part: on a page with a window it
    resolves the options, reads the width, lays the windows out and sets the
    bound of the index. *)
Lemma constructor_prefix (c : Ref) (options : option Options.t) (p : Page) :
  is_Some (querySelector (document p) c JSCarousel.carousel_content) →
  let car := constructed_object c options (document p) in
  JSCarousel.constructor options (mkState (JSCarousel.initial c) p)
  = constructor_events car
      (mkState car
         (mkPage
            (laid_out (width car)
               (querySelectorAll (document p) c JSCarousel.carousel_content)
               (document p))
            (listeners p) (intervals p))).
Proof.
  unfold constructed_object. intros [w Hw]. cbv zeta.
  unfold JSCarousel.constructor.
  rewrite bind_run. cbn [get_document]. rewrite bind_run.
  cbn [modify_this this page]. rewrite bind_run. cbn [get_this this].
  set (d := document p) in *.
  set (c0 := JSCarousel.configure options d (JSCarousel.initial c)) in *.
  change (container c0) with c.
  rewrite bind_run. rewrite Hw. unfold querySelector in Hw.
  set (windows := querySelectorAll d c JSCarousel.carousel_content) in *.
  rewrite Hw.
  cbn [modify_this this page]. rewrite bind_run. cbn [get_this this].
  cbn [mbind option_bind].
  set (c1 := with_width _ c0). change (container c1) with c. fold windows.
  rewrite bind_run. cbn [truthy].
  rewrite (for_of_positions_document windows
             (fun i w0 => setStyle w0 "left"
                (Px (Number.mul (width c1) (Number.of_int (Z.of_nat i))))))
    by apply positions_in_range.
  cbn [this page document listeners intervals].
  rewrite bind_run.
  match goal with
  | |- context [(if ?b then modify_this (with_max_index ?a1)
                 else modify_this (with_max_index ?a2)) ?s] =>
      replace ((if b then modify_this (with_max_index a1)
                else modify_this (with_max_index a2)) s)
        with (modify_this (with_max_index (if b then a1 else a2)) s)
        by (by destruct b)
  end.
  cbn [modify_this this page].
  change (allow_tabs c1) with (allow_tabs c0).
  change (tabs c1) with (tabs c0).
  cbn [truthy]. rewrite andb_true_r.
  assert (Hm : (if allow_tabs c0 then Z.of_nat (length (tabs c0)) - 1
                else Z.of_nat (length windows) - 1)
               = (if allow_tabs c0 then Z.of_nat (length (tabs c0))
                  else Z.of_nat (length windows)) - 1)
    by (by destruct (allow_tabs c0)).
  rewrite Hm. unfold constructor_events. cbn [truthy].
  by rewrite andb_true_r.
Qed.

Lemma constructor_events_run (c : Carousel) (s : State) (p n : Ref) :
  this s = c →
  allow_navbuttons c = false ∨ buttons c = (Some p, Some n) →
  constructor_events c s
  = (Normal tt,
     mkState c
       (mkPage (document (page s)) (registered c (listeners (page s)))
          ((if allow_autonav c then [(AutoNav, 1000)] else [])
           ++ intervals (page s))%list)).
Proof.
  intros <- Hb. destruct s as [c [d ls its]]. cbn [this page] in *.
  unfold constructor_events, registered. cbn [truthy document listeners intervals].
  rewrite andb_true_r, bind_run.
  assert (Hnav :
    (if allow_navbuttons c then JSCarousel._enable_navigation_buttons
     else mret tt) (mkState c (mkPage d ls its))
    = (Normal tt,
       mkState c
         (mkPage d
            ((if allow_navbuttons c
              then match (buttons c).1, (buttons c).2 with
                   | Some p, Some n =>
                       [(OnElement p, "click", ClickPrevious);
                        (OnElement n, "click", ClickNext)]
                   | _, _ => []
                   end
              else []) ++ ls)%list its))).
  { destruct (allow_navbuttons c) eqn:Hn; [|done].
    destruct Hb as [?|Hb]; [done|].
    rewrite (_enable_navigation_buttons_explicit _ p n) by done.
    by rewrite Hb. }
  rewrite Hnav. clear Hnav. rewrite bind_run.
  assert (Htab : ∀ ls',
    (if allow_tabs c then JSCarousel._enable_tabs_buttons else mret tt)
      (mkState c (mkPage d ls' its))
    = (Normal tt,
       mkState c
         (mkPage d
            ((if allow_tabs c
              then rev (imap (fun i tab => (OnElement tab, "click", ClickTab i))
                             (tabs c))
              else []) ++ ls')%list its))).
  { intros ls'. destruct (allow_tabs c) eqn:Ht; [|done].
    rewrite _enable_tabs_buttons_explicit. cbn [this page listeners]. by rewrite Ht. }
  rewrite Htab. clear Htab. rewrite bind_run.
  destruct (disable_keyboard_navigation c), (allow_autonav c); reflexivity.
Qed.

(** The state that a successful construction leaves. *)
Lemma constructor_run (c : Ref) (options : option Options.t) (p : Page) :
  construction_error (Some c) options (document p) = None →
  let car := constructed_object c options (document p) in
  JSCarousel.constructor options (mkState (JSCarousel.initial c) p)
  = (Normal tt,
     mkState car
       (mkPage
          (laid_out (width car)
             (querySelectorAll (document p) c JSCarousel.carousel_content)
             (document p))
          (registered car (listeners p))
          ((if allow_autonav car then [(AutoNav, 1000)] else [])
           ++ intervals p)%list)).
Proof.
  unfold construction_error. intros E. cbv zeta.
  destruct (querySelector (document p) c JSCarousel.carousel_content)
    as [w|] eqn:Hw; [|done].
  rewrite constructor_prefix by (by rewrite Hw).
  set (car := constructed_object c options (document p)).
  change (allow_navbuttons (JSCarousel.configure options (document p)
                              (JSCarousel.initial c)))
    with (allow_navbuttons car) in E.
  change (buttons (JSCarousel.configure options (document p)
                     (JSCarousel.initial c)))
    with (buttons car) in E.
  destruct (allow_navbuttons car) eqn:Hn.
  - destruct (buttons car) as [[pb|] [nb|]] eqn:Hb; cbn in E; try done.
    by rewrite (constructor_events_run car _ pb nb); [| |right].
  - by rewrite (constructor_events_run car _ 0%nat 0%nat); [| |left].
Qed.

(** *** The left offsets *)

Lemma laid_out_from (width : number) (pre l : list Ref) (d : Document) :
  NoDup (pre ++ l)%list →
  let d' := foldl (fun d i =>
                     match (pre ++ l)%list !! i with
                     | Some w =>
                         setStyle w "left"
                           (Px (Number.mul width (Number.of_int (Z.of_nat i)))) d
                     | None => d
                     end) d (seq (length pre) (length l)) in
  (∀ k w, l !! k = Some w → is_Some (d !! w) →
          style_at d' w "left"
          = assigned (Px (Number.mul width
                            (Number.of_int (Z.of_nat (length pre + k)))))
              (style_at d w "left"))
  ∧ (∀ i q, i ∉ l ∨ q ≠ "left" → style_at d' i q = style_at d i q).
Proof.
  revert pre d. induction l as [|x l IH]; intros pre d Hnd; cbv zeta.
  - split; [by intros k w|done].
  - cbn [length seq foldl].
    rewrite lookup_app_r by lia. rewrite Nat.sub_diag. cbn [lookup list_lookup].
    replace (pre ++ x :: l)%list with ((pre ++ [x]) ++ l)%list in *
      by (by rewrite <- app_assoc).
    replace (S (length pre)) with (length (pre ++ [x])%list)
      by (rewrite length_app; cbn; lia).
    set (d1 := setStyle x "left" _ d).
    destruct (IH (pre ++ [x])%list d1 Hnd) as [H1 H2].
    assert (Hx : x ∉ l).
    { apply NoDup_app in Hnd as (_ & Hd & _). apply Hd.
      rewrite elem_of_app, list_elem_of_singleton. by right. }
    split.
    + intros [|k] w Hk Hw; cbn in Hk.
      * injection Hk as ->. rewrite H2 by (by left). subst d1.
        rewrite setStyle_style_eq by done. by rewrite Nat.add_0_r.
      * rewrite H1 with (k := k); [|done|by apply setStyle_lookup_is_Some].
        rewrite length_app. cbn [length].
        replace (length pre + 1 + k)%nat with (length pre + S k)%nat by lia.
        f_equal. subst d1. apply setStyle_style_ne. left. intros ->.
        apply Hx. apply list_elem_of_lookup. eauto.
    + intros i q Hi. rewrite H2.
      * subst d1. apply setStyle_style_ne.
        destruct Hi as [Hi|Hi]; [left|by right].
        intros ->. apply Hi, list_elem_of_here.
      * destruct Hi as [Hi|Hi]; [left|by right].
        intros Hin. apply Hi. by apply list_elem_of_further.
Qed.

Lemma laid_out_left (width : number) (windows : list Ref) (d : Document)
    (k : nat) (w : Ref) :
  NoDup windows → windows !! k = Some w → is_Some (d !! w) →
  style_at (laid_out width windows d) w "left"
  = assigned (Px (Number.mul width (Number.of_int (Z.of_nat k))))
      (style_at d w "left").
Proof.
  intros Hnd Hk Hw.
  by destruct (laid_out_from width [] windows d Hnd) as [H _]; apply H.
Qed.

Lemma laid_out_style_other (width : number) (windows : list Ref)
    (d : Document) (i : Ref) (q : string) :
  NoDup windows → i ∉ windows ∨ q ≠ "left" →
  style_at (laid_out width windows d) i q = style_at d i q.
Proof.
  intros Hnd Hi.
  by destruct (laid_out_from width [] windows d Hnd) as [_ H]; apply H.
Qed.

Lemma new_run (c : Ref) (options : option Options.t) (p : Page)
    (car : Carousel) (p' : Page) :
  JSCarousel.new (Some c) options p = (Normal car, p') →
  car = constructed_object c options (document p)
  ∧ p' = mkPage
           (laid_out (width car)
              (querySelectorAll (document p) c JSCarousel.carousel_content)
              (document p))
           (registered car (listeners p))
           ((if allow_autonav car then [(AutoNav, 1000)] else [])
            ++ intervals p)%list.
Proof.
  intros Hnew.
  destruct (construction_error (Some c) options (document p)) as [msg|] eqn:E.
  { apply new_throws in E. by rewrite Hnew in E. }
  unfold JSCarousel.new in Hnew. rewrite (constructor_run c options p E) in Hnew.
  by injection Hnew as <- <-.
Qed.

(** X1: the object and the layout after a successful construction.  The
    index and the delay start at 0; the width is the computed width of the
    first panel, read as a number; [max_index] is the number of tab items
    minus 1 when the tabs are enabled and the number of panels minus 1
    otherwise; the panel at position [k] is assigned the left offset
    [width × k], which sets it when the width is a number and leaves the
    offset of the markup when the width is [NaN]; and no other inline style
    is written. *)
Theorem construction_layout (c : Ref) (options : option Options.t) (p : Page)
    (car : Carousel) (p' : Page) :
  JSCarousel.new (Some c) options p = (Normal car, p') →
  let d := document p in
  let panels := querySelectorAll d c JSCarousel.carousel_content in
  current_index car = 0
  ∧ current_delay car = 0
  ∧ width car
    = parseFloat (head panels ≫= fun w =>
                  d !! w ≫= fun e => computedStyle e !! "width")
  ∧ max_index car
    = (if allow_tabs car then Z.of_nat (length (tabs car))
       else Z.of_nat (length panels)) - 1
  ∧ (∀ (k : nat) (w : Ref),
       panels !! k = Some w →
       style_at (document p') w "left"
       = assigned (Px (Number.mul (width car) (Number.of_int (Z.of_nat k))))
           (style_at d w "left"))
  ∧ (∀ (i : Ref) (q : string),
       i ∉ panels ∨ q ≠ "left" →
       style_at (document p') i q = style_at d i q).
Proof.
  intros Hnew d panels. apply new_run in Hnew as [Hc ->].
  cbn [document].
  assert (Hnd : NoDup panels) by apply querySelectorAll_NoDup.
  split; [by rewrite Hc|]. split; [by rewrite Hc|].
  split; [by rewrite Hc|]. split; [by rewrite Hc|]. split.
  - intros k w Hk. apply laid_out_left; [done..|].
    apply (querySelectorAll_is_Some d c JSCarousel.carousel_content).
    apply list_elem_of_lookup. eauto.
  - intros i q Hi. by apply laid_out_style_other.
Qed.

Lemma construction_layout_witness :
  max_index (this readme_state) = 2
  ∧ style_at (document (page readme_state)) 11%nat "left"
    = Some (Px (Number.mul (Num 300) (Number.of_int 2))).
Proof.
  assert (E : JSCarousel.new (Some 0%nat) None (mkPage readme [] [])
              = (Normal (this readme_state), page readme_state))
    by (vm_compute; reflexivity).
  destruct (construction_layout _ _ _ _ _ E) as (_ & _ & _ & Hm & Hl & _).
  split.
  - rewrite Hm. vm_compute. reflexivity.
  - rewrite (Hl 2%nat 11%nat) by (vm_compute; reflexivity).
    vm_compute. reflexivity.
Defined.

(** X2: the callbacks after a successful construction, in front of those
    the page already had: the keydown listener of the window unless the
    keyboard is disabled; one click listener per tab item, carrying the
    position of the item, when the tabs are enabled and none otherwise; the
    click listeners of the two buttons when the buttons are enabled; and one
    interval of 1000 ms when the automatic navigation is enabled. *)
Theorem construction_registers (c : Ref) (options : option Options.t)
    (p : Page) (car : Carousel) (p' : Page) :
  JSCarousel.new (Some c) options p = (Normal car, p') →
  listeners p' = registered car (listeners p)
  ∧ intervals p'
    = ((if allow_autonav car then [(AutoNav, 1000)] else []) ++ intervals p)%list.
Proof. intros Hnew. by apply new_run in Hnew as [Hc ->]. Qed.

Lemma construction_registers_witness :
  listeners (page readme_state)
  = [ (OnWindow, "keydown", KeyDown);
      (OnElement 21%nat, "click", ClickTab 2);
      (OnElement 19%nat, "click", ClickTab 1);
      (OnElement 17%nat, "click", ClickTab 0);
      (OnElement 1%nat, "click", ClickPrevious);
      (OnElement 15%nat, "click", ClickNext) ]
  ∧ intervals (page readme_state) = [(AutoNav, 1000)].
Proof.
  assert (E : JSCarousel.new (Some 0%nat) None (mkPage readme [] [])
              = (Normal (this readme_state), page readme_state))
    by (vm_compute; reflexivity).
  destruct (construction_registers _ _ _ _ _ E) as [Hl Hi].
  rewrite Hl, Hi. split; vm_compute; reflexivity.
Defined.
(** *** What a failed construction leaves *)

Lemma constructor_no_window (c : Ref) (options : option Options.t) (p : Page) :
  querySelector (document p) c JSCarousel.carousel_content = None →
  JSCarousel.new (Some c) options p = (Throw JSCarousel.no_window_message, p).
Proof.
  intros Hw. unfold JSCarousel.new, JSCarousel.constructor.
  rewrite bind_run. cbn [get_document]. rewrite bind_run.
  cbn [modify_this this page]. rewrite bind_run. cbn [get_this this].
  change (container (JSCarousel.configure options (document p)
                       (JSCarousel.initial c))) with c.
  rewrite bind_run, Hw. reflexivity.
Qed.

(** X3: what a construction that throws has already done.  Without a panel
    the page is untouched.  When the options ask for the buttons and the next
    button is missing, the panels are already laid out; when only the
    previous button is missing, the click listener of the next button is
    registered as well. *)
Theorem construction_failure (c : Ref) (options : option Options.t) (p : Page) :
  let d := document p in
  let panels := querySelectorAll d c JSCarousel.carousel_content in
  let car := constructed_object c options d in
  (panels = [] →
   JSCarousel.new (Some c) options p = (Throw JSCarousel.no_window_message, p))
  ∧ (panels ≠ [] →
     options ≫= Options.navigations_buttons = Some true →
     querySelector d c JSCarousel.carousel_next = None →
     JSCarousel.new (Some c) options p
     = (Throw "There is no next button.",
        mkPage (laid_out (width car) panels d) (listeners p) (intervals p)))
  ∧ (∀ n : Ref,
       panels ≠ [] →
       options ≫= Options.navigations_buttons = Some true →
       querySelector d c JSCarousel.carousel_next = Some n →
       querySelector d c JSCarousel.carousel_prev = None →
       JSCarousel.new (Some c) options p
       = (Throw "There is no previous button.",
          mkPage (laid_out (width car) panels d)
                 ((OnElement n, "click", ClickNext) :: listeners p)
                 (intervals p))).
Proof.
  intros d panels car.
  assert (Hsome : panels ≠ [] →
                  is_Some (querySelector d c JSCarousel.carousel_content)).
  { intros Hp. unfold querySelector. fold d panels.
    destruct panels; [done|by eexists]. }
  assert (Hnav : options ≫= Options.navigations_buttons = Some true →
                 allow_navbuttons car = true).
  { intros Ho. unfold car, constructed_object. cbn [allow_navbuttons with_max_index with_width].
    rewrite configure_allow_navbuttons. by rewrite Ho. }
  assert (Hb : buttons car = (querySelector d c JSCarousel.carousel_prev,
                              querySelector d c JSCarousel.carousel_next))
    by reflexivity.
  split; [|split].
  - intros Hp. apply constructor_no_window. by apply querySelector_None.
  - intros Hp Ho Hn. unfold JSCarousel.new.
    rewrite constructor_prefix by (by apply Hsome). fold d panels car.
    unfold constructor_events. rewrite bind_run, (Hnav Ho).
    unfold JSCarousel._enable_navigation_buttons. rewrite bind_run.
    cbn [get_this this]. rewrite (Hnav Ho), Hb, Hn. reflexivity.
  - intros n Hp Ho Hn Hpr. unfold JSCarousel.new.
    rewrite constructor_prefix by (by apply Hsome). fold d panels car.
    unfold constructor_events. rewrite bind_run, (Hnav Ho).
    unfold JSCarousel._enable_navigation_buttons. rewrite bind_run.
    cbn [get_this this]. rewrite (Hnav Ho), Hb, Hn, Hpr. reflexivity.
Qed.

Lemma construction_failure_witness :
  JSCarousel.new (Some 0%nat) (Some options_with_buttons)
    (mkPage page_next_only [] [])
  = (Throw "There is no previous button.",
     mkPage
       (laid_out
          (width (constructed_object 0%nat (Some options_with_buttons)
                    page_next_only))
          (querySelectorAll page_next_only 0%nat JSCarousel.carousel_content)
          page_next_only)
       [(OnElement 2%nat, "click", ClickNext)] []).
Proof.
  destruct (construction_failure 0%nat (Some options_with_buttons)
              (mkPage page_next_only [] [])) as (_ & _ & H).
  apply (H 2%nat); [vm_compute; discriminate | reflexivity
                   | vm_compute; reflexivity | vm_compute; reflexivity].
Defined.
(** ** What a callback does to the state *)

Lemma same_callbacks_refl s : same_callbacks s s.
Proof. by split. Qed.

Lemma same_callbacks_trans s1 s2 s3 :
  same_callbacks s1 s2 → same_callbacks s2 s3 → same_callbacks s1 s3.
Proof. intros [? ?] [? ?]. split; congruence. Qed.

Lemma same_callbacks_modify_document f :
  stable same_callbacks (modify_document f).
Proof. by intros s. Qed.

Lemma same_callbacks_modify_this f : stable same_callbacks (modify_this f).
Proof. by intros s. Qed.

Lemma select_tab_same_callbacks (c : Carousel) (index : Z) :
  stable same_callbacks (JSCarousel.select_tab c index).
Proof.
  unfold JSCarousel.select_tab, JSCarousel.deselect_tab.
  stable_with same_callbacks_refl same_callbacks_trans
    ltac:(apply same_callbacks_modify_document).
Qed.

Lemma select_tab_same_structure (c : Carousel) (index : Z) :
  stable same_structure (JSCarousel.select_tab c index).
Proof.
  unfold JSCarousel.select_tab, JSCarousel.deselect_tab. same_structure_tac.
Qed.

Lemma tab_written_refl (T : list Ref) (d : Document) : tab_written T d d.
Proof. by repeat split. Qed.

(** [active_panel] writes the tabs and then, unless it threw, moves the
    panels; it touches nothing else. *)
Lemma active_panel_effect (index : Z) (s : State) :
  ∃ d1, tab_written (tabs (this s)) (document (page s)) d1
        ∧ (JSCarousel.active_panel index s
           = (Normal tt,
              mkState (this s)
                (mkPage (move_document (this s) index d1)
                        (listeners (page s)) (intervals (page s))))
           ∨ JSCarousel.active_panel index s
             = (Throw JSCarousel.empty_tab_message,
                mkState (this s)
                  (mkPage d1 (listeners (page s)) (intervals (page s))))).
Proof.
  unfold JSCarousel.active_panel. rewrite bind_run. cbn [get_this].
  rewrite bind_run.
  pose proof (select_tab_writes (this s) index s) as [Hst Hat].
  pose proof (select_tab_same_this (this s) index s) as Hth.
  pose proof (select_tab_same_callbacks (this s) index s) as [Hl Hi].
  pose proof (select_tab_same_structure (this s) index s) as Hsk.
  pose proof (active_panel_result index s) as Hr.
  unfold JSCarousel.active_panel in Hr. rewrite bind_run in Hr.
  cbn [get_this] in Hr. rewrite bind_run in Hr.
  unfold same_this, same_structure in *.
  destruct (JSCarousel.select_tab (this s) index s) as [[[]|msg] [c1 [d1 ls its]]];
    cbn in *; subst c1 ls its; exists d1;
    (split; [split; [done|split; [done|by apply Hat]]|]).
  - left. by rewrite move_run.
  - right. destruct (item (tabs (this s)) index); [|done].
    destruct (tabs_well_formed _ _); [done|]. by injection Hr as ->.
Qed.

Lemma stays_refl (s : State) : stays s s.
Proof. repeat split. Qed.

(** The pattern of every navigating callback: [active_panel(index)], then
    the index, then the delay. *)
Lemma navigation_effect (index : Z) (s : State) :
  let s' := ((JSCarousel.active_panel index;;
              modify_this (with_current_index index));;
             modify_this (with_current_delay 0)) s in
  (is_throw s'.1 = true ∧ stays s s'.2)
  ∨ (is_throw s'.1 = false ∧ moves_to index s s'.2).
Proof.
  cbv zeta. rewrite bind_run, modify_after_active_panel.
  destruct (active_panel_effect index s) as (d1 & Hw & [E|E]); rewrite E.
  - right. split; [done|]. cbn. repeat split. by exists d1.
  - left. split; [done|]. split; [done|]. split; [done|]. by split.
Qed.

Lemma on_click_next_run (s : State) :
  JSCarousel.on_click_next s
  = ((JSCarousel.active_panel (next_index (this s));;
      modify_this (with_current_index (next_index (this s))));;
     modify_this (with_current_delay 0)) s.
Proof.
  unfold JSCarousel.on_click_next. rewrite !bind_run, next_run.
  pose proof (active_panel_same_this (next_index (this s)) s) as H.
  destruct (JSCarousel.active_panel _ s) as [[[]|msg] s']; [|done].
  cbn in H. unfold same_this in H. cbn. by rewrite H.
Qed.

Lemma on_click_previous_run (s : State) :
  JSCarousel.on_click_previous s
  = ((JSCarousel.active_panel (previous_index (this s));;
      modify_this (with_current_index (previous_index (this s))));;
     modify_this (with_current_delay 0)) s.
Proof.
  unfold JSCarousel.on_click_previous. rewrite !bind_run, previous_run.
  pose proof (active_panel_same_this (previous_index (this s)) s) as H.
  destruct (JSCarousel.active_panel _ s) as [[[]|msg] s']; [|done].
  cbn in H. unfold same_this in H. cbn. by rewrite H.
Qed.

Lemma on_interval_run (s : State) :
  JSCarousel.on_interval s
  = if current_delay (this s) >=? autonav_delay (this s)
    then JSCarousel.on_click_next s
    else (Normal tt,
          mkState (with_current_delay (current_delay (this s) + 1000) (this s))
                  (page s)).
Proof.
  unfold JSCarousel.on_interval. rewrite bind_run. cbn [get_this].
  by destruct (current_delay (this s) >=? autonav_delay (this s)).
Qed.

Lemma has_tabs_focus_run (a : option Ref) (s : State) :
  JSCarousel.has_tabs_focus a s
  = (Normal (allow_tabs (this s)
             && JSCarousel.holds_focus (tabs (this s)) a), s).
Proof.
  unfold JSCarousel.has_tabs_focus. rewrite bind_run. cbn [get_this truthy].
  rewrite andb_true_r.
  destruct (allow_tabs (this s)); [|done].
  by destruct (JSCarousel.holds_focus _ _).
Qed.

Lemma has_window_focus_run (a : option Ref) (s : State) :
  JSCarousel.has_window_focus a s
  = (Normal (JSCarousel.windows_hold_focus (document (page s))
               (querySelectorAll (document (page s)) (container (this s))
                  JSCarousel.carousel_content) a), s).
Proof.
  unfold JSCarousel.has_window_focus. rewrite bind_run. cbn [get_this].
  rewrite bind_run. cbn [get_document truthy].
  by destruct (JSCarousel.windows_hold_focus _ _ _).
Qed.

Lemma focus_current_tab_run (s : State) :
  JSCarousel.focus_current_tab s
  = (match item (tabs (this s)) (current_index (this s)) with
     | Some tab => Normal (JSCarousel.Focus tab)
     | None => Throw "TypeError"
     end, s).
Proof.
  unfold JSCarousel.focus_current_tab. rewrite bind_run. cbn [get_this].
  by destruct (item _ _).
Qed.

(** The state after a keydown: the one before, or the one that a click on
    the previous or on the next button would leave. *)
Lemma on_keydown_state (e : JSCarousel.KeyboardEvent) (a : option Ref)
    (s : State) :
  (JSCarousel.on_keydown e a s).2 = s
  ∨ (JSCarousel.on_keydown e a s).2 = (JSCarousel.on_click_previous s).2
  ∨ (JSCarousel.on_keydown e a s).2 = (JSCarousel.on_click_next s).2.
Proof.
  unfold JSCarousel.on_keydown.
  rewrite bind_run, has_tabs_focus_run, bind_run, has_window_focus_run.
  cbv zeta. rewrite bind_run.
  match goal with
  | |- context [(if ?b then ?x else ?y) s] =>
      set (calls := (if b then x else y) s)
  end.
  assert (Hc : (∃ l, calls = (Normal l, s)) ∨ calls = (Throw "TypeError", s)).
  { subst calls. destruct (_ && _ && _); [|left; by eexists].
    rewrite bind_run. cbn [get_this truthy]. rewrite bind_run.
    rewrite focus_current_tab_run.
    destruct (item _ _); [left; by eexists | by right]. }
  destruct Hc as [[l ->]| ->]; [|by left].
  destruct (allow_tabs (this s) && _); [|by left].
  rewrite bind_run.
  destruct (String.eqb (JSCarousel.key e) "ArrowLeft" || _) eqn:Hl.
  - right. left. unfold JSCarousel.on_click_previous.
    destruct ((JSCarousel.previous;; modify_this (with_current_delay 0)) s)
      as [[[]|msg] s1]; [|done].
    cbn [orb]. rewrite bind_run, focus_current_tab_run.
    by destruct (item _ _).
  - destruct (String.eqb (JSCarousel.key e) "ArrowRight" || _) eqn:Hr.
    + right. right. unfold JSCarousel.on_click_next.
      destruct ((JSCarousel.next;; modify_this (with_current_delay 0)) s)
        as [[[]|msg] s1]; [|done].
      cbn [orb]. rewrite bind_run, focus_current_tab_run.
      by destruct (item _ _).
    + by left.
Qed.

(** Every callback either stays or moves to the index it stands for. *)
Lemma fire_effect (h : Handler) (e : JSCarousel.KeyboardEvent)
    (a : option Ref) (s : State) :
  stays s (JSCarousel.fire h e a s).2
  ∨ ∃ index, target_of (this s) h index
             ∧ moves_to index s (JSCarousel.fire h e a s).2.
Proof.
  assert (Hn : ∀ index,
    let s' := ((JSCarousel.active_panel index;;
                modify_this (with_current_index index));;
               modify_this (with_current_delay 0)) s in
    stays s s'.2 ∨ moves_to index s s'.2).
  { intros index. destruct (navigation_effect index s) as [[_ ?]|[_ ?]]; eauto. }
  destruct h as [| |i| |]; cbn [JSCarousel.fire].
  - rewrite on_click_next_run.
    destruct (Hn (next_index (this s))); [by left|right; eexists; split; [|eassumption]; done].
  - rewrite on_click_previous_run.
    destruct (Hn (previous_index (this s))); [by left|right; eexists; split; [|eassumption]; done].
  - unfold JSCarousel.on_click_tab.
    assert (((JSCarousel.active_panel (Z.of_nat i);;
              modify_this (with_current_index (Z.of_nat i));;
              modify_this (with_current_delay 0)) s).2
            = (((JSCarousel.active_panel (Z.of_nat i);;
                 modify_this (with_current_index (Z.of_nat i)));;
                modify_this (with_current_delay 0)) s).2) as ->.
    { rewrite !bind_run.
      by destruct (JSCarousel.active_panel _ s) as [[[]|msg] s']. }
    destruct (Hn (Z.of_nat i)); [by left|right; eexists; split; [|eassumption]; done].
  - assert (((JSCarousel.on_keydown e a;; mret tt) s).2
            = (JSCarousel.on_keydown e a s).2) as ->.
    { rewrite bind_run.
      by destruct (JSCarousel.on_keydown e a s) as [[?|?] ?]. }
    destruct (on_keydown_state e a s) as [-> | [-> | ->]].
    + left. apply stays_refl.
    + rewrite on_click_previous_run.
      destruct (Hn (previous_index (this s))); [by left|right].
      eexists. split; [|done]. by right.
    + rewrite on_click_next_run.
      destruct (Hn (next_index (this s))); [by left|right].
      eexists. split; [|done]. by left.
  - rewrite on_interval_run.
    destruct (current_delay (this s) >=? autonav_delay (this s)).
    + rewrite on_click_next_run.
      destruct (Hn (next_index (this s))); [by left|right; eexists; split; [|eassumption]; done].
    + left. repeat split.
Qed.

(** X4: every callback, whether it returns or throws, either leaves the
    index where it is and writes at most [aria-selected] and [tabindex] on
    the tab items and the class [pos-active], or navigates to the index the
    callback stands for; it never writes the width, the bound of the index,
    the resolved options or the registered callbacks. *)
Theorem callback_effect (h : Handler) (e : JSCarousel.KeyboardEvent)
    (a : option Ref) (s : State) :
  stays s (JSCarousel.fire h e a s).2
  ∨ ∃ index, target_of (this s) h index
             ∧ moves_to index s (JSCarousel.fire h e a s).2.
Proof. apply fire_effect. Qed.

(** ** Invariants of the controller *)

Lemma settings_of_eq (c c' : Carousel) :
  settings_of c' = settings_of c →
  width c' = width c ∧ max_index c' = max_index c
  ∧ container c' = container c ∧ tabs c' = tabs c.
Proof.
  unfold settings_of, config_of. intros H.
  by injection H as -> -> -> -> _ _ _ _ _ _.
Qed.

(** An invariant of every callback holds after every sequence of
    callbacks. *)
Lemma run_events_invariant (I : State -> Prop)
    (ok : Handler -> Prop)
    (events : list (Handler * JSCarousel.KeyboardEvent * option Ref))
    (s : State) :
  (∀ h e a s, ok h → I s → I (JSCarousel.fire h e a s).2) →
  (∀ ev, ev ∈ events → ok ev.1.1) →
  I s → I (run_events events s).
Proof.
  intros Hstep. revert s. induction events as [|ev events IH]; intros s Hok Hs;
    [done|].
  cbn. apply IH.
  - intros ev' Hin. by apply Hok, list_elem_of_further.
  - apply Hstep; [|done]. apply Hok, list_elem_of_here.
Qed.

Lemma panels_of_stays (s s' : State) :
  settings_of (this s') = settings_of (this s) →
  skeleton <$> document (page s') = skeleton <$> document (page s) →
  panels_of s' = panels_of s.
Proof.
  intros Hc Hsk. apply settings_of_eq in Hc as (_ & _ & Hc & _).
  unfold panels_of. rewrite Hc.
  by apply same_skeleton_querySelectorAll.
Qed.

(** *** The index stays in the ring *)

Lemma next_index_in_ring (c : Carousel) :
  in_ring c → 0 ≤ next_index c ≤ max_index c.
Proof.
  unfold in_ring, next_index.
  destruct (Z.ltb_spec (current_index c) (max_index c)); lia.
Qed.

Lemma previous_index_in_ring (c : Carousel) :
  in_ring c → 0 ≤ previous_index c ≤ max_index c.
Proof.
  unfold in_ring, previous_index.
  destruct (Z.gtb_spec (current_index c) 0); lia.
Qed.

Lemma fire_in_ring (m : Z) (h : Handler) (e : JSCarousel.KeyboardEvent)
    (a : option Ref) (s : State) :
  (∀ i, h = ClickTab i → Z.of_nat i ≤ m) →
  in_ring (this s) ∧ max_index (this s) = m →
  in_ring (this (JSCarousel.fire h e a s).2)
  ∧ max_index (this (JSCarousel.fire h e a s).2) = m.
Proof.
  intros Hh [Hr Hm].
  destruct (fire_effect h e a s) as [(Hc & Hi & _)|(idx & Ht & Hc & Hi & _)];
    apply settings_of_eq in Hc as (_ & Hmax & _); unfold in_ring in *.
  - rewrite Hi, Hmax. by split.
  - rewrite Hi, Hmax. split; [|done].
    pose proof (next_index_in_ring (this s) Hr).
    pose proof (previous_index_in_ring (this s) Hr).
    destruct h as [| |i| |]; cbn in Ht; subst; try done.
    + specialize (Hh i eq_refl). lia.
    + by destruct Ht as [-> | ->].
Qed.

Lemma index_in_ring
    (events : list (Handler * JSCarousel.KeyboardEvent * option Ref))
    (s : State) :
  in_ring (this s) →
  (∀ ev i, ev ∈ events → ev.1.1 = ClickTab i →
           Z.of_nat i ≤ max_index (this s)) →
  in_ring (this (run_events events s))
  ∧ max_index (this (run_events events s)) = max_index (this s).
Proof.
  intros Hr Hev.
  apply (run_events_invariant
           (fun s' => in_ring (this s') ∧ max_index (this s') = max_index (this s))
           (fun h => ∀ i, h = ClickTab i → Z.of_nat i ≤ max_index (this s))).
  - intros h e a s' Hh Hs'. by apply fire_in_ring.
  - intros ev Hin i Hi. by apply (Hev ev).
  - by split.
Qed.

Lemma registered_click_tab (c : Carousel) (t : EventTarget) (ty : string)
    (i : nat) :
  (t, ty, ClickTab i) ∈ registered c [] →
  allow_tabs c = true ∧ (i < length (tabs c))%nat.
Proof.
  unfold registered. rewrite !elem_of_app. intros [H|[H|[H|H]]].
  - destruct (negb _); [|by apply not_elem_of_nil in H].
    apply list_elem_of_singleton in H. done.
  - destruct (allow_tabs c); [|by apply not_elem_of_nil in H].
    split; [done|]. apply list_elem_of_In, in_rev, list_elem_of_In in H.
    apply elem_of_lookup_imap_1 in H as (j & tab & Heq & Hj).
    injection Heq as _ _ ->. by apply lookup_lt_Some in Hj.
  - destruct (allow_navbuttons c); [|by apply not_elem_of_nil in H].
    destruct (buttons c) as [[p|] [n|]]; cbn in H;
      try (by apply not_elem_of_nil in H).
    apply elem_of_cons in H as [H|H]; [done|].
    apply list_elem_of_singleton in H. done.
  - by apply not_elem_of_nil in H.
Qed.

(** The index of a constructed carousel stays in the ring. *)
Lemma constructed_ring (c : Ref) (options : option Options.t)
    (p : Page) (car : Carousel) (p' : Page)
    (events : list (Handler * JSCarousel.KeyboardEvent * option Ref)) :
  JSCarousel.new (Some c) options p = (Normal car, p') →
  listeners p = [] →
  (allow_tabs car = true → tabs car ≠ []) →
  (∀ ev i, ev ∈ events → ev.1.1 = ClickTab i →
           ∃ t ty, (t, ty, ClickTab i) ∈ listeners p') →
  0 ≤ current_index (this (run_events events (mkState car p')))
    ≤ max_index car.
Proof.
  intros Hnew Hl Htabs Hev.
  pose proof (new_run _ _ _ _ _ Hnew) as [Hc Hp'].
  assert (Hi : current_index car = 0) by (by rewrite Hc).
  assert (Hm : max_index car
               = (if allow_tabs car then Z.of_nat (length (tabs car))
                  else Z.of_nat (length (querySelectorAll (document p) c
                                           JSCarousel.carousel_content))) - 1)
    by (by rewrite Hc).
  assert (Hreg : listeners p' = registered car []) by (by rewrite Hp', Hl).
  assert (Hpanels : querySelectorAll (document p) c JSCarousel.carousel_content
                    ≠ []).
  { intros Hp. apply querySelector_None in Hp.
    rewrite (constructor_no_window c options p Hp) in Hnew. done. }
  assert (Hmax : 0 ≤ max_index car).
  { rewrite Hm. destruct (allow_tabs car).
    - specialize (Htabs eq_refl). destruct (tabs car); [done|cbn; lia].
    - destruct (querySelectorAll _ _ _); [done|cbn; lia]. }
  destruct (index_in_ring events (mkState car p')) as [Hr Hmax'].
  - unfold in_ring. cbn [this]. lia.
  - intros ev i Hin Hev'. cbn [this].
    destruct (Hev ev i Hin Hev') as (t & ty & Hreg'). rewrite Hreg in Hreg'.
    apply registered_click_tab in Hreg' as [Ha Hlt].
    rewrite Hm, Ha. lia.
  - unfold in_ring in Hr. cbn [this] in Hmax'. by rewrite Hmax' in Hr.
Qed.

(** X5: from a successful construction on, whatever registered callbacks
    fire and whether they return or throw, [current_index] stays between 0
    and [max_index].  The page is taken without callbacks of its own, and
    with at least one tab item when the tabs are enabled. *)
Theorem constructed_index_in_ring (c : Ref) (options : option Options.t)
    (p : Page) (car : Carousel) (p' : Page)
    (events : list (Handler * JSCarousel.KeyboardEvent * option Ref)) :
  JSCarousel.new (Some c) options p = (Normal car, p') →
  listeners p = [] →
  (allow_tabs car = true → tabs car ≠ []) →
  (∀ ev i, ev ∈ events → ev.1.1 = ClickTab i →
           ∃ t ty, (t, ty, ClickTab i) ∈ listeners p') →
  0 ≤ current_index (this (run_events events (mkState car p')))
    ≤ max_index car.
Proof. apply constructed_ring. Qed.

Lemma constructed_index_in_ring_witness :
  0 ≤ current_index
        (this (run_events readme_events
                 (mkState (this readme_state) (page readme_state))))
    ≤ max_index (this readme_state).
Proof.
  apply (constructed_index_in_ring 0%nat None (mkPage readme [] [])).
  - vm_compute. reflexivity.
  - reflexivity.
  - intros _. vm_compute. discriminate.
  - intros ev i Hin Hi. unfold readme_events in Hin.
    repeat (apply elem_of_cons in Hin as [->|Hin]); cbn in Hi;
      try discriminate; [|by apply not_elem_of_nil in Hin].
    injection Hi as <-. exists (OnElement 21%nat), "click".
    vm_compute. apply list_elem_of_further, list_elem_of_here.
Defined.

(** *** The strip stays aligned on the index *)

Lemma nonzero_width_zero_distance (W : number) (cur idx : Z) :
  Number.strict_neq_zero W = true →
  Number.strict_neq_zero (Number.mul W (Number.of_int (cur - idx))) = false →
  idx = cur.
Proof.
  destruct W as [q|]; cbn; [|done].
  intros Hq%negb_true_iff Hz%negb_false_iff%Qeq_bool_iff.
  apply Qmult_integral in Hz as [Hz|Hz].
  - apply Qeq_bool_iff in Hz. congruence.
  - unfold Qeq in Hz. cbn in Hz. lia.
Qed.

Lemma inject_Z_eq_0 (a : Z) : inject_Z a == 0 → a = 0.
Proof. unfold Qeq. cbn. lia. Qed.

(** The offset of the panel at [k] after a move from [cur] to [idx], in whole
    pixels. *)
Lemma shift_aligned (z k cur idx : Z) (x : Q) :
  x == inject_Z (z * (k - cur)) →
  x + inject_Z z * inject_Z (cur - idx) == inject_Z (z * (k - idx)).
Proof.
  intros ->. rewrite <- inject_Z_mult, <- inject_Z_plus.
  by replace (z * (k - cur) + z * (cur - idx)) with (z * (k - idx)) by lia.
Qed.

Lemma zero_distance_aligned (z k cur idx : Z) (x : Q) :
  inject_Z z * inject_Z (cur - idx) == 0 →
  x == inject_Z (z * (k - cur)) →
  x == inject_Z (z * (k - idx)).
Proof.
  rewrite <- inject_Z_mult. intros Hz%inject_Z_eq_0 ->.
  by replace (z * (k - idx)) with (z * (k - cur) + z * (cur - idx)) by lia;
    rewrite Hz, Z.add_0_r.
Qed.

Lemma tab_written_style_at (T : list Ref) (d d1 : Document) (i : Ref)
    (q : string) :
  tab_written T d d1 → style_at d1 i q = style_at d i q.
Proof. intros (Hs & _ & _). by apply style_at_fmap. Qed.

Lemma tab_written_aria_hidden (T : list Ref) (d d1 : Document) (i : Ref) :
  tab_written T d d1 →
  attribute_at d1 i "aria-hidden" = attribute_at d i "aria-hidden".
Proof. intros (_ & _ & Ha). apply Ha; [done..|]. right. by split. Qed.

Lemma stays_panels_of (s s' : State) : stays s s' → panels_of s' = panels_of s.
Proof. intros (Hc & _ & _ & _ & Hsk & _). by apply panels_of_stays. Qed.

Lemma moves_to_panels_of (index : Z) (s s' : State) :
  moves_to index s s' → panels_of s' = panels_of s.
Proof.
  intros (Hc & _ & _ & _ & d1 & (_ & Hsk & _) & Hd). apply panels_of_stays; [done|].
  by rewrite Hd, move_document_skeleton.
Qed.

(** The left offset of a panel after [move] on a store. *)
Lemma move_document_left (c : Carousel) (index : Z) (d : Document) (w : Ref) :
  w ∈ querySelectorAll d (container c) JSCarousel.carousel_content →
  style_at (move_document c index d) w "left"
  = if Number.strict_neq_zero (JSCarousel.distance c index)
    then assigned (Px (Number.add (parseFloat (style_at d w "left"))
                                  (JSCarousel.distance c index)))
           (style_at d w "left")
    else style_at d w "left".
Proof.
  intros Hw. unfold move_document.
  destruct (Number.strict_neq_zero _); [|done].
  apply (move_windows_left (JSCarousel.distance c index)); [|done|].
  - apply querySelectorAll_NoDup.
  - by apply querySelectorAll_is_Some in Hw.
Qed.

Lemma aligned_stays (z : Z) (s s' : State) :
  stays s s' → aligned z s → aligned z s'.
Proof.
  intros Hst Ha k w Hk. rewrite (stays_panels_of s s' Hst) in Hk.
  destruct Hst as (_ & Hi & _ & Hw).
  destruct (Ha k w Hk) as (x & Hx & Hsame). exists x.
  rewrite (tab_written_style_at _ _ _ _ _ Hw), Hi. by split.
Qed.

Lemma aligned_moves (z index : Z) (s s' : State) :
  width (this s) = Num (inject_Z z) →
  moves_to index s s' → aligned z s → aligned z s'.
Proof.
  intros HW Hmv Ha k w Hk. rewrite (moves_to_panels_of index s s' Hmv) in Hk.
  destruct Hmv as (_ & Hi & _ & _ & d1 & Hw & Hd).
  destruct (Ha k w Hk) as (x & Hx & Hsame).
  rewrite Hd, Hi, move_document_left.
  - rewrite (tab_written_style_at _ _ _ _ _ Hw), Hx. cbn [parseFloat].
    unfold JSCarousel.distance. rewrite HW.
    cbn [Number.mul Number.of_int Number.add Number.strict_neq_zero assigned
         valid_value].
    destruct (negb _) eqn:Hz.
    + eexists. split; [done|]. by apply shift_aligned.
    + exists x. split; [done|].
      apply negb_false_iff, Qeq_bool_iff in Hz.
      by eapply zero_distance_aligned.
  - destruct Hw as (_ & Hsk & _).
    rewrite (same_skeleton_querySelectorAll _ _ Hsk) by done.
    apply list_elem_of_lookup. eauto.
Qed.

Lemma fire_aligned (z : Z) (h : Handler) (e : JSCarousel.KeyboardEvent)
    (a : option Ref) (s : State) :
  aligned z s ∧ width (this s) = Num (inject_Z z) →
  aligned z (JSCarousel.fire h e a s).2
  ∧ width (this (JSCarousel.fire h e a s).2) = Num (inject_Z z).
Proof.
  intros [Ha HW].
  destruct (fire_effect h e a s) as [Hst|(idx & _ & Hmv)].
  - pose proof Hst as (Hc & _). apply settings_of_eq in Hc as (-> & _).
    split; [by eapply aligned_stays|done].
  - pose proof Hmv as (Hc & _). apply settings_of_eq in Hc as (-> & _).
    split; [by eapply aligned_moves|done].
Qed.

Lemma laid_out_skeleton (W : number) (windows : list Ref) (d : Document) :
  skeleton <$> laid_out W windows d = skeleton <$> d.
Proof.
  unfold laid_out. generalize (seq 0 (length windows)). intros ks.
  revert d. induction ks as [|k ks IH]; intros d; [done|].
  cbn. rewrite IH. destruct (windows !! k); [|done].
  apply setStyle_skeleton.
Qed.

Lemma constructed_aligned (z : Z) (c : Ref) (options : option Options.t)
    (p : Page) (car : Carousel) (p' : Page) :
  JSCarousel.new (Some c) options p = (Normal car, p') →
  width car = Num (inject_Z z) →
  aligned z (mkState car p').
Proof.
  intros Hnew HW. apply new_run in Hnew as [Hc Hp'].
  assert (Hi : current_index car = 0) by (by rewrite Hc).
  assert (Hcont : container car = c) by (by rewrite Hc).
  intros k w. unfold panels_of. cbn [this page]. rewrite Hcont, Hp'.
  cbn [document].
  rewrite (same_skeleton_querySelectorAll _ _ (laid_out_skeleton _ _ _))
    by done.
  intros Hk. eexists. split.
  - rewrite (laid_out_left _ _ _ k);
      [|apply querySelectorAll_NoDup|done|].
    + rewrite HW. reflexivity.
    + apply (querySelectorAll_is_Some _ c JSCarousel.carousel_content).
      apply list_elem_of_lookup. eauto.
  - rewrite Hi, Z.sub_0_r, inject_Z_mult. reflexivity.
Qed.

Lemma fire_panels_of (h : Handler) (e : JSCarousel.KeyboardEvent)
    (a : option Ref) (s : State) :
  panels_of (JSCarousel.fire h e a s).2 = panels_of s.
Proof.
  destruct (fire_effect h e a s) as [Hst|(idx & _ & Hmv)].
  - by apply stays_panels_of.
  - by eapply moves_to_panels_of.
Qed.

Lemma constructed_panels_of (c : Ref) (options : option Options.t)
    (p : Page) (car : Carousel) (p' : Page)
    (events : list (Handler * JSCarousel.KeyboardEvent * option Ref)) :
  JSCarousel.new (Some c) options p = (Normal car, p') →
  panels_of (run_events events (mkState car p'))
  = querySelectorAll (document p) c JSCarousel.carousel_content.
Proof.
  intros Hnew.
  apply (run_events_invariant
           (fun s => panels_of s
                     = querySelectorAll (document p) c
                         JSCarousel.carousel_content)
           (fun _ => True)); [|done|].
  - intros h e a s' _ <-. apply fire_panels_of.
  - apply new_run in Hnew as [Hc ->]. unfold panels_of. cbn [this page document].
    assert (Hcont : container car = c) by (by rewrite Hc). rewrite Hcont.
    by rewrite (same_skeleton_querySelectorAll _ _ (laid_out_skeleton _ _ _)).
Qed.

(** X6: for panels whose width is a whole number [z] of pixels, with
    [|z| × (number of panels + max_index)] below 10^6: from a successful
    construction on, whatever registered callbacks fire and whether they
    return or throw, the panel at position [k] has the left offset
    [z × (k − current_index)], so that the panel at [current_index] sits at
    offset 0; and every offset is a whole number below 10^6, a range in which
    the sums and products of the code are exact.  The page is taken without
    callbacks of its own, and with at least one tab item when the tabs are
    enabled. *)
Theorem constructed_strip_aligned (c : Ref) (options : option Options.t)
    (p : Page) (car : Carousel) (p' : Page)
    (events : list (Handler * JSCarousel.KeyboardEvent * option Ref))
    (z : Z) :
  JSCarousel.new (Some c) options p = (Normal car, p') →
  width car = Num (inject_Z z) →
  listeners p = [] →
  (allow_tabs car = true → tabs car ≠ []) →
  (∀ ev i, ev ∈ events → ev.1.1 = ClickTab i →
           ∃ t ty, (t, ty, ClickTab i) ∈ listeners p') →
  Z.abs z
  * (Z.of_nat (length (querySelectorAll (document p) c
                         JSCarousel.carousel_content))
     + max_index car) < 10 ^ 6 →
  let s := run_events events (mkState car p') in
  aligned z s
  ∧ ∀ (k : nat) (w : Ref),
      panels_of s !! k = Some w →
      Z.abs (z * (Z.of_nat k - current_index (this s))) < 10 ^ 6.
Proof.
  intros Hnew HW Hl Htabs Hev Hbound s. split.
  - apply (run_events_invariant
             (fun s => aligned z s ∧ width (this s) = Num (inject_Z z))
             (fun _ => True)); [|done|].
    + intros h e a s' _. apply fire_aligned.
    + split; [by eapply constructed_aligned|done].
  - intros k w Hk. subst s.
    rewrite (constructed_panels_of c options p car p' events Hnew) in Hk.
    apply lookup_lt_Some in Hk.
    pose proof (constructed_ring c options p car p' events Hnew Hl Htabs Hev)
      as Hring.
    rewrite Z.abs_mul. nia.
Qed.

Lemma constructed_strip_aligned_witness :
  aligned 300 (run_events readme_events
                 (mkState (this readme_state) (page readme_state))).
Proof.
  apply (constructed_strip_aligned 0%nat None (mkPage readme [] [])).
  - vm_compute. reflexivity.
  - vm_compute. reflexivity.
  - reflexivity.
  - intros _. vm_compute. discriminate.
  - intros ev i Hin Hi. unfold readme_events in Hin.
    repeat (apply elem_of_cons in Hin as [->|Hin]); cbn in Hi;
      try discriminate; [|by apply not_elem_of_nil in Hin].
    injection Hi as <-. exists (OnElement 21%nat), "click".
    vm_compute. apply list_elem_of_further, list_elem_of_here.
  - vm_compute. reflexivity.
Defined.

(** *** Exactly the panel at the index is shown *)

Lemma item_position {A} (l : list A) (k : nat) (w : A) (index : Z) :
  NoDup l → l !! k = Some w →
  (Some w = item l index ↔ Z.of_nat k = index).
Proof.
  intros Hnd Hk. unfold item. destruct (Z.ltb_spec index 0).
  - split; [done|lia].
  - split.
    + intros Hi. symmetry in Hi.
      pose proof (NoDup_lookup l _ _ _ Hnd Hk Hi). lia.
    + intros <-. by rewrite Nat2Z.id.
Qed.

Lemma nonzero_distance (W : number) (cur idx : Z) :
  Number.strict_neq_zero W = true → idx ≠ cur →
  Number.strict_neq_zero (Number.mul W (Number.of_int (cur - idx))) = true.
Proof.
  intros HW Hne.
  destruct (Number.strict_neq_zero (Number.mul _ _)) eqn:Hz; [done|].
  by apply nonzero_width_zero_distance in Hz.
Qed.

(** The [aria-hidden] of a panel after [move] over a nonzero distance. *)
Lemma move_document_aria_hidden (c : Carousel) (index : Z) (d : Document)
    (k : nat) (w : Ref) :
  Number.strict_neq_zero (JSCarousel.distance c index) = true →
  querySelectorAll d (container c) JSCarousel.carousel_content !! k = Some w →
  attribute_at (move_document c index d) w "aria-hidden"
  = Some (if Z.of_nat k =? index then "false" else "true").
Proof.
  intros Hz Hk. unfold move_document. rewrite Hz.
  assert (Hw : w ∈ querySelectorAll d (container c)
                     JSCarousel.carousel_content).
  { apply list_elem_of_lookup. eauto. }
  pose proof (querySelectorAll_NoDup d (container c)
                JSCarousel.carousel_content) as Hnd.
  etrans; [apply (move_windows_aria_hidden (JSCarousel.distance c index));
           [done..|by apply querySelectorAll_is_Some in Hw]|].
  unfold hidden_of. f_equal.
  pose proof (item_position _ k w index Hnd Hk) as Hpos.
  case_bool_decide; destruct (Z.eqb_spec (Z.of_nat k) index); tauto.
Qed.

Lemma shown_stays (s s' : State) : stays s s' → shown s → shown s'.
Proof.
  intros Hst Ha k w Hk. rewrite (stays_panels_of s s' Hst) in Hk.
  destruct Hst as (_ & Hi & _ & Hw).
  by rewrite (tab_written_aria_hidden _ _ _ _ Hw), Hi, (Ha k w Hk).
Qed.

Lemma shown_moves (index : Z) (s s' : State) :
  Number.strict_neq_zero (width (this s)) = true →
  moves_to index s s' →
  shown s ∨ index ≠ current_index (this s) →
  shown s'.
Proof.
  intros HW Hmv Hor k w Hk.
  rewrite (moves_to_panels_of index s s' Hmv) in Hk.
  destruct Hmv as (_ & Hi & _ & _ & d1 & Hw & Hd). rewrite Hd, Hi.
  destruct (Number.strict_neq_zero (JSCarousel.distance (this s) index))
    eqn:Hz.
  - apply move_document_aria_hidden; [done|].
    destruct Hw as (_ & Hsk & _).
    by rewrite (same_skeleton_querySelectorAll _ _ Hsk).
  - pose proof (nonzero_width_zero_distance _ _ _ HW Hz) as ->.
    destruct Hor as [Ha|]; [|done].
    unfold move_document. rewrite Hz.
    by rewrite (tab_written_aria_hidden _ _ _ _ Hw), (Ha k w Hk).
Qed.

Lemma fire_shown (h : Handler) (e : JSCarousel.KeyboardEvent)
    (a : option Ref) (s : State) :
  Number.strict_neq_zero (width (this s)) = true →
  shown s
  ∨ current_index (this (JSCarousel.fire h e a s).2) ≠ current_index (this s) →
  shown (JSCarousel.fire h e a s).2
  ∧ Number.strict_neq_zero (width (this (JSCarousel.fire h e a s).2)) = true.
Proof.
  intros HW Hor.
  destruct (fire_effect h e a s) as [Hst|(idx & _ & Hmv)].
  - pose proof Hst as (Hc & Hi & _). apply settings_of_eq in Hc as (-> & _).
    split; [|done]. eapply shown_stays; [done|]. destruct Hor; [done|congruence].
  - pose proof Hmv as (Hc & Hi & _). apply settings_of_eq in Hc as (-> & _).
    split; [|done]. eapply shown_moves; [done..|].
    destruct Hor; [by left|right; congruence].
Qed.

(** X7: with a width other than 0, a callback that changes the index leaves
    exactly the panel at the new index shown: that panel has
    [aria-hidden="false"] and every other panel [aria-hidden="true"]. *)
Theorem index_change_shows_panel (h : Handler) (e : JSCarousel.KeyboardEvent)
    (a : option Ref) (s : State) :
  Number.strict_neq_zero (width (this s)) = true →
  current_index (this (JSCarousel.fire h e a s).2) ≠ current_index (this s) →
  shown (JSCarousel.fire h e a s).2.
Proof.
  intros HW Hne. apply fire_shown; [done|by right].
Qed.

Lemma index_change_shows_panel_witness :
  shown (JSCarousel.fire ClickNext arrow_left None readme_state).2.
Proof.
  apply index_change_shows_panel.
  - vm_compute. reflexivity.
  - vm_compute. discriminate.
Defined.

(** X8: with a width other than 0, once exactly the panel at the index is
    shown it stays so, whatever callbacks fire and whether they return or
    throw. *)
Theorem shown_preserved
    (events : list (Handler * JSCarousel.KeyboardEvent * option Ref))
    (s : State) :
  Number.strict_neq_zero (width (this s)) = true →
  shown s →
  shown (run_events events s).
Proof.
  intros HW Hs.
  apply (run_events_invariant
           (fun s => shown s ∧ Number.strict_neq_zero (width (this s)) = true)
           (fun _ => True)); [|done|done].
  intros h ev a s' _ [? ?]. apply fire_shown; [done|by left].
Qed.

Lemma shown_preserved_witness :
  shown (run_events readme_events
           (JSCarousel.fire ClickNext arrow_left None readme_state).2).
Proof.
  apply shown_preserved.
  - vm_compute. reflexivity.
  - apply fire_shown; [vm_compute; reflexivity|right; vm_compute; discriminate].
Defined.
(** ** The timer of the automatic navigation *)

Lemma waiting_current_delay (s : State) :
  waiting (current_delay (this s)) s = s.
Proof. by destruct s as [[] ?]. Qed.

Lemma ticks_count (k : nat) (s : State) :
  current_delay (this s) + 1000 * (Z.of_nat k - 1) < autonav_delay (this s) →
  times k JSCarousel.on_interval s
  = (Normal tt, waiting (current_delay (this s) + 1000 * Z.of_nat k) s).
Proof.
  revert s. induction k as [|k IH]; intros s Hlt.
  - cbn [times]. rewrite Z.mul_0_r, Z.add_0_r, waiting_current_delay. done.
  - cbn [times]. rewrite bind_run, on_interval_run.
    destruct (Z.geb_spec (current_delay (this s)) (autonav_delay (this s)));
      [lia|].
    rewrite IH by (cbn; lia). cbn [this waiting current_delay with_current_delay].
    replace (current_delay (this s) + 1000 * Z.of_nat (S k))
      with (current_delay (this s) + 1000 + 1000 * Z.of_nat k) by lia.
    reflexivity.
Qed.

Lemma tick_fires (delay : Z) (s : State) :
  autonav_delay (this s) ≤ delay →
  JSCarousel.on_interval (waiting delay s)
  = JSCarousel.on_click_next (waiting delay s).
Proof.
  intros Hle. rewrite on_interval_run.
  cbn [waiting this with_current_delay current_delay autonav_delay].
  by destruct (Z.geb_spec delay (autonav_delay (this s))); [|lia].
Qed.

Lemma counting_ticks_spec (c : Carousel) (k : nat) :
  autonav_delay c ≤ 1000 * Z.of_nat (counting_ticks c)
  ∧ ((1 ≤ k ≤ counting_ticks c)%nat →
     1000 * (Z.of_nat k - 1) < autonav_delay c).
Proof.
  unfold counting_ticks.
  pose proof (Z.div_mod (autonav_delay c + 999) 1000 ltac:(lia)) as Hdm.
  pose proof (Z.mod_pos_bound (autonav_delay c + 999) 1000 ltac:(lia)) as Hb.
  revert Hdm Hb. generalize ((autonav_delay c + 999) / 1000).
  generalize ((autonav_delay c + 999) mod 1000). intros r q Hdm Hb.
  destruct (Z.le_gt_cases 0 q).
  - rewrite Z2Nat.id by done. split; [lia|]. intros Hk.
    destruct Hk as [_ Hk]. apply Nat2Z.inj_le in Hk. rewrite Z2Nat.id in Hk by done. lia.
  - rewrite Z2Nat.nonpos by lia. split; [lia|]. intros Hk. lia.
Qed.

(** What the ticks of the timer do, from a delay counter of 0. *)
Lemma timer_period (s : State) :
  current_delay (this s) = 0 →
  let n := counting_ticks (this s) in
  (∀ k : nat, (k ≤ n)%nat →
     times k JSCarousel.on_interval s
     = (Normal tt, waiting (1000 * Z.of_nat k) s))
  ∧ times (S n) JSCarousel.on_interval s
    = JSCarousel.on_click_next (waiting (1000 * Z.of_nat n) s)
  ∧ (is_throw (times (S n) JSCarousel.on_interval s).1 = false →
     current_index (this (times (S n) JSCarousel.on_interval s).2)
     = next_index (this s)
     ∧ current_delay (this (times (S n) JSCarousel.on_interval s).2) = 0).
Proof.
  intros H0 n.
  assert (Hcount : ∀ k : nat, (k ≤ n)%nat →
            times k JSCarousel.on_interval s
            = (Normal tt, waiting (1000 * Z.of_nat k) s)).
  { intros k Hk. destruct (decide (k = 0%nat)) as [->|].
    - cbn [times]. by rewrite Z.mul_0_r, <- H0, waiting_current_delay.
    - rewrite ticks_count; rewrite H0; [done|].
      apply counting_ticks_spec. fold n. lia. }
  assert (Hfire : times (S n) JSCarousel.on_interval s
                  = JSCarousel.on_click_next (waiting (1000 * Z.of_nat n) s)).
  { replace (S n) with (n + 1)%nat by lia.
    rewrite (times_add n 1 _ s _ (Hcount n (le_n n))).
    cbn [times]. rewrite bind_run, tick_fires.
    - by destruct (JSCarousel.on_click_next _) as [[[]|msg] s'].
    - apply (counting_ticks_spec (this s) 0). }
  split; [done|]. split; [done|]. rewrite Hfire, on_click_next_run.
  intros Hret.
  pose proof (navigation_effect (next_index (this (waiting (1000 * Z.of_nat n) s)))
                (waiting (1000 * Z.of_nat n) s)) as Hnav.
  cbv zeta in Hnav.
  destruct Hnav as [[Ht _]|[_ (_ & Hi & Hd & _)]]; [congruence|].
  by rewrite Hi, Hd.
Qed.

(** X9: the timer counts in steps of 1000 and compares before it adds. From
    a delay counter of 0, the first ⌈autonav_delay / 1000⌉ ticks only count,
    leaving the index and the page as they are, and the tick after them does
    what a click on the next button does; when that returns, the carousel is
    at the next index and the counter is 0 again. *)
Theorem autonav_period (s : State) :
  current_delay (this s) = 0 →
  let n := counting_ticks (this s) in
  (∀ k : nat, (k ≤ n)%nat →
     times k JSCarousel.on_interval s
     = (Normal tt, waiting (1000 * Z.of_nat k) s))
  ∧ times (S n) JSCarousel.on_interval s
    = JSCarousel.on_click_next (waiting (1000 * Z.of_nat n) s)
  ∧ (is_throw (times (S n) JSCarousel.on_interval s).1 = false →
     current_index (this (times (S n) JSCarousel.on_interval s).2)
     = next_index (this s)
     ∧ current_delay (this (times (S n) JSCarousel.on_interval s).2) = 0).
Proof. apply timer_period. Qed.

Lemma autonav_period_witness :
  times 6 JSCarousel.on_interval readme_state
  = JSCarousel.on_click_next (waiting 5000 readme_state).
Proof.
  apply (autonav_period readme_state). vm_compute. reflexivity.
Defined.
(** ** The selected tab *)

Lemma mark_window_attribute_other (hidden tabindex : string)
    (h : FocusableElement.t) (w j : Ref) (n : string) (d : Document) :
  n ≠ "aria-hidden" → n ≠ "tabindex" →
  attribute_at (mark_window hidden tabindex h w d) j n = attribute_at d j n.
Proof.
  intros H1 H2. unfold mark_window. cbv zeta.
  rewrite foldl_setAttribute_out by (right; congruence).
  apply setAttribute_attribute_ne. right. congruence.
Qed.

Lemma move_document_attribute_other (c : Carousel) (index : Z) (j : Ref)
    (n : string) (d : Document) :
  n ≠ "aria-hidden" → n ≠ "tabindex" →
  attribute_at (move_document c index d) j n = attribute_at d j n.
Proof.
  intros H1 H2. unfold move_document. cbv zeta.
  destruct (Number.strict_neq_zero _); [|done].
  generalize (item (querySelectorAll d (container c)
                      JSCarousel.carousel_content) index).
  generalize (querySelectorAll d (container c) JSCarousel.carousel_content).
  intros ws t. revert d. induction ws as [|w ws IH]; intros d; [done|].
  cbn [foldl]. rewrite IH, move_window_mark.
  rewrite mark_window_attribute_other by done. apply setStyle_attribute.
Qed.

Lemma classList_add_attribute (i j : Ref) (c n : string) (d : Document) :
  attribute_at (classList_add i c d) j n = attribute_at d j n.
Proof.
  unfold attribute_at, classList_add. destruct (decide (i = j)) as [->|Hne].
  - rewrite list_lookup_alter_eq. destruct (d !! j); [|done].
    cbn. by case_bool_decide.
  - by rewrite list_lookup_alter_ne.
Qed.

(** One turn of the loop of [active_panel]: the size of the store is kept,
    and [aria-selected] is written on the tab [t0] unless it is the selected
    one. *)
Lemma deselect_tab_selected (tab t0 : Ref) (s s1 : State) :
  JSCarousel.deselect_tab tab t0 s = (Normal tt, s1) →
  is_Some (document (page s) !! t0) →
  length (document (page s1)) = length (document (page s))
  ∧ ∀ t, attribute_at (document (page s1)) t "aria-selected"
         = if bool_decide (t = t0 ∧ t ≠ tab) then Some "false"
           else attribute_at (document (page s)) t "aria-selected".
Proof.
  unfold JSCarousel.deselect_tab. case_bool_decide as Ht.
  - intros [= <-] _. split; [done|]. intros t.
    rewrite bool_decide_eq_false_2; [done|]. intros [-> ?]. done.
  - run_binds. destruct (querySelector _ t0 JSCarousel.pos); [|done].
    cbn [modify_document this page document listeners intervals].
    intros [= <-] Hs. cbn [page document]. split.
    + unfold classList_remove, setAttribute. by rewrite !length_alter.
    + intros t. unfold classList_remove. rewrite classList_attribute.
      rewrite setAttribute_attribute_ne by (by right).
      case_bool_decide as Hc.
      * destruct Hc as [-> _]. by apply setAttribute_attribute_eq.
      * apply setAttribute_attribute_ne. left. intros ->. by apply Hc.
Qed.

Lemma tabs_loop_selected (tab : Ref) (l : list Ref) (s s' : State) :
  for_of l (JSCarousel.deselect_tab tab) s = (Normal tt, s') →
  (∀ t, t ∈ l → is_Some (document (page s) !! t)) →
  ∀ t, attribute_at (document (page s')) t "aria-selected"
       = if bool_decide (t ∈ l ∧ t ≠ tab) then Some "false"
         else attribute_at (document (page s)) t "aria-selected".
Proof.
  revert s. induction l as [|t0 l IH]; intros s.
  - intros [= <-] _ t. rewrite bool_decide_eq_false_2; [done|].
    intros [H%not_elem_of_nil _]. done.
  - rewrite for_of_cons, bind_run.
    destruct (JSCarousel.deselect_tab tab t0 s) as [[[]|msg] s1] eqn:E1;
      [|done].
    intros Hrun Hs.
    destruct (deselect_tab_selected tab t0 s s1 E1) as [Hlen H1].
    { apply Hs, list_elem_of_here. }
    intros t. rewrite (IH s1 Hrun).
    + rewrite H1.
      repeat case_bool_decide; try done; exfalso;
        rewrite elem_of_cons in *; intuition congruence.
    + intros t' Ht'. apply lookup_lt_is_Some. rewrite Hlen.
      apply lookup_lt_is_Some, Hs. by apply list_elem_of_further.
Qed.

Lemma selected_tab_store (tab : Ref) (d : Document) :
  is_Some (d !! tab) →
  let d2 := setAttribute tab "tabindex" "0"
              (setAttribute tab "aria-selected" "true" d) in
  length d2 = length d
  ∧ attribute_at d2 tab "aria-selected" = Some "true"
  ∧ ∀ t, t ≠ tab →
         attribute_at d2 t "aria-selected" = attribute_at d t "aria-selected".
Proof.
  intros Hd d2. subst d2. split; [|split].
  - unfold setAttribute. by rewrite !length_alter.
  - rewrite setAttribute_attribute_ne by (by right).
    by apply setAttribute_attribute_eq.
  - intros t Ht. rewrite !setAttribute_attribute_ne by (by left). done.
Qed.

Lemma select_tab_selected (c : Carousel) (index : Z) (tab : Ref)
    (s s1 : State) :
  item (tabs c) index = Some tab →
  (∀ t, t ∈ tabs c → is_Some (document (page s) !! t)) →
  JSCarousel.select_tab c index s = (Normal tt, s1) →
  ∀ t, t ∈ tabs c →
       attribute_at (document (page s1)) t "aria-selected"
       = Some (if bool_decide (t = tab) then "true" else "false").
Proof.
  intros Hi Hs. unfold JSCarousel.select_tab. cbn [truthy]. rewrite Hi.
  run_binds. destruct (querySelector _ tab JSCarousel.pos) as [pos_|]; [|done].
  rewrite bind_run.
  match goal with
  | |- context [(if negb ?b then ?x else ?y) ?st] =>
      set (s3 := (if negb b then x else y) st)
  end.
  assert (∃ s3', s3 = (Normal tt, s3')
            ∧ length (document (page s3')) = length (document (page s))
            ∧ attribute_at (document (page s3')) tab "aria-selected"
              = Some "true"
            ∧ ∀ t, t ≠ tab →
                attribute_at (document (page s3')) t "aria-selected"
                = attribute_at (document (page s)) t "aria-selected")
    as (s3' & -> & Hlen & Htab & Hother).
  { destruct (selected_tab_store tab (document (page s)))
      as (Hlen & Htab & Hother); [by apply Hs, (item_elem_of _ index)|].
    subst s3. destruct (negb _); eexists; (split; [reflexivity|]);
      cbn [modify_document mret M_ret this page document listeners intervals].
    - unfold classList_add at 1. rewrite length_alter.
      split; [done|]. split; [by rewrite classList_add_attribute|].
      intros t Ht. rewrite classList_add_attribute. by apply Hother.
    - done. }
  intros Hrun t Ht.
  rewrite (tabs_loop_selected tab _ _ _ Hrun).
  - repeat case_bool_decide; try done.
    + by destruct H.
    + subst t. by rewrite Htab.
    + exfalso. apply H. by split.
  - intros t' Ht'. apply lookup_lt_is_Some. rewrite Hlen.
    by apply lookup_lt_is_Some, Hs.
Qed.

(** X10: when [active_panel(index)] returns and [index] designates a tab
    item, that tab has [aria-selected="true"] and every other tab item has
    [aria-selected="false"]. *)
Theorem active_panel_selects_tab (index : Z) (tab : Ref) (s : State) :
  item (tabs (this s)) index = Some tab →
  (∀ t, t ∈ tabs (this s) → is_Some (document (page s) !! t)) →
  is_throw (JSCarousel.active_panel index s).1 = false →
  ∀ t, t ∈ tabs (this s) →
       attribute_at (document (page (JSCarousel.active_panel index s).2)) t
         "aria-selected"
       = Some (if bool_decide (t = tab) then "true" else "false").
Proof.
  intros Hi Hs. unfold JSCarousel.active_panel.
  rewrite bind_run. cbn [get_this]. rewrite bind_run.
  pose proof (select_tab_same_this (this s) index s) as Hthis.
  destruct (JSCarousel.select_tab (this s) index s) as [[[]|msg] s1] eqn:E;
    [|done].
  rewrite move_run. cbn. intros _ t Ht.
  rewrite move_document_attribute_other by done.
  by apply (select_tab_selected (this s) index tab s s1).
Qed.

Lemma active_panel_selects_tab_witness :
  attribute_at (document (page (JSCarousel.active_panel 1 readme_state).2))
    19%nat "aria-selected" = Some "true"
  ∧ attribute_at (document (page (JSCarousel.active_panel 1 readme_state).2))
      17%nat "aria-selected" = Some "false".
Proof.
  assert (H1 : item (tabs (this readme_state)) 1 = Some 19%nat)
    by (vm_compute; reflexivity).
  assert (H2 : ∀ t, t ∈ tabs (this readme_state) →
                    is_Some (document (page readme_state) !! t)).
  { intros t Ht.
    assert (Ht' : t ∈ [17; 19; 21]%nat) by (revert Ht; vm_compute; done).
    repeat (apply elem_of_cons in Ht' as [->|Ht']);
      [vm_compute; eauto..|by apply not_elem_of_nil in Ht']. }
  assert (H3 : is_throw (JSCarousel.active_panel 1 readme_state).1 = false)
    by (vm_compute; reflexivity).
  split.
  - apply (active_panel_selects_tab 1 19%nat readme_state H1 H2 H3).
    vm_compute. apply list_elem_of_further, list_elem_of_here.
  - apply (active_panel_selects_tab 1 19%nat readme_state H1 H2 H3).
    vm_compute. apply list_elem_of_here.
Defined.
(** ** The keyboard *)

Lemma holds_focus_spec (l : list Ref) (a : option Ref) :
  JSCarousel.holds_focus l a = true ↔ ∃ x, a = Some x ∧ x ∈ l.
Proof.
  induction l as [|y l IH]; cbn.
  - split; [done|]. intros (x & _ & H). by apply not_elem_of_nil in H.
  - case_bool_decide as Hy.
    + split; [|done]. intros _. exists y. split; [done|]. apply list_elem_of_here.
    + rewrite IH. split.
      * intros (x & Hx & Hin). exists x. split; [done|].
        by apply list_elem_of_further.
      * intros (x & Hx & Hin). exists x. split; [done|].
        apply elem_of_cons in Hin as [->|Hin]; [congruence|done].
Qed.

Lemma children_spec (d : Document) (w x : Ref) :
  x ∈ JSCarousel.children d w ↔ d !! x ≫= parentNode = Some w.
Proof.
  unfold JSCarousel.children. rewrite list_elem_of_filter, elem_of_seq.
  split; [by intros [? _]|]. intros H. split; [done|].
  destruct (d !! x) eqn:Hx; [|done]. apply lookup_lt_Some in Hx. lia.
Qed.

Lemma windows_hold_focus_spec (d : Document) (ws : list Ref) (a : option Ref) :
  JSCarousel.windows_hold_focus d ws a = true
  ↔ ∃ x w, a = Some x ∧ w ∈ ws ∧ d !! x ≫= parentNode = Some w.
Proof.
  induction ws as [|w0 ws IH]; cbn.
  - split; [done|]. intros (x & w & _ & H & _). by apply not_elem_of_nil in H.
  - destruct (JSCarousel.holds_focus (JSCarousel.children d w0) a) eqn:Hh.
    + split; [|done]. intros _.
      apply holds_focus_spec in Hh as (x & Hx & Hin).
      exists x, w0. split; [done|]. split; [apply list_elem_of_here|].
      by apply children_spec.
    + rewrite IH. split.
      * intros (x & w & Hx & Hw & Hp). exists x, w.
        split; [done|]. split; [by apply list_elem_of_further|done].
      * intros (x & w & Hx & Hw & Hp). exists x, w. split; [done|].
        split; [|done]. apply elem_of_cons in Hw as [->|Hw]; [|done].
        assert (JSCarousel.holds_focus (JSCarousel.children d w0) a = true);
          [|congruence].
        apply holds_focus_spec. exists x. split; [done|].
        by apply children_spec.
Qed.

Lemma has_tabs_focus_on_a_tab (a : option Ref) (c : Carousel) :
  allow_tabs c && JSCarousel.holds_focus (tabs c) a = true ↔ on_a_tab c a.
Proof.
  unfold on_a_tab. by rewrite andb_true_iff, holds_focus_spec.
Qed.

Lemma has_window_focus_on_a_panel_child (a : option Ref) (s : State) :
  JSCarousel.windows_hold_focus (document (page s)) (panels_of s) a = true
  ↔ on_a_panel_child s a.
Proof. apply windows_hold_focus_spec. Qed.

(** The listener, once the two focus tests are made. *)
Lemma on_keydown_run (e : JSCarousel.KeyboardEvent) (a : option Ref)
    (s : State) :
  JSCarousel.on_keydown e a s
  = let focus_on_tabs :=
      allow_tabs (this s) && JSCarousel.holds_focus (tabs (this s)) a in
    let focus_in_window :=
      JSCarousel.windows_hold_focus (document (page s)) (panels_of s) a in
    match (if focus_in_window && JSCarousel.ctrlKey e && is_up e
           then match item (tabs (this s)) (current_index (this s)) with
                | Some tab => (Normal [JSCarousel.Focus tab], s)
                | None => (Throw "TypeError", s)
                end
           else (Normal [], s)) with
    | (Normal calls, s) =>
        if focus_on_tabs then
          if is_left e || is_right e then
            match (if is_left e then JSCarousel.on_click_previous s
                   else JSCarousel.on_click_next s) with
            | (Normal _, s') =>
                match item (tabs (this s')) (current_index (this s')) with
                | Some tab =>
                    (Normal (calls ++ [JSCarousel.Focus tab;
                                       JSCarousel.PreventDefault])%list, s')
                | None => (Throw "TypeError", s')
                end
            | (Throw msg, s') => (Throw msg, s')
            end
          else (Normal calls, s)
        else (Normal calls, s)
    | (Throw msg, s) => (Throw msg, s)
    end.
Proof.
  unfold JSCarousel.on_keydown.
  rewrite bind_run, has_tabs_focus_run, bind_run, has_window_focus_run.
  cbv zeta. rewrite bind_run. fold (panels_of s). fold (is_up e).
  fold (is_left e). fold (is_right e).
  destruct (_ && _ && is_up e).
  - rewrite bind_run. cbn [get_this truthy]. rewrite bind_run.
    rewrite focus_current_tab_run.
    destruct (item (tabs (this s)) (current_index (this s))) as [tab|];
      [|done].
    cbn [mret M_ret]. destruct (allow_tabs (this s) && _); [|done].
    rewrite bind_run. destruct (is_left e) eqn:Hl.
    + fold JSCarousel.on_click_previous.
      destruct (JSCarousel.on_click_previous s) as [[[]|msg] s1]; [|done].
      cbn [orb]. rewrite bind_run, focus_current_tab_run.
      by destruct (item _ _).
    + destruct (is_right e) eqn:Hr.
      * fold JSCarousel.on_click_next.
        destruct (JSCarousel.on_click_next s) as [[[]|msg] s1]; [|done].
        cbn [orb]. rewrite bind_run, focus_current_tab_run.
        by destruct (item _ _).
      * done.
  - cbn [mret M_ret]. destruct (allow_tabs (this s) && _); [|done].
    rewrite bind_run. destruct (is_left e) eqn:Hl.
    + fold JSCarousel.on_click_previous.
      destruct (JSCarousel.on_click_previous s) as [[[]|msg] s1]; [|done].
      cbn [orb]. rewrite bind_run, focus_current_tab_run.
      by destruct (item _ _).
    + destruct (is_right e) eqn:Hr.
      * fold JSCarousel.on_click_next.
        destruct (JSCarousel.on_click_next s) as [[[]|msg] s1]; [|done].
        cbn [orb]. rewrite bind_run, focus_current_tab_run.
        by destruct (item _ _).
      * done.
Qed.
(** X11: the keydown listener makes no call and leaves the object and the
    page as they are, unless a tab item has the focus, or the focus is on a
    child of a panel and the key is Ctrl+ArrowUp.  An element deeper inside a
    panel does not count. *)
Theorem keydown_ignored (e : JSCarousel.KeyboardEvent) (a : option Ref)
    (s : State) :
  ¬ on_a_tab (this s) a →
  (on_a_panel_child s a → JSCarousel.ctrlKey e && is_up e = false) →
  JSCarousel.on_keydown e a s = (Normal [], s).
Proof.
  intros Htab Hwin. rewrite on_keydown_run. cbv zeta.
  rewrite <- has_tabs_focus_on_a_tab in Htab. apply not_true_is_false in Htab.
  rewrite Htab.
  destruct (JSCarousel.windows_hold_focus _ _ a) eqn:Hw; [|done].
  apply has_window_focus_on_a_panel_child, Hwin in Hw.
  rewrite <- andb_assoc, Hw. done.
Qed.

Lemma keydown_ignored_witness :
  JSCarousel.on_keydown arrow_left (Some 4%nat) readme_state
  = (Normal [], readme_state).
Proof.
  apply keydown_ignored.
  - intros (_ & x & [= <-] & Hx). revert Hx. vm_compute.
    intros H. repeat (apply elem_of_cons in H as [H|H]; [done|]).
    by apply not_elem_of_nil in H.
  - intros _. reflexivity.
Defined.

(** X12: with the focus on a child of a panel, Ctrl+ArrowUp that is not
    also taken as an arrow on a focused tab asks for the focus on the tab item
    at [current_index] and changes nothing; when the tab list has no item at
    that index, the listener throws a [TypeError]. *)
Theorem ctrl_up_focuses_current_tab (e : JSCarousel.KeyboardEvent)
    (a : option Ref) (s : State) :
  on_a_panel_child s a →
  JSCarousel.ctrlKey e = true → is_up e = true →
  ¬ on_a_tab (this s) a ∨ is_left e || is_right e = false →
  JSCarousel.on_keydown e a s
  = (match item (tabs (this s)) (current_index (this s)) with
     | Some tab => Normal [JSCarousel.Focus tab]
     | None => Throw "TypeError"
     end, s).
Proof.
  intros Hw Hc Hu Hor. rewrite on_keydown_run. cbv zeta.
  apply has_window_focus_on_a_panel_child in Hw. rewrite Hw, Hc, Hu.
  cbn [andb]. destruct (item _ _) as [tab|]; [|done].
  destruct (allow_tabs (this s) && _) eqn:Ht; [|done].
  destruct Hor as [Hn| ->]; [|done].
  by apply has_tabs_focus_on_a_tab in Ht.
Qed.

Lemma ctrl_up_focuses_current_tab_witness :
  JSCarousel.on_keydown ctrl_arrow_up (Some 6%nat) readme_state
  = (Normal [JSCarousel.Focus 17%nat], readme_state).
Proof.
  apply (ctrl_up_focuses_current_tab ctrl_arrow_up (Some 6%nat) readme_state).
  - exists 6%nat, 3%nat. split; [done|]. split; [|done].
    vm_compute. apply list_elem_of_here.
  - reflexivity.
  - reflexivity.
  - by right.
Defined.

(** X13: on a carousel without tab items, Ctrl+ArrowUp with the focus on a
    child of a panel makes the listener throw a [TypeError]: the empty list
    of tabs is truthy, and it has no item to focus. *)
Theorem ctrl_up_without_tabs_throws (e : JSCarousel.KeyboardEvent)
    (a : option Ref) (s : State) :
  tabs (this s) = [] →
  on_a_panel_child s a →
  JSCarousel.ctrlKey e = true → is_up e = true →
  JSCarousel.on_keydown e a s = (Throw "TypeError", s).
Proof.
  intros Ht Hw Hc Hu. rewrite on_keydown_run. cbv zeta.
  apply has_window_focus_on_a_panel_child in Hw. rewrite Hw, Hc, Hu, Ht.
  cbn [andb]. unfold item. by destruct (_ <? 0).
Qed.

Lemma ctrl_up_without_tabs_throws_witness :
  JSCarousel.on_keydown ctrl_arrow_up (Some 2%nat)
    (constructed 0%nat None page_panel_link)
  = (Throw "TypeError", constructed 0%nat None page_panel_link).
Proof.
  apply ctrl_up_without_tabs_throws.
  - vm_compute. reflexivity.
  - exists 2%nat, 1%nat. split; [done|]. split; [|done].
    vm_compute. apply list_elem_of_here.
  - reflexivity.
  - reflexivity.
Defined.

Lemma on_click_arrow_returns (e : JSCarousel.KeyboardEvent) (s : State) :
  tabs_well_formed (this s) (document (page s)) = true →
  ∃ s', (if is_left e then JSCarousel.on_click_previous s
         else JSCarousel.on_click_next s) = (Normal tt, s')
        ∧ current_index (this s') = arrow_target e (this s)
        ∧ current_delay (this s') = 0
        ∧ tabs (this s') = tabs (this s).
Proof.
  intros Hwf. unfold arrow_target, JSCarousel.on_click_previous,
    JSCarousel.on_click_next.
  destruct (is_left e); rewrite bind_run.
  - destruct (previous_returns s Hwf) as (s1 & -> & Hi & _ & Ht & _).
    eexists. split; [reflexivity|]. by cbn.
  - destruct (next_returns s Hwf) as (s1 & -> & Hi & _ & Ht & _).
    eexists. split; [reflexivity|]. by cbn.
Qed.

(** X14: with the focus on a tab item whose tab list is well formed, a left
    or right arrow without Ctrl navigates to the previous or next index (left
    is tested first), resets the delay counter, then asks for the focus on the
    tab item at the new index and prevents the default action, in that
    order. *)
Theorem arrow_key_moves_focus (e : JSCarousel.KeyboardEvent) (a : option Ref)
    (s : State) (tab : Ref) :
  on_a_tab (this s) a →
  JSCarousel.ctrlKey e = false →
  is_left e || is_right e = true →
  tabs_well_formed (this s) (document (page s)) = true →
  item (tabs (this s)) (arrow_target e (this s)) = Some tab →
  ∃ s', JSCarousel.on_keydown e a s
        = (Normal [JSCarousel.Focus tab; JSCarousel.PreventDefault], s')
        ∧ current_index (this s') = arrow_target e (this s)
        ∧ current_delay (this s') = 0.
Proof.
  intros Ht Hc Hk Hwf Hi. rewrite on_keydown_run. cbv zeta.
  apply has_tabs_focus_on_a_tab in Ht. rewrite Ht, Hc, Hk.
  rewrite andb_false_r. cbn [andb].
  destruct (on_click_arrow_returns e s Hwf) as (s' & -> & Hidx & Hd & Htabs).
  rewrite Htabs, Hidx, Hi. by exists s'.
Qed.

Lemma arrow_key_moves_focus_witness :
  ∃ s', JSCarousel.on_keydown arrow_right (Some 17%nat) readme_state
        = (Normal [JSCarousel.Focus 19%nat; JSCarousel.PreventDefault], s')
        ∧ current_index (this s') = 1
        ∧ current_delay (this s') = 0.
Proof.
  apply (arrow_key_moves_focus arrow_right (Some 17%nat) readme_state 19%nat).
  - split; [vm_compute; reflexivity|]. exists 17%nat. split; [done|].
    vm_compute. apply list_elem_of_here.
  - reflexivity.
  - reflexivity.
  - vm_compute. reflexivity.
  - vm_compute. reflexivity.
Defined.

(** ** The default delay of the automatic navigation *)

Lemma configure_autonav_delay (options : option Options.t) (d : Document)
    (c : Carousel) :
  autonav_delay (JSCarousel.configure options d c)
  = match options ≫= Options.autonav_delay with
    | Some v => if v =? 0 then 5000 else v
    | None => 5000
    end.
Proof. by destruct options as [[? ? ? [v|] ?]|]. Qed.

(** X15: the delay of the automatic navigation is the option, and 5000 when
    the option is absent or 0.  With that default the timer of a constructed
    carousel navigates on every sixth tick: five ticks count up to 5000, and
    the sixth does what a click on the next button does. *)
Theorem constructed_autonav_default (c : Ref) (options : option Options.t)
    (p : Page) (car : Carousel) (p' : Page) :
  JSCarousel.new (Some c) options p = (Normal car, p') →
  options ≫= Options.autonav_delay = None
  ∨ options ≫= Options.autonav_delay = Some 0 →
  let s := mkState car p' in
  autonav_delay car = 5000
  ∧ (∀ k : nat, (k ≤ 5)%nat →
       times k JSCarousel.on_interval s
       = (Normal tt, waiting (1000 * Z.of_nat k) s))
  ∧ times 6 JSCarousel.on_interval s
    = JSCarousel.on_click_next (waiting 5000 s).
Proof.
  intros Hnew Hopt s. apply new_run in Hnew as [Hc _].
  assert (Hd : autonav_delay car = 5000).
  { rewrite Hc. unfold constructed_object. cbv zeta.
    change (autonav_delay (with_max_index ?m (with_width ?w ?c0)))
      with (autonav_delay c0).
    rewrite configure_autonav_delay. by destruct Hopt as [-> | ->]. }
  assert (H0 : current_delay (this s) = 0) by (cbn [s this]; by rewrite Hc).
  assert (Hn : counting_ticks (this s) = 5%nat).
  { unfold counting_ticks. cbn [this s]. rewrite Hd. reflexivity. }
  pose proof (timer_period s H0) as Ht. cbv zeta in Ht. rewrite Hn in Ht.
  destruct Ht as (Hcount & Hfire & _). by repeat split.
Qed.

Lemma constructed_autonav_default_witness :
  autonav_delay (this readme_state) = 5000.
Proof.
  destruct (constructed_autonav_default 0%nat None (mkPage readme [] [])
              (this readme_state) (page readme_state)) as (H & _).
  - vm_compute. reflexivity.
  - by left.
  - exact H.
Defined.
(** ** Hiding a panel, then showing it *)

Lemma setAttribute_isFocusable_at (j i : Ref) (n v : string) (d : Document) :
  n ≠ "disabled" → n ≠ "hidden" → n ≠ "type" →
  FocusableElement.isFocusable_at (setAttribute j n v d) i
  = FocusableElement.isFocusable_at d i.
Proof.
  intros H1 H2 H3. unfold FocusableElement.isFocusable_at, setAttribute.
  destruct (decide (j = i)) as [->|Hne]; [|by rewrite list_lookup_alter_ne].
  rewrite list_lookup_alter_eq. destruct (d !! i) as [e|]; [|done]. cbn.
  unfold FocusableElement.isFocusable, FocusableElement.RULES.
  cbn [FocusableElement.every_rule].
  unfold FocusableElement.hasStyle, hasAttribute, tagName, type_. cbn.
  by rewrite !lookup_insert_ne by done.
Qed.

Lemma mark_window_isFocusable_at (hidden tabindex : string)
    (h : FocusableElement.t) (w i : Ref) (d : Document) :
  FocusableElement.isFocusable_at (mark_window hidden tabindex h w d) i
  = FocusableElement.isFocusable_at d i.
Proof.
  unfold mark_window. cbv zeta.
  generalize (FocusableElement.getKeyboardFocusableElements h
                (setAttribute w "aria-hidden" hidden d) w).
  intros l. transitivity
    (FocusableElement.isFocusable_at (setAttribute w "aria-hidden" hidden d) i).
  - generalize (setAttribute w "aria-hidden" hidden d). intros d0.
    revert d0. induction l as [|x l IH]; intros d0; [done|].
    cbn [foldl]. rewrite IH. by apply setAttribute_isFocusable_at.
  - by apply setAttribute_isFocusable_at.
Qed.

Lemma matches_tabindex (d : Document) (i : Ref) (v : string)
    (tags : list string) :
  attribute_at d i "tabindex" = Some v →
  existsb (matches d i)
    (FocusableElement.join_with tags (AttrSel "tabindex" v)) = true.
Proof.
  intros Hv. unfold FocusableElement.join_with. rewrite existsb_app.
  apply orb_true_iff. right. cbn. rewrite orb_false_r. unfold matches_at.
  unfold attribute_at, getAttribute in Hv.
  destruct (d !! i) as [e|]; [|done]. cbn in *. by apply bool_decide_eq_true.
Qed.

(** What [hide_window] took out of the tab order is found by
    [show_window]. *)
Lemma hidden_elements_revealable (w x : Ref) (d : Document) :
  x ∈ FocusableElement.getKeyboardFocusableElements FocusableElement.new d w →
  x ∈ FocusableElement.getKeyboardFocusableElements revealable
        (JSCarousel.hide_window w d) w.
Proof.
  intros Hx. rewrite hide_window_mark.
  pose proof (mark_window_tabindex "true" "-1" FocusableElement.new
                focus_selector_new w x d Hx) as Ht.
  apply getKeyboardFocusableElements_elem_of in Hx as (Hd & _ & Hf).
  apply getKeyboardFocusableElements_elem_of. split; [|split].
  - rewrite (same_skeleton_is_descendant d); [done|].
    apply mark_window_skeleton.
  - by apply matches_tabindex.
  - by rewrite mark_window_isFocusable_at.
Qed.

(** X16: [hide_window] then [show_window] on a panel: every element that
    [hide_window] takes out of the tab order ([tabindex="-1"]) is put back by
    [show_window] ([tabindex="0"]), and the panel ends with
    [aria-hidden="false"]. *)
Theorem hide_then_show (w x : Ref) (d : Document) :
  is_Some (d !! w) →
  x ∈ FocusableElement.getKeyboardFocusableElements FocusableElement.new d w →
  let hidden := JSCarousel.hide_window w d in
  let shown_again := JSCarousel.show_window w hidden in
  attribute_at hidden w "aria-hidden" = Some "true"
  ∧ attribute_at hidden x "tabindex" = Some "-1"
  ∧ attribute_at shown_again w "aria-hidden" = Some "false"
  ∧ attribute_at shown_again x "tabindex" = Some "0".
Proof.
  intros Hw Hx hidden shown_again. subst shown_again.
  pose proof (hidden_elements_revealable w x d Hx) as Hr. fold hidden in Hr.
  assert (Hw' : is_Some (hidden !! w)).
  { apply lookup_lt_is_Some.
    rewrite (same_skeleton_length d hidden); [by apply lookup_lt_is_Some|].
    subst hidden. rewrite hide_window_mark. apply mark_window_skeleton. }
  rewrite show_window_mark. subst hidden. rewrite hide_window_mark in *.
  repeat split.
  - by apply mark_window_aria_hidden.
  - by apply mark_window_tabindex; [apply focus_selector_new|].
  - by apply mark_window_aria_hidden.
  - by apply mark_window_tabindex; [apply focus_selector_revealable|].
Qed.

Lemma hide_then_show_witness :
  attribute_at (JSCarousel.hide_window 3%nat readme) 6%nat "tabindex"
  = Some "-1"
  ∧ attribute_at
      (JSCarousel.show_window 3%nat (JSCarousel.hide_window 3%nat readme))
      6%nat "tabindex"
    = Some "0".
Proof.
  destruct (hide_then_show 3%nat 6%nat readme) as (_ & H1 & _ & H2).
  - vm_compute. eauto.
  - vm_compute. apply list_elem_of_here.
  - by split.
Defined.
(** ** A tab click that throws *)

Lemma keeps_selected_refl (tab : Ref) (s : State) : keeps_selected tab s s.
Proof. reflexivity. Qed.

Lemma keeps_selected_trans (tab : Ref) (s1 s2 s3 : State) :
  keeps_selected tab s1 s2 → keeps_selected tab s2 s3 →
  keeps_selected tab s1 s3.
Proof. unfold keeps_selected. congruence. Qed.

Lemma keeps_selected_setAttribute (tab t : Ref) (n v : string) :
  t ≠ tab ∨ n ≠ "aria-selected" →
  stable (keeps_selected tab) (modify_document (setAttribute t n v)).
Proof. intros H s. by apply setAttribute_attribute_ne. Qed.

Lemma keeps_selected_classList_add (tab i : Ref) (c : string) :
  stable (keeps_selected tab) (modify_document (classList_add i c)).
Proof. intros s. apply classList_add_attribute. Qed.

Lemma keeps_selected_classList_remove (tab i : Ref) (c : string) :
  stable (keeps_selected tab) (modify_document (classList_remove i c)).
Proof. intros s. apply classList_attribute. Qed.

Lemma deselect_tab_keeps_selected (tab t : Ref) :
  stable (keeps_selected tab) (JSCarousel.deselect_tab tab t).
Proof.
  unfold JSCarousel.deselect_tab. case_bool_decide as Ht.
  - apply stable_ret, keeps_selected_refl.
  - stable_with (keeps_selected_refl tab) (keeps_selected_trans tab)
      ltac:(first
        [ apply keeps_selected_setAttribute; by left
        | apply keeps_selected_classList_remove ]).
Qed.

(** Whether the block on the tabs returns or throws, the tab at [index] ends
    with [aria-selected="true"]. *)
Lemma select_tab_marks (c : Carousel) (index : Z) (tab : Ref) (s : State) :
  item (tabs c) index = Some tab →
  is_Some (document (page s) !! tab) →
  attribute_at (document (page (JSCarousel.select_tab c index s).2)) tab
    "aria-selected" = Some "true".
Proof.
  intros Hi Hs. unfold JSCarousel.select_tab. cbn [truthy]. rewrite Hi.
  rewrite bind_run. cbn [modify_document this page document listeners intervals].
  match goal with
  | |- attribute_at (document (page (?m ?sa).2)) _ _ = _ =>
      assert (Hst : stable (keeps_selected tab) m)
  end.
  { stable_with (keeps_selected_refl tab) (keeps_selected_trans tab)
      ltac:(first
        [ apply keeps_selected_setAttribute; by right
        | apply keeps_selected_classList_add
        | apply (stable_for_of _ (keeps_selected_refl tab)
                   (keeps_selected_trans tab));
          intros ?; apply deselect_tab_keeps_selected ]). }
  rewrite Hst. cbn [page document]. by apply setAttribute_attribute_eq.
Qed.

(** X17: when the click listener of a tab item throws, the object is as it
    was (index and delay counter included), no inline style and no
    [aria-hidden] is written, but the clicked tab already has
    [aria-selected="true"]: the selection and the index are left out of
    step. *)
Theorem failed_tab_click (i : nat) (tab : Ref) (s : State) :
  item (tabs (this s)) (Z.of_nat i) = Some tab →
  is_Some (document (page s) !! tab) →
  is_throw (JSCarousel.on_click_tab i s).1 = true →
  let s' := (JSCarousel.on_click_tab i s).2 in
  this s' = this s
  ∧ style <$> document (page s') = style <$> document (page s)
  ∧ (∀ w, attribute_at (document (page s')) w "aria-hidden"
          = attribute_at (document (page s)) w "aria-hidden")
  ∧ attribute_at (document (page s')) tab "aria-selected" = Some "true".
Proof.
  intros Hi Hs. rewrite on_click_tab_run. unfold JSCarousel.active_panel.
  rewrite bind_run. cbn [get_this]. rewrite bind_run.
  pose proof (select_tab_same_this (this s) (Z.of_nat i) s) as Hthis.
  pose proof (select_tab_writes (this s) (Z.of_nat i) s) as [Hst Hat].
  pose proof (select_tab_marks (this s) (Z.of_nat i) tab s Hi Hs) as Hm.
  destruct (JSCarousel.select_tab (this s) (Z.of_nat i) s) as [[[]|msg] s1].
  - by rewrite move_run.
  - intros _. cbn in *. repeat split; try done.
    intros w. apply Hat; [done..|]. right. by split.
Qed.

Lemma failed_tab_click_witness :
  this (JSCarousel.on_click_tab 1 (constructed 0%nat None page_empty_tab)).2
  = this (constructed 0%nat None page_empty_tab)
  ∧ attribute_at
      (document
         (page (JSCarousel.on_click_tab 1
                  (constructed 0%nat None page_empty_tab)).2))
      6%nat "aria-selected" = Some "true".
Proof.
  destruct (failed_tab_click 1 6%nat (constructed 0%nat None page_empty_tab))
    as (H1 & _ & _ & H2).
  - vm_compute. reflexivity.
  - vm_compute. eauto.
  - vm_compute. reflexivity.
  - by split.
Defined.
(** ** The two focus tests *)

(** X18: [has_tabs_focus] and [has_window_focus] return without a write;
    the first answers [true] exactly when the tabs are enabled and the focused
    element is a tab item, the second exactly when the focused element is a
    child of a panel, and not when it is deeper inside. *)
Theorem focus_tests (a : option Ref) (s : State) :
  ∃ on_tabs in_window : bool,
    JSCarousel.has_tabs_focus a s = (Normal on_tabs, s)
    ∧ JSCarousel.has_window_focus a s = (Normal in_window, s)
    ∧ (on_tabs = true ↔ on_a_tab (this s) a)
    ∧ (in_window = true ↔ on_a_panel_child s a).
Proof.
  eexists _, _. split; [apply has_tabs_focus_run|].
  split; [apply has_window_focus_run|]. split.
  - apply has_tabs_focus_on_a_tab.
  - apply has_window_focus_on_a_panel_child.
Qed.

(** ** A carousel of width 0 *)

Lemma zero_width_distance (c : Carousel) (index : Z) :
  Number.strict_neq_zero (width c) = false →
  Number.strict_neq_zero (JSCarousel.distance c index) = false.
Proof.
  unfold JSCarousel.distance. destruct (width c) as [q|]; [|done]. cbn.
  intros Hq%negb_false_iff%Qeq_bool_iff.
  apply negb_false_iff, Qeq_bool_iff. rewrite Hq. ring.
Qed.

Lemma panels_frozen_refl (s : State) : panels_frozen s s.
Proof. by repeat split. Qed.

Lemma panels_frozen_trans (s1 s2 s3 : State) :
  panels_frozen s1 s2 → panels_frozen s2 s3 → panels_frozen s1 s3.
Proof.
  intros (H1 & H2 & H3) (H4 & H5 & H6).
  split; [congruence|]. split; [congruence|]. intros i. by rewrite H6.
Qed.

Lemma fire_panels_frozen (h : Handler) (e : JSCarousel.KeyboardEvent)
    (a : option Ref) (s : State) :
  Number.strict_neq_zero (width (this s)) = false →
  panels_frozen s (JSCarousel.fire h e a s).2.
Proof.
  intros HW.
  destruct (fire_effect h e a s)
    as [(Hc & _ & _ & Hw)|(idx & _ & Hc & _ & _ & _ & d1 & Hw & Hd)];
    apply settings_of_eq in Hc as (Hwidth & _).
  - split; [done|]. destruct Hw as (Hs & _ & Ha). split; [done|].
    intros i. apply Ha; [done..|]. right. by split.
  - split; [done|]. rewrite Hd. unfold move_document.
    rewrite zero_width_distance by done.
    destruct Hw as (Hs & _ & Ha). split; [done|].
    intros i. apply Ha; [done..|]. right. by split.
Qed.

(** X19: when the width read at construction is 0, no callback ever moves,
    hides or shows a panel: whatever callbacks fire, every inline style and
    every [aria-hidden] attribute of the page stay as they are, while the
    index goes on changing. *)
Theorem zero_width_freezes_panels
    (events : list (Handler * JSCarousel.KeyboardEvent * option Ref))
    (s : State) :
  Number.strict_neq_zero (width (this s)) = false →
  panels_frozen s (run_events events s).
Proof.
  intros HW.
  apply (run_events_invariant
           (fun s' => panels_frozen s s') (fun _ => True)); [|done|].
  - intros h e a s' _ Hf. eapply panels_frozen_trans; [exact Hf|].
    apply fire_panels_frozen. destruct Hf as (-> & _). done.
  - apply panels_frozen_refl.
Qed.

Lemma zero_width_freezes_panels_witness :
  panels_frozen
    (mkState (with_width (Num 0) (this readme_state)) (page readme_state))
    (run_events readme_events
       (mkState (with_width (Num 0) (this readme_state)) (page readme_state))).
Proof.
  apply zero_width_freezes_panels. vm_compute. reflexivity.
Defined.
